(** * mongodb-queue: a lease-based message queue over a document store

    Shallow embedding of [mongodb-queue.js] and verification of its
    claim / renew / acknowledge protocol.

    Conventions of the embedding.
    - An instant is a number of milliseconds since the epoch, an integer.
      A timestamp is what the source stores: the string
      [Date.toISOString()] makes of an instant.  The store compares
      timestamps as strings.  [toISOString] throws a [RangeError] on a
      date outside the range of [Date] (more than 8.64e15 ms from the
      epoch).
    - Numbers of seconds ([delay], [visibility]) and [maxRetries] are
      integers.
    - The clock and the random source are oracles carried by the world;
      every [now()], [Date.now()] and [crypto.randomBytes] consumes one
      reading, so two readings inside one call may differ.
    - A call with a callback becomes a computation over the world that
      yields either the value handed to [callback(null, v)] or an error:
      the one handed to [callback(err)], or the exception the call throws.
    - The document store is outside the repository: [insertOne],
      [findOneAndUpdate], [deleteMany], [count] and [createIndex] are
      modelled after MongoDB's documented behaviour. *)

From Stdlib Require Import ZArith NArith String Ascii List Bool Lia.
From stdpp Require Import base option list strings gmap.

Local Open Scope string_scope.
Local Open Scope Z_scope.

(* ===================================================================== *)
(** ** Data model *)
(* ===================================================================== *)

(** The object handed to the caller of [get]: the stored document with
    [id] (the hex rendering of [_id]) in place of [_id]. *)
Module Msg.
Record t (P : Type) : Type := mk {
  id : string;
  visible : string;
  payload : P;
  ack : option string;
  tries : option Z;
  firstClaimed : option string;
  user : option string;
  deleted : option string
}.
Arguments mk {P}.
Arguments id {P}.
Arguments visible {P}.
Arguments payload {P}.
Arguments ack {P}.
Arguments tries {P}.
Arguments firstClaimed {P}.
Arguments user {P}.
Arguments deleted {P}.
End Msg.

(** A payload is a caller's value, or (on the dead-letter path) a whole
    message object. *)
#[warnings="-register-all"]
Inductive value : Type :=
| VData (s : string)
| VMsg (m : Msg.t value).

Abbreviation message := (Msg.t value).

(** A stored document.  Fields the source never wrote yet are absent;
    [visible], [firstClaimed] and [deleted] hold timestamps. *)
Module Doc.
Record t : Type := mk {
  _id : N;
  visible : string;
  payload : value;
  ack : option string;
  tries : option Z;
  firstClaimed : option string;
  user : option string;
  deleted : option string
}.
End Doc.

Abbreviation doc := Doc.t.

(** A collection: its documents in insertion order, and whether the
    unique sparse index on [ack] has been built. *)
Record Collection : Type := mkCollection {
  docs : list doc;
  ackUnique : bool
}.

Definition emptyCollection : Collection :=
  {| docs := []; ackUnique := false |}.

(** The world: the two oracles, how many readings of each were consumed,
    the next ObjectId and the collections by name. *)
Record World : Type := mkWorld {
  clock : nat -> Z;
  entropy : nat -> nat -> list Byte.byte;
  reads : nat;
  draws : nat;
  nextId : N;
  db : gmap string Collection
}.

(** The store's errors, the errors the queue makes itself, and the
    exception of [Date.toISOString]. *)
Inductive error : Type :=
| MongoError (m : string)
| Error (m : string)
| RangeError (m : string).

Inductive result (A : Type) : Type :=
| Ok (a : A)
| Err (e : error)
| OutOfFuel.
Arguments Ok {A}.
Arguments Err {A}.
Arguments OutOfFuel {A}.

(** Computations over the world.  An error keeps the world reached so
    far: what the store did before the failure stays done. *)
Definition M (A : Type) : Type := World -> result A * World.

Definition ret {A} (a : A) : M A := fun w => (Ok a, w).

Definition fail {A} (e : error) : M A := fun w => (Err e, w).

Definition bind {A B} (c : M A) (k : A -> M B) : M B :=
  fun w =>
    match c w with
    | (Ok a, w') => k a w'
    | (Err e, w') => (Err e, w')
    | (OutOfFuel, w') => (OutOfFuel, w')
    end.

Declare Scope queue_scope.
Delimit Scope queue_scope with queue.
Notation "'let*' x ':=' c 'in' k" := (bind c (fun x => k))
  (at level 10, x name, c at level 200, k at level 200) : queue_scope.
Local Open Scope queue_scope.

(* ===================================================================== *)
(** ** JavaScript helpers *)
(* ===================================================================== *)

(** [a || b] on an optional number: [undefined] and [0] are falsy. *)
Definition or_num (a : option Z) (b : Z) : Z :=
  match a with
  | Some v => if v =? 0 then b else v
  | None => b
  end.

Definition truthy_num (n : Z) : bool := negb (n =? 0).

(** Truthiness of an optional string: [undefined] and the empty string
    are falsy. *)
Definition truthy_str (s : option string) : bool :=
  match s with
  | Some EmptyString => false
  | Some _ => true
  | None => false
  end.

(** [a > b] on numbers that may be [undefined]: a comparison with
    [undefined] is false. *)
Definition js_gt (a b : option Z) : bool :=
  match a, b with
  | Some x, Some y => y <? x
  | _, _ => false
  end.

(** ["..." + v] where [v] may be [undefined]. *)
Definition js_str (v : option string) : string := default "undefined" v.

Definition hex_digit (n : N) : ascii :=
  nth (N.to_nat n)
    ["0"; "1"; "2"; "3"; "4"; "5"; "6"; "7";
     "8"; "9"; "a"; "b"; "c"; "d"; "e"; "f"]%char "0"%char.

(** [Buffer.toString("hex")]. *)
Fixpoint hex_of_bytes (bs : list Byte.byte) : string :=
  match bs with
  | [] => EmptyString
  | b :: bs' =>
      let n := Byte.to_N b in
      String (hex_digit (n / 16)%N)
        (String (hex_digit (n mod 16)%N) (hex_of_bytes bs'))
  end.

Fixpoint hex_of_N (digits : nat) (n : N) (acc : string) : string :=
  match digits with
  | O => acc
  | S k => hex_of_N k (n / 16)%N (String (hex_digit (n mod 16)%N) acc)
  end.

(** [ObjectId.toHexString()]: the twelve bytes as 24 hex digits. *)
Definition toHexString (o : N) : string := hex_of_N 24 o EmptyString.

(* ===================================================================== *)
(** ** Dates *)
(* ===================================================================== *)

Definition digit (n : Z) : ascii := ascii_of_nat (48 + Z.to_nat n).

Fixpoint pow10 (k : nat) : Z :=
  match k with
  | O => 1
  | S k' => 10 * pow10 k'
  end.

(** The [k] decimal digits of [n], with leading zeros. *)
Fixpoint pad (k : nat) (n : Z) : string :=
  match k with
  | O => EmptyString
  | S k' => String (digit (n / pow10 k')) (pad k' (n mod pow10 k'))
  end.

(** The date (year, month, day) of the day that lies [z] days after
    1970-01-01, in the proleptic Gregorian calendar: count the days from
    0000-03-01, split them into cycles of 400 years, centuries, cycles of
    4 years and years that begin in March, and turn the day of such a
    year into month and day. *)
Definition civil (z : Z) : Z * Z * Z :=
  let s := z + 719468 in
  let era := s / 146097 in
  let doe := s mod 146097 in
  let a := Z.min (doe / 36524) 3 in
  let r1 := doe - a * 36524 in
  let b := r1 / 1461 in
  let r2 := r1 mod 1461 in
  let c := Z.min (r2 / 365) 3 in
  let doy := r2 - c * 365 in
  let ym := era * 400 + a * 100 + b * 4 + c in
  let mp := (5 * doy + 2) / 153 in
  let d := doy - (153 * mp + 2) / 5 + 1 in
  let m := if mp <? 10 then mp + 3 else mp - 9 in
  let y := if m <=? 2 then ym + 1 else ym in
  (y, m, d).

(** Four digits for the years 0 to 9999, a sign and six digits for the
    others. *)
Definition year_string (y : Z) : string :=
  if (0 <=? y) && (y <=? 9999) then pad 4 y
  else (if y <? 0 then "-" else "+") +:+ pad 6 (Z.abs y).

(** The string [Date.prototype.toISOString] makes of the instant [t]:
    [YYYY-MM-DDTHH:mm:ss.sssZ]. *)
Definition iso (t : Z) : string :=
  let '(y, m, d) := civil (t / 86400000) in
  let r := t mod 86400000 in
  year_string y +:+ "-" +:+ pad 2 m +:+ "-" +:+ pad 2 d +:+ "T"
  +:+ pad 2 (r / 3600000) +:+ ":" +:+ pad 2 (r / 60000 mod 60) +:+ ":"
  +:+ pad 2 (r / 1000 mod 60) +:+ "." +:+ pad 3 (r mod 1000) +:+ "Z".

(** The instants a [Date] can hold; [new Date(t)] is an invalid date for
    any other [t]. *)
Definition valid_time (t : Z) : bool :=
  (-8640000000000000 <=? t) && (t <=? 8640000000000000).

(** [new Date(t).toISOString()] *)
Definition toISOString (t : Z) : M string :=
  fun w =>
    if valid_time t then (Ok (iso t), w)
    else (Err (RangeError "Invalid time value"), w).

(** The order in which the store compares two strings: character by
    character, by character code; a proper prefix comes first. *)
Fixpoint str_ltb (s1 s2 : string) : bool :=
  match s1, s2 with
  | EmptyString, EmptyString => false
  | EmptyString, String _ _ => true
  | String _ _, EmptyString => false
  | String c1 r1, String c2 r2 =>
      if (nat_of_ascii c1 <? nat_of_ascii c2)%nat then true
      else if (nat_of_ascii c2 <? nat_of_ascii c1)%nat then false
      else str_ltb r1 r2
  end.

(* ===================================================================== *)
(** ** The clock and the random source *)
(* ===================================================================== *)

Definition tick (w : World) : World :=
  {| clock := clock w; entropy := entropy w; reads := S (reads w);
     draws := draws w; nextId := nextId w; db := db w |}.

Definition draw (w : World) : World :=
  {| clock := clock w; entropy := entropy w; reads := reads w;
     draws := S (draws w); nextId := nextId w; db := db w |}.

(** [crypto.randomBytes(16).toString("hex")] *)
Definition id : M string :=
  fun w => (Ok (hex_of_bytes (entropy w (draws w) 16)), draw w).

(** [new Date().toISOString()]: the date of the current instant is never
    an invalid date, so this [toISOString] does not throw. *)
Definition now : M string :=
  fun w => (Ok (iso (clock w (reads w))), tick w).

(** [(new Date(Date.now() + secs * 1000)).toISOString()] *)
Definition nowPlusSecs (secs : Z) : M string :=
  fun w => toISOString (clock w (reads w) + secs * 1000) (tick w).

(* ===================================================================== *)
(** ** The document store *)
(* ===================================================================== *)

Inductive ackCond : Type :=
| AckIs (a : option string)      (* ack: a *)
| AckExists (b : bool).          (* ack: { $exists: b } *)

Inductive visibleCond : Type :=
| VisibleLt (t : string)         (* visible: { $lt: t } *)
| VisibleGt (t : string).        (* visible: { $gt: t } *)

(** The query documents the source builds: at most one condition on each
    of [ack], [visible] and [deleted] ([deleted: { $exists: b }]). *)
Record query : Type := mkQuery {
  q_ack : option ackCond;
  q_visible : option visibleCond;
  q_deleted : option bool
}.

(** The update documents the source builds: [$inc] on [tries], [$set] on
    [ack], [visible], [firstClaimed] and [deleted], and the key [user]
    that [get] puts at the top level of the document, beside the
    operators. *)
Record update : Type := mkUpdate {
  inc_tries : option Z;
  set_ack : option string;
  set_visible : option string;
  set_firstClaimed : option string;
  set_deleted : option string;
  top_user : option string
}.

Definition present {A} (o : option A) : bool :=
  match o with Some _ => true | None => false end.

(** A query for a value that is [undefined] reaches the store as [null],
    which matches a document where the field is absent: equality on [ack]
    is equality of optional strings.  [$lt] and [$gt] on [visible]
    compare strings. *)
Definition matches (q : query) (d : doc) : bool :=
  match q_ack q with
  | None => true
  | Some (AckIs a) => bool_decide (Doc.ack d = a)
  | Some (AckExists b) => Bool.eqb (present (Doc.ack d)) b
  end
  && match q_visible q with
     | None => true
     | Some (VisibleLt t) => str_ltb (Doc.visible d) t
     | Some (VisibleGt t) => str_ltb t (Doc.visible d)
     end
  && match q_deleted q with
     | None => true
     | Some b => Bool.eqb (present (Doc.deleted d)) b
     end.

(** [$inc] creates an absent field from 0; [$set] overwrites. *)
Definition apply_update (u : update) (d : doc) : doc :=
  {| Doc._id := Doc._id d;
     Doc.visible := default (Doc.visible d) (set_visible u);
     Doc.payload := Doc.payload d;
     Doc.ack := match set_ack u with Some a => Some a | None => Doc.ack d end;
     Doc.tries := match inc_tries u with
                  | Some k => Some (default 0 (Doc.tries d) + k)
                  | None => Doc.tries d
                  end;
     Doc.firstClaimed := match set_firstClaimed u with
                         | Some t => Some t
                         | None => Doc.firstClaimed d
                         end;
     Doc.user := Doc.user d;
     Doc.deleted := match set_deleted u with
                    | Some t => Some t
                    | None => Doc.deleted d
                    end |}.

(** The document [findOneAndUpdate] picks: with [sort: { _id: 1 }] a
    matching document whose [_id] is least among the matching ones,
    without a sort the first matching document in insertion order. *)
Definition selects (q : query) (sorted : bool) (l : list doc) (d : doc) : bool :=
  matches q d
  && (negb sorted
      || forallb (fun d' => implb (matches q d') (Doc._id d <=? Doc._id d')%N) l).

Definition findOne (q : query) (sorted : bool) (l : list doc) : option (nat * doc) :=
  list_find (fun d => selects q sorted l d = true) l.

(** Would writing the [ack] of update [u] into the document at position
    [i] break the unique sparse index on [ack]?  Only an update that
    writes the indexed field is checked. *)
Definition duplicate_ack (l : list doc) (i : nat) (u : update) : bool :=
  match set_ack u with
  | None => false
  | Some a =>
      existsb (fun jd => negb (fst jd =? i)%nat
                         && bool_decide (Doc.ack (snd jd) = Some a))
              (imap pair l)
  end.

Definition collection (name : string) (w : World) : Collection :=
  default emptyCollection (db w !! name).

Definition set_collection (name : string) (c : Collection) (w : World) : World :=
  {| clock := clock w; entropy := entropy w; reads := reads w;
     draws := draws w; nextId := nextId w; db := <[name := c]> (db w) |}.

Definition set_docs (l : list doc) (c : Collection) : Collection :=
  {| docs := l; ackUnique := ackUnique c |}.

(** The document [{ visible, payload }] once it has its [_id]. *)
Definition fresh_doc (o : N) (visible : string) (payload : value) : doc :=
  {| Doc._id := o; Doc.visible := visible; Doc.payload := payload;
     Doc.ack := None; Doc.tries := None; Doc.firstClaimed := None;
     Doc.user := None; Doc.deleted := None |}.

(** [col.insertOne({ visible, payload })]: the document gets the next
    ObjectId and goes to the end of the collection. *)
Definition insertOne (name : string) (visible : string) (payload : value)
    : M N :=
  fun w =>
    let o := nextId w in
    let c := collection name w in
    let d := fresh_doc o visible payload in
    let w1 := set_collection name (set_docs (docs c ++ [d])%list c) w in
    (Ok o,
     {| clock := clock w1; entropy := entropy w1; reads := reads w1;
        draws := draws w1; nextId := (o + 1)%N; db := db w1 |}).

(** [col.findOneAndUpdate(query, update, { sort, returnOriginal: false })],
    one atomic step of the store.  An update document whose first key is
    an operator and that also has a key that is no operator is refused
    before any document is looked at.  The result is the document after
    the update, or [None] ([value: null]) when no document matches. *)
Definition findOneAndUpdate (name : string) (q : query) (u : update)
    (sorted : bool) : M (option doc) :=
  fun w =>
    match top_user u with
    | Some _ => (Err (MongoError "Unknown modifier: user"), w)
    | None =>
        let c := collection name w in
        match findOne q sorted (docs c) with
        | None => (Ok None, w)
        | Some (i, d) =>
            let d' := apply_update u d in
            if ackUnique c && duplicate_ack (docs c) i u
            then (Err (MongoError "E11000 duplicate key error"), w)
            else (Ok (Some d'),
                  set_collection name (set_docs (<[i := d']> (docs c)) c) w)
        end
    end.

Definition count (name : string) (q : query) : M nat :=
  fun w => (Ok (length (filter (fun d => matches q d = true)
                               (docs (collection name w)))), w).

Definition deleteMany (name : string) (q : query) : M nat :=
  fun w =>
    let c := collection name w in
    let gone := filter (fun d => matches q d = true) (docs c) in
    let kept := filter (fun d => matches q d <> true) (docs c) in
    (Ok (length gone), set_collection name (set_docs kept c) w).

Fixpoint has_duplicate_ack (l : list doc) : bool :=
  match l with
  | [] => false
  | d :: l' =>
      match Doc.ack d with
      | Some a => existsb (fun d' => bool_decide (Doc.ack d' = Some a)) l'
      | None => false
      end
      || has_duplicate_ack l'
  end.

(** [col.createIndex({ ack: 1 }, { unique: true, sparse: true })] *)
Definition createIndex_ack (name : string) : M unit :=
  fun w =>
    let c := collection name w in
    if has_duplicate_ack (docs c)
    then (Err (MongoError "E11000 duplicate key error"), w)
    else (Ok tt,
          set_collection name {| docs := docs c; ackUnique := true |} w).

(* ===================================================================== *)
(** ** The queue *)
(* ===================================================================== *)

(** The Queue object: [col] is the collection called [name];
    [deadQueue] and [maxRetries] are set together or not at all. *)
Module Queue.
#[warnings="-register-all"]
Inductive t : Type := mk {
  name : string;
  visibility : Z;
  delay : Z;
  deadQueue : option t;
  maxRetries : option Z
}.
End Queue.

(** The [opts] argument of the constructor. *)
Module QueueOpts.
Record t : Type := mk {
  visibility : option Z;
  delay : option Z;
  deadQueue : option Queue.t;
  maxRetries : option Z
}.
End QueueOpts.

(** The [opts] argument of [add], [get] and [ping]. *)
Module Opts.
Record t : Type := mk {
  delay : option Z;
  visibility : option Z;
  user : option string
}.
End Opts.

(** [opts = {}] *)
Definition noOpts : Opts.t :=
  {| Opts.delay := None; Opts.visibility := None; Opts.user := None |}.

(** [new Queue(mongoDbClient, name, opts)]; [mongoDbClient] tells
    whether a client was given. *)
Definition Queue (mongoDbClient : bool) (name : string)
    (opts : option QueueOpts.t) : result Queue.t :=
  if negb mongoDbClient
  then Err (Error "mongodb-queue: provide a mongodb.MongoClient")
  else if bool_decide (name = EmptyString)
  then Err (Error "mongodb-queue: provide a queue name")
  else
    let opts := default {| QueueOpts.visibility := None; QueueOpts.delay := None;
                           QueueOpts.deadQueue := None;
                           QueueOpts.maxRetries := None |} opts in
    Ok {| Queue.name := name;
          Queue.visibility := or_num (QueueOpts.visibility opts) 30;
          Queue.delay := or_num (QueueOpts.delay opts) 0;
          Queue.deadQueue := QueueOpts.deadQueue opts;
          Queue.maxRetries :=
            match QueueOpts.deadQueue opts with
            | Some _ => Some (or_num (QueueOpts.maxRetries opts) 5)
            | None => None
            end |}.

(** The first index ([deleted], [visible], [_id]) only serves speed; the
    second is the unique sparse index on [ack]. *)
Definition createIndexes (self : Queue.t) : M string :=
  let* _ := createIndex_ack (Queue.name self) in
  ret "deleted_1_visible_1__id_1".

Definition add (self : Queue.t) (payload : value) (opts : Opts.t) : M string :=
  let delay := or_num (Opts.delay opts) (Queue.delay self) in
  let* visible := (if truthy_num delay then nowPlusSecs delay else now) in
  let* o := insertOne (Queue.name self) visible payload in
  ret (toHexString o).

(** [msg.id = msg._id.toHexString(); delete msg._id] *)
Definition message_of (d : doc) : message :=
  {| Msg.id := toHexString (Doc._id d);
     Msg.visible := Doc.visible d;
     Msg.payload := Doc.payload d;
     Msg.ack := Doc.ack d;
     Msg.tries := Doc.tries d;
     Msg.firstClaimed := Doc.firstClaimed d;
     Msg.user := Doc.user d;
     Msg.deleted := Doc.deleted d |}.

(** The query of [ping] and [ack]: the token, a lease that still runs,
    no [deleted]. *)
Definition lease_query (a : option string) (t : string) : query :=
  {| q_ack := Some (AckIs a); q_visible := Some (VisibleGt t);
     q_deleted := Some false |}.

Definition ack (self : Queue.t) (ack : option string) : M string :=
  let* t := now in
  let query := lease_query ack t in
  let* t' := now in
  let update := {| inc_tries := None; set_ack := None; set_visible := None;
                   set_firstClaimed := None; set_deleted := Some t';
                   top_user := None |} in
  let* msg := findOneAndUpdate (Queue.name self) query update false in
  match msg with
  | None => fail (Error ("Queue.ack(): Unidentified ack : " +:+ js_str ack))
  | Some d => ret (toHexString (Doc._id d))
  end.

Definition ping (self : Queue.t) (ack : option string) (opts : Opts.t) : M string :=
  let visibility := or_num (Opts.visibility opts) (Queue.visibility self) in
  let* t := now in
  let query := lease_query ack t in
  let* v := nowPlusSecs visibility in
  let update := {| inc_tries := None; set_ack := None; set_visible := Some v;
                   set_firstClaimed := None; set_deleted := None;
                   top_user := None |} in
  let* msg := findOneAndUpdate (Queue.name self) query update false in
  match msg with
  | None => fail (Error ("Queue.ping(): Unidentified ack  : " +:+ js_str ack))
  | Some d => ret (toHexString (Doc._id d))
  end.

(** The query and the update document of [get]. *)
Definition get_query (t : string) : query :=
  {| q_ack := None; q_visible := Some (VisibleLt t); q_deleted := Some false |}.

Definition get_update (a : string) (v f : string) (user : option string)
    : update :=
  {| inc_tries := Some 1; set_ack := Some a; set_visible := Some v;
     set_firstClaimed := Some f; set_deleted := None;
     top_user := if truthy_str user then user else None |}.

(** The first half of [get]: read [opts], build the query (one clock
    reading) and the update document (a token and two more clock
    readings), and call [findOneAndUpdate] with [sort: { _id: 1 }]. *)
Definition claim (self : Queue.t) (opts : Opts.t) : M (option doc) :=
  let user := Opts.user opts in
  let visibility := or_num (Opts.visibility opts) (Queue.visibility self) in
  let* t := now in
  let* a := id in
  let* v := nowPlusSecs visibility in
  let* f := now in
  findOneAndUpdate (Queue.name self) (get_query t) (get_update a v f user) true.

(** [get]: the claim, then the callback of [findOneAndUpdate].  [get]
    calls itself after a dead-letter hand-off; [fuel] bounds the depth of
    that recursion. *)
Fixpoint get (fuel : nat) (self : Queue.t) (opts : Opts.t) : M (option message) :=
  match fuel with
  | O => fun w => (OutOfFuel, w)
  | S fuel' =>
      let* result := claim self opts in
      match result with
      | None => ret None
      | Some d =>
          let msg := message_of d in
          match Queue.deadQueue self with
          | Some deadQueue =>
              if js_gt (Msg.tries msg) (Queue.maxRetries self)
              then
                let* _ := add deadQueue (VMsg msg) noOpts in
                let* _ := ack self (Msg.ack msg) in
                get fuel' self noOpts
              else ret (Some msg)
          | None => ret (Some msg)
          end
      end
  end.

Definition clean (self : Queue.t) : M nat :=
  deleteMany (Queue.name self)
    {| q_ack := None; q_visible := None; q_deleted := Some true |}.

Definition total (self : Queue.t) : M nat :=
  count (Queue.name self)
    {| q_ack := None; q_visible := None; q_deleted := None |}.

Definition size (self : Queue.t) : M nat :=
  let* t := now in
  count (Queue.name self)
    {| q_ack := None; q_visible := Some (VisibleLt t); q_deleted := Some false |}.

Definition inFlight (self : Queue.t) : M nat :=
  let* t := now in
  count (Queue.name self)
    {| q_ack := Some (AckExists true); q_visible := Some (VisibleGt t);
       q_deleted := Some false |}.

Definition done (self : Queue.t) : M nat :=
  count (Queue.name self)
    {| q_ack := None; q_visible := None; q_deleted := Some true |}.

(* ===================================================================== *)
(** ** Vocabulary of the statements *)
(* ===================================================================== *)

(** The [tries] counter of a document; an absent field counts as 0. *)
Definition tries_of (d : doc) : Z := default 0 (Doc.tries d).

(** The instants of the years 0000 to 9999, whose timestamps begin with
    the four digits of the year: from 0000-01-01T00:00:00.000Z up to, and
    without, 10000-01-01T00:00:00.000Z. *)
Definition four_digit_year (t : Z) : Prop :=
  -62167219200000 <= t < 253402300800000.

(** A document that [get] may claim when its query carries the timestamp
    [t]: [visible] is below [t] in the order of the store. *)
Definition eligible (t : string) (d : doc) : Prop :=
  str_ltb (Doc.visible d) t = true /\ Doc.deleted d = None.

(** A document on which the token [a] is a running lease for a query
    that carries the timestamp [t]: [visible] is above [t] in the order
    of the store. *)
Definition holds_lease (a : string) (t : string) (d : doc) : Prop :=
  Doc.ack d = Some a /\ str_ltb t (Doc.visible d) = true /\ Doc.deleted d = None.

(** What one call of [get] reads before it goes to the store: the clock
    for the query, the token, the clock for the new [visible], the clock
    for [firstClaimed]. *)
Definition claim_time (w : World) : string := iso (clock w (reads w)).

Definition token (w : World) : string := hex_of_bytes (entropy w (draws w) 16).

Definition lease_instant (self : Queue.t) (opts : Opts.t) (w : World) : Z :=
  clock w (S (reads w))
  + or_num (Opts.visibility opts) (Queue.visibility self) * 1000.

Definition lease_end (self : Queue.t) (opts : Opts.t) (w : World) : string :=
  iso (lease_instant self opts w).

Definition claim_stamp (w : World) : string := iso (clock w (S (S (reads w)))).

Definition after_claim_reads (w : World) : World := tick (tick (draw (tick w))).

(** The store accepts the token the next [get] draws: the unique index
    is off, or no document holds that token. *)
Definition token_accepted (self : Queue.t) (w : World) : Prop :=
  ackUnique (collection (Queue.name self) w) = false
  \/ Forall (fun x => Doc.ack x <> Some (token w))
            (docs (collection (Queue.name self) w)).

(** The instant [add] makes the [visible] of a new document from. *)
Definition add_instant (self : Queue.t) (opts : Opts.t) (w : World) : Z :=
  clock w (reads w) + or_num (Opts.delay opts) (Queue.delay self) * 1000.

(** The instant [ping] makes the new [visible] from. *)
Definition ping_instant (self : Queue.t) (opts : Opts.t) (w : World) : Z :=
  clock w (S (reads w))
  + or_num (Opts.visibility opts) (Queue.visibility self) * 1000.

(** Document [d] after a claim with token [a], lease end [v] and stamp [f]. *)
Definition claimed (d : doc) (a : string) (v f : string) : doc :=
  {| Doc._id := Doc._id d;
     Doc.visible := v;
     Doc.payload := Doc.payload d;
     Doc.ack := Some a;
     Doc.tries := Some (tries_of d + 1);
     Doc.firstClaimed := Some f;
     Doc.user := Doc.user d;
     Doc.deleted := Doc.deleted d |}.

(** Document [d] with [visible] moved to [v] (by [ping]). *)
Definition renewed (d : doc) (v : string) : doc :=
  {| Doc._id := Doc._id d; Doc.visible := v; Doc.payload := Doc.payload d;
     Doc.ack := Doc.ack d; Doc.tries := Doc.tries d;
     Doc.firstClaimed := Doc.firstClaimed d; Doc.user := Doc.user d;
     Doc.deleted := Doc.deleted d |}.

(** Document [d] with [deleted] set to [t] (by [ack]). *)
Definition finalized (d : doc) (t : string) : doc :=
  {| Doc._id := Doc._id d; Doc.visible := Doc.visible d;
     Doc.payload := Doc.payload d; Doc.ack := Doc.ack d;
     Doc.tries := Doc.tries d; Doc.firstClaimed := Doc.firstClaimed d;
     Doc.user := Doc.user d; Doc.deleted := Some t |}.

(** Does the dead-letter policy of [self] apply to the claimed document? *)
Definition dead_lettered (self : Queue.t) (d : doc) : bool :=
  match Queue.deadQueue self with
  | Some _ => js_gt (Doc.tries d) (Queue.maxRetries self)
  | None => false
  end.

(** The world with the documents of collection [name] replaced by [l]. *)
Definition with_docs (name : string) (l : list doc) (w : World) : World :=
  set_collection name (set_docs l (collection name w)) w.

(** How a stored document may change over time: identity, payload and
    [user] stay, [tries] does not go down, and a document that has
    [deleted] set does not change at all. *)
Definition doc_step (d d' : doc) : Prop :=
  Doc._id d' = Doc._id d
  /\ Doc.payload d' = Doc.payload d
  /\ Doc.user d' = Doc.user d
  /\ tries_of d <= tries_of d'
  /\ (Doc.deleted d <> None -> d' = d).

(** World [w'] comes after world [w]: every document of [w] is still at
    its position, changed at most by [doc_step]. *)
Definition evolves (w w' : World) : Prop :=
  forall (name : string) (i : nat) (d : doc),
    docs (collection name w) !! i = Some d ->
    exists d', docs (collection name w') !! i = Some d' /\ doc_step d d'.

(** A computation is steady when the world it leaves comes after the
    world it started in. *)
Definition steady {A} (c : M A) : Prop :=
  forall w, evolves w (snd (c w)).

(** At most one document of the list holds any given token. *)
Definition tokens_unique (l : list doc) : Prop :=
  forall (i j : nat) (x y : doc) (a : string),
    l !! i = Some x -> l !! j = Some y ->
    Doc.ack x = Some a -> Doc.ack y = Some a -> i = j.

(** The collection [name] has the unique index on [ack], and obeys it. *)
Definition indexed (name : string) (w : World) : Prop :=
  ackUnique (collection name w) = true
  /\ tokens_unique (docs (collection name w)).

(** A computation that keeps every index it finds. *)
Definition keeps_index {A} (c : M A) : Prop :=
  forall (name : string) (w : World), indexed name w -> indexed name (snd (c w)).

(** The calls of a queue, [clean] apart (it removes documents). *)
Inductive call : Type :=
| CallCreateIndexes (self : Queue.t)
| CallAdd (self : Queue.t) (payload : value) (opts : Opts.t)
| CallGet (fuel : nat) (self : Queue.t) (opts : Opts.t)
| CallPing (self : Queue.t) (ack : option string) (opts : Opts.t)
| CallAck (self : Queue.t) (ack : option string)
| CallTotal (self : Queue.t)
| CallSize (self : Queue.t)
| CallInFlight (self : Queue.t)
| CallDone (self : Queue.t).

Definition perform (w : World) (c : call) : World :=
  match c with
  | CallCreateIndexes self => snd (createIndexes self w)
  | CallAdd self payload opts => snd (add self payload opts w)
  | CallGet fuel self opts => snd (get fuel self opts w)
  | CallPing self a opts => snd (ping self a opts w)
  | CallAck self a => snd (ack self a w)
  | CallTotal self => snd (total self w)
  | CallSize self => snd (size self w)
  | CallInFlight self => snd (inFlight self w)
  | CallDone self => snd (done self w)
  end.

(** The number of documents without [deleted]. *)
Fixpoint live_count (l : list doc) : nat :=
  match l with
  | [] => O
  | d :: l' => (if present (Doc.deleted d) then 0 else 1) + live_count l'
  end.

(** Every call of a queue, [clean] among them. *)
Inductive request : Type :=
| Call (c : call)
| CallClean (self : Queue.t).

Definition serve (w : World) (r : request) : World :=
  match r with
  | Call c => perform w c
  | CallClean self => snd (clean self w)
  end.

(** Where the document at position [i] of [l] is once the documents with
    [deleted] are removed: nowhere if it has [deleted], else behind the
    documents without [deleted] that were in front of it. *)
Definition after_clean (l : list doc) (i : nat) : option nat :=
  match l !! i with
  | Some d =>
      if present (Doc.deleted d) then None else Some (live_count (take i l))
  | None => None
  end.

(** Where the document at position [i] of collection [name] is after the
    requests [rs] were served from world [w]; [None] once a [clean] has
    removed it.  Only [clean] on that collection moves documents. *)
Fixpoint track (rs : list request) (w : World) (name : string) (i : nat)
    : option nat :=
  match rs with
  | [] => Some i
  | r :: rs' =>
      match r with
      | CallClean self =>
          if bool_decide (Queue.name self = name)
          then match after_clean (docs (collection name w)) i with
               | Some j => track rs' (serve w r) name j
               | None => None
               end
          else track rs' (serve w r) name i
      | Call _ => track rs' (serve w r) name i
      end
  end.

(* ===================================================================== *)
(** ** Example worlds *)
(* ===================================================================== *)

(** A clock that advances one second between two readings, and a random
    source whose [n]-th draw repeats the byte [n + 1]. *)
Definition second_clock (n : nat) : Z := 1000 * Z.of_nat n.

Definition counting_entropy (n k : nat) : list Byte.byte :=
  repeat (default Byte.x00 (Byte.of_N (N.of_nat (S n)))) k.

Definition genesis : World :=
  {| clock := second_clock; entropy := counting_entropy;
     reads := 0; draws := 0; nextId := 1%N; db := ∅ |}.

Definition jobs : Queue.t :=
  {| Queue.name := "jobs"; Queue.visibility := 30; Queue.delay := 0;
     Queue.deadQueue := None; Queue.maxRetries := None |}.

(** A queue whose leases last one second. *)
Definition quick : Queue.t :=
  {| Queue.name := "quick"; Queue.visibility := 1; Queue.delay := 0;
     Queue.deadQueue := None; Queue.maxRetries := None |}.

Definition morgue : Queue.t :=
  {| Queue.name := "morgue"; Queue.visibility := 30; Queue.delay := 0;
     Queue.deadQueue := None; Queue.maxRetries := None |}.

Definition delayed (D : Z) : Opts.t :=
  {| Opts.delay := Some D; Opts.visibility := None; Opts.user := None |}.

Definition as_user (u : string) : Opts.t :=
  {| Opts.delay := None; Opts.visibility := None; Opts.user := Some u |}.

(** A request for a lease of [V] seconds. *)
Definition lease_of (V : Z) : Opts.t :=
  {| Opts.delay := None; Opts.visibility := Some V; Opts.user := None |}.

(** Two messages in [jobs], added at readings 0 and 1. *)
Definition two_jobs : World :=
  snd (add jobs (VData "b") noOpts (snd (add jobs (VData "a") noOpts genesis))).

(** One message in [jobs], added at reading 0 with a delay of one second. *)
Definition one_delayed_job : World :=
  snd (add jobs (VData "job") (delayed 1) genesis).

(** One message in [jobs], added at reading 0 with a delay of 3e11
    seconds, which ends in the year 11476. *)
Definition far_job : World :=
  snd (add jobs (VData "far") (delayed 300000000000) genesis).

(** One message in [quick], added at reading 0. *)
Definition one_quick_job : World :=
  snd (add quick (VData "job") noOpts genesis).

(** Let [n] clock readings pass (each [size] reads the clock once). *)
Definition idle (n : nat) (w : World) : World :=
  Nat.iter n (fun w' => snd (size jobs w')) w.

(** Leases of five seconds, one retry, then the dead-letter queue. *)
Definition fragile_opts : QueueOpts.t :=
  {| QueueOpts.visibility := Some 5; QueueOpts.delay := None;
     QueueOpts.deadQueue := Some morgue; QueueOpts.maxRetries := Some 1 |}.

Definition fragile : Queue.t :=
  {| Queue.name := "fragile"; Queue.visibility := 5; Queue.delay := 0;
     Queue.deadQueue := Some morgue; Queue.maxRetries := Some 1 |}.

(** One message in [fragile], added at reading 0, claimed once at reading
    1 with a lease of five seconds, and left alone until reading 8. *)
Definition one_fragile_job : World :=
  idle 4 (snd (get 1 fragile noOpts
                 (snd (add fragile (VData "job") noOpts genesis)))).

Definition first_token : string := "01010101010101010101010101010101".

Definition second_token : string := "02020202020202020202020202020202".

(** What the next claim makes of the document of [one_fragile_job]. *)
Definition exhausted_doc : doc :=
  {| Doc._id := 1; Doc.visible := "1970-01-01T00:00:14.000Z";
     Doc.payload := VData "job";
     Doc.ack := Some second_token;
     Doc.tries := Some 2; Doc.firstClaimed := Some "1970-01-01T00:00:10.000Z";
     Doc.user := None; Doc.deleted := None |}.

(** [two_jobs] after one [get]: the first message is leased for thirty
    seconds under the token of the first draw. *)
Definition two_jobs_one_leased : World := snd (get 1 jobs noOpts two_jobs).

(** [one_quick_job] after one [get]: the message was leased until the
    third second. *)
Definition one_quick_lease : World := snd (get 1 quick noOpts one_quick_job).

Definition quick_doc : doc :=
  {| Doc._id := 1; Doc.visible := "1970-01-01T00:00:03.000Z";
     Doc.payload := VData "job";
     Doc.ack := Some first_token;
     Doc.tries := Some 1; Doc.firstClaimed := Some "1970-01-01T00:00:03.000Z";
     Doc.user := None; Doc.deleted := None |}.

(** A clock that shows seven seconds before the year 10000 at its first
    reading and advances two seconds between two readings. *)
Definition dusk_clock (n : nat) : Z := 253402300793000 + 2000 * Z.of_nat n.

Definition dusk : World :=
  {| clock := dusk_clock; entropy := counting_entropy;
     reads := 0; draws := 0; nextId := 1%N; db := ∅ |}.

(** One message in [quick], added and claimed once in the last seconds of
    the year 9999: its lease of one second ends two seconds before the
    year 10000, and the next reading of the clock lies in that year. *)
Definition lease_at_dusk : World :=
  snd (get 1 quick noOpts (snd (add quick (VData "job") noOpts dusk))).

(** [two_jobs] after a [get] that asked for a lease of 3e11 seconds. *)
Definition two_jobs_one_leased_for_ages : World :=
  snd (get 1 jobs (lease_of 300000000000) two_jobs).

(* ===================================================================== *)
(** ** Vocabulary of the counters *)
(* ===================================================================== *)

(** The queries of [total], [done], [size] and [inFlight]. *)
Definition total_query : query :=
  {| q_ack := None; q_visible := None; q_deleted := None |}.

Definition done_query : query :=
  {| q_ack := None; q_visible := None; q_deleted := Some true |}.

Definition inFlight_query (t : string) : query :=
  {| q_ack := Some (AckExists true); q_visible := Some (VisibleGt t);
     q_deleted := Some false |}.

(** How many documents of [l] match [q]. *)
Definition matching (q : query) (l : list doc) : nat :=
  length (filter (fun d => matches q d = true) l).

(** A document that is neither done, nor ready for a query with
    timestamp [t], nor in flight for it: its [visible] is neither below
    nor above [t], or it is above [t] and the document was never
    claimed. *)
Definition uncounted (t : string) (d : doc) : bool :=
  negb (present (Doc.deleted d))
  && ((negb (str_ltb (Doc.visible d) t) && negb (str_ltb t (Doc.visible d)))
      || (str_ltb t (Doc.visible d) && negb (present (Doc.ack d)))).

Fixpoint uncounted_count (t : string) (l : list doc) : nat :=
  match l with
  | [] => O
  | d :: l' => (if uncounted t d then 1 else 0) + uncounted_count t l'
  end.

(** [two_jobs_one_leased] after the lease was acknowledged. *)
Definition two_jobs_one_done : World :=
  snd (ack jobs (Some first_token) two_jobs_one_leased).

(** [two_jobs_one_leased] with the index built and a random source that
    starts over: the next draw repeats the token of the running lease. *)
Definition replayed : World :=
  {| clock := clock two_jobs_one_leased; entropy := entropy two_jobs_one_leased;
     reads := reads two_jobs_one_leased; draws := 0;
     nextId := nextId two_jobs_one_leased;
     db := db (snd (createIndexes jobs two_jobs_one_leased)) |}.

(** A request for a lease of minus one second. *)
Definition backdated : Opts.t := lease_of (-1).

(** A request for a lease of one minute. *)
Definition patient : Opts.t := lease_of 60.

(** What the constructor is given, and builds, for a queue with a
    dead-letter queue and [maxRetries: 0]. *)
Definition strict_opts : QueueOpts.t :=
  {| QueueOpts.visibility := None; QueueOpts.delay := None;
     QueueOpts.deadQueue := Some morgue; QueueOpts.maxRetries := Some 0 |}.

Definition strict : Queue.t :=
  {| Queue.name := "strict"; Queue.visibility := 30; Queue.delay := 0;
     Queue.deadQueue := Some morgue; Queue.maxRetries := Some 5 |}.

Definition one_strict_job : World :=
  snd (add strict (VData "job") noOpts genesis).

(** Two messages in [fragile]; the first was claimed once at reading 2
    with a lease of five seconds and left alone until reading 9. *)
Definition two_fragile_jobs : World :=
  idle 4 (snd (get 1 fragile noOpts
                 (snd (add fragile (VData "next") noOpts
                         (snd (add fragile (VData "job") noOpts genesis)))))).

(** Leases of one second, one retry, then the dead-letter queue. *)
Definition brittle_opts : QueueOpts.t :=
  {| QueueOpts.visibility := Some 1; QueueOpts.delay := None;
     QueueOpts.deadQueue := Some morgue; QueueOpts.maxRetries := Some 1 |}.

Definition brittle : Queue.t :=
  {| Queue.name := "brittle"; Queue.visibility := 1; Queue.delay := 0;
     Queue.deadQueue := Some morgue; Queue.maxRetries := Some 1 |}.

(** One message in [brittle], claimed once at reading 1 with a lease
    until the third second. *)
Definition one_brittle_job : World :=
  snd (get 1 brittle noOpts (snd (add brittle (VData "job") noOpts genesis))).

Definition third_token : string := "03030303030303030303030303030303".

(** The first document of [two_jobs_one_leased]. *)
Definition leased_a : doc :=
  claimed (fresh_doc 1 "1970-01-01T00:00:00.000Z" (VData "a")) first_token
    "1970-01-01T00:00:33.000Z" "1970-01-01T00:00:04.000Z".

(** The first document of [two_fragile_jobs] after a claim with
    [patient], and the second one after the claim that follows the
    hand-off. *)
Definition handed_off : doc :=
  {| Doc._id := 1; Doc.visible := "1970-01-01T00:01:10.000Z";
     Doc.payload := VData "job";
     Doc.ack := Some second_token;
     Doc.tries := Some 2; Doc.firstClaimed := Some "1970-01-01T00:00:11.000Z";
     Doc.user := None; Doc.deleted := None |}.

Definition next_claimed : doc :=
  {| Doc._id := 2; Doc.visible := "1970-01-01T00:00:21.000Z";
     Doc.payload := VData "next";
     Doc.ack := Some third_token;
     Doc.tries := Some 1; Doc.firstClaimed := Some "1970-01-01T00:00:17.000Z";
     Doc.user := None; Doc.deleted := None |}.

(* ===================================================================== *)
(** ** Vocabulary of the calendar *)
(* ===================================================================== *)

(** Year, month and day of the day [z] days after 1970-01-01. *)
Definition civil_year (z : Z) : Z := fst (fst (civil z)).

Definition civil_month (z : Z) : Z := snd (fst (civil z)).

Definition civil_day (z : Z) : Z := snd (civil z).

(** The year that begins on March 1 in which day [z] lies, and the
    number of the day in that year. *)
Definition march_year (z : Z) : Z :=
  let s := z + 719468 in
  let doe := s mod 146097 in
  let a := Z.min (doe / 36524) 3 in
  let r1 := doe - a * 36524 in
  let c := Z.min (r1 mod 1461 / 365) 3 in
  s / 146097 * 400 + a * 100 + r1 / 1461 * 4 + c.

Definition march_day (z : Z) : Z :=
  let s := z + 719468 in
  let doe := s mod 146097 in
  let a := Z.min (doe / 36524) 3 in
  let r1 := doe - a * 36524 in
  let r2 := r1 mod 1461 in
  r2 - Z.min (r2 / 365) 3 * 365.

(** Day [z] is day [doy] of the March year [ym]: the days since
    0000-03-01 split into 400-year cycles, centuries, 4-year cycles,
    years and the rest, each part within its bounds. *)
Definition parts (z ym doy : Z) : Prop :=
  exists e a b c : Z,
    z + 719468 = 146097 * e + 36524 * a + 1461 * b + 365 * c + doy /\
    ym = 400 * e + 100 * a + 4 * b + c /\
    0 <= a <= 3 /\ 0 <= b <= 24 /\ 0 <= c <= 3 /\ 0 <= doy <= 365 /\
    36524 * a + 1461 * b + 365 * c + doy < 146097 /\
    (a < 3 -> 1461 * b + 365 * c + doy < 36524) /\
    365 * c + doy < 1461 /\
    (c < 3 -> doy < 365).

(** Comparing two rows of numbers from the left: the first pair that
    differs decides, and [rest] decides when none does. *)
Fixpoint chain (l : list (Z * Z)) (rest : bool) : bool :=
  match l with
  | [] => rest
  | (x, y) :: l' => if x <? y then true else if y <? x then false else chain l' rest
  end.

(* ===================================================================== *)
(** ** The order of timestamps *)
(* ===================================================================== *)

(** Closes a goal about an example world by evaluating it. *)
Ltac by_evaluation :=
  vm_compute; repeat constructor; try (intros H; discriminate H).

Lemma nat_of_digit d : 0 <= d <= 9 -> nat_of_ascii (digit d) = (48 + Z.to_nat d)%nat.
Proof.
  intros H. unfold digit. apply nat_ascii_embedding. lia.
Qed.

Lemma pow10_pos k : 0 < pow10 k.
Proof. induction k; cbn [pow10]; lia. Qed.

Lemma str_ltb_same c r1 r2 : str_ltb (String c r1) (String c r2) = str_ltb r1 r2.
Proof.
  cbn [str_ltb]. rewrite Nat.ltb_irrefl. reflexivity.
Qed.

Lemma str_ltb_sep (p r1 r2 : string) :
  str_ltb (p +:+ r1) (p +:+ r2) = str_ltb r1 r2.
Proof.
  induction p as [|c p IH]; [reflexivity|].
  change (str_ltb (String c (p +:+ r1)) (String c (p +:+ r2)) = str_ltb r1 r2).
  rewrite str_ltb_same. exact IH.
Qed.

Lemma str_ltb_irrefl s : str_ltb s s = false.
Proof.
  induction s as [|c s IH]; [reflexivity|]. rewrite str_ltb_same. exact IH.
Qed.

Lemma str_ltb_asym s1 : forall s2, str_ltb s1 s2 = true -> str_ltb s2 s1 = false.
Proof.
  induction s1 as [|c1 s1 IH]; intros [|c2 s2]; cbn [str_ltb]; try congruence.
  destruct (Nat.ltb_spec (nat_of_ascii c1) (nat_of_ascii c2)),
           (Nat.ltb_spec (nat_of_ascii c2) (nat_of_ascii c1)); try lia; try congruence.
  apply IH.
Qed.

(** Numbers padded to the same width compare as numbers. *)
Lemma pad_ltb k : forall n1 n2 r1 r2,
  0 <= n1 < pow10 k -> 0 <= n2 < pow10 k ->
  str_ltb (pad k n1 +:+ r1) (pad k n2 +:+ r2) =
  chain [(n1, n2)] (str_ltb r1 r2).
Proof.
  induction k as [|k IH]; intros n1 n2 r1 r2 H1 H2; cbn [pow10] in H1, H2.
  - cbn [pad chain]. replace n1 with 0 by lia. replace n2 with 0 by lia. reflexivity.
  - pose proof (pow10_pos k) as Hp.
    cbn [pad].
    change (String ?c ?s +:+ ?r) with (String c (s +:+ r)).
    cbn [str_ltb].
    pose proof (Z.div_mod n1 (pow10 k) ltac:(lia)) as E1.
    pose proof (Z.div_mod n2 (pow10 k) ltac:(lia)) as E2.
    pose proof (Z.mod_pos_bound n1 (pow10 k) Hp) as B1.
    pose proof (Z.mod_pos_bound n2 (pow10 k) Hp) as B2.
    assert (D1 : 0 <= n1 / pow10 k <= 9).
    { split; [apply Z.div_pos; lia|]. apply Z.lt_succ_r. apply Z.div_lt_upper_bound; lia. }
    assert (D2 : 0 <= n2 / pow10 k <= 9).
    { split; [apply Z.div_pos; lia|]. apply Z.lt_succ_r. apply Z.div_lt_upper_bound; lia. }
    rewrite !nat_of_digit by assumption.
    rewrite (IH _ _ r1 r2 B1 B2). cbn [chain].
    set (q1 := n1 / pow10 k) in *. set (q2 := n2 / pow10 k) in *.
    set (m1 := n1 mod pow10 k) in *. set (m2 := n2 mod pow10 k) in *.
    destruct (Nat.ltb_spec (48 + Z.to_nat q1) (48 + Z.to_nat q2)) as [L|L].
    + assert (n1 < n2) by nia. destruct (Z.ltb_spec n1 n2); [reflexivity|lia].
    + destruct (Nat.ltb_spec (48 + Z.to_nat q2) (48 + Z.to_nat q1)) as [L'|L'].
      * assert (n2 < n1) by nia.
        destruct (Z.ltb_spec n1 n2); [lia|]. destruct (Z.ltb_spec n2 n1); [reflexivity|lia].
      * assert (q1 = q2) by lia.
        assert (Hm : (m1 <? m2) = (n1 <? n2)).
        { destruct (Z.ltb_spec m1 m2), (Z.ltb_spec n1 n2); try reflexivity; nia. }
        assert (Hm' : (m2 <? m1) = (n2 <? n1)).
        { destruct (Z.ltb_spec m2 m1), (Z.ltb_spec n2 n1); try reflexivity; nia. }
        rewrite Hm, Hm'. reflexivity.
Qed.

Lemma civil_march z :
  civil z =
  let mp := (5 * march_day z + 2) / 153 in
  let m := if mp <? 10 then mp + 3 else mp - 9 in
  (if m <=? 2 then march_year z + 1 else march_year z, m,
   march_day z - (153 * mp + 2) / 5 + 1).
Proof. reflexivity. Qed.

Lemma march_parts z : parts z (march_year z) (march_day z).
Proof.
  unfold march_year, march_day.
  set (s := z + 719468).
  set (doe := s mod 146097).
  set (a := Z.min (doe / 36524) 3).
  set (r1 := doe - a * 36524).
  set (r2 := r1 mod 1461).
  set (c := Z.min (r2 / 365) 3).
  assert (Hdoe : 0 <= doe < 146097) by (apply Z.mod_pos_bound; lia).
  assert (Hs : s = 146097 * (s / 146097) + doe) by (apply Z.div_mod; lia).
  assert (Ha : 0 <= a <= 3 /\ 0 <= r1 /\ (a < 3 -> r1 < 36524) /\ r1 <= 36524).
  { unfold r1, a. pose proof (Z.div_mod doe 36524 ltac:(lia)).
    pose proof (Z.mod_pos_bound doe 36524 ltac:(lia)).
    assert (0 <= doe / 36524 <= 4).
    { split; [apply Z.div_pos; lia|]. apply Z.lt_succ_r, Z.div_lt_upper_bound; lia. }
    lia. }
  assert (Hr2 : 0 <= r2 < 1461) by (apply Z.mod_pos_bound; lia).
  assert (Hr1 : r1 = 1461 * (r1 / 1461) + r2) by (apply Z.div_mod; lia).
  assert (Hb : 0 <= r1 / 1461 <= 24).
  { split; [apply Z.div_pos; lia|]. apply Z.lt_succ_r, Z.div_lt_upper_bound; lia. }
  assert (Hc : 0 <= c <= 3 /\ 0 <= r2 - c * 365 /\ (c < 3 -> r2 - c * 365 < 365)
               /\ r2 - c * 365 <= 365).
  { unfold c. pose proof (Z.div_mod r2 365 ltac:(lia)).
    pose proof (Z.mod_pos_bound r2 365 ltac:(lia)).
    assert (0 <= r2 / 365 <= 4).
    { split; [apply Z.div_pos; lia|]. apply Z.lt_succ_r, Z.div_lt_upper_bound; lia. }
    lia. }
  exists (s / 146097), a, (r1 / 1461), c.
  unfold r1 in *. fold s. lia.
Qed.

(** A later day lies in a later March year, or later in the same one. *)
Lemma march_mono z1 z2 :
  z1 < z2 ->
  march_year z1 < march_year z2 \/
  (march_year z1 = march_year z2 /\ march_day z1 < march_day z2).
Proof.
  intros H.
  destruct (march_parts z1)
    as (e1 & a1 & b1 & c1 & S1 & Y1 & A1 & B1 & C1 & D1 & E1 & F1 & G1 & H1).
  destruct (march_parts z2)
    as (e2 & a2 & b2 & c2 & S2 & Y2 & A2 & B2 & C2 & D2 & E2 & F2 & G2 & H2).
  lia.
Qed.

Lemma march_day_bound z : 0 <= march_day z <= 365.
Proof.
  destruct (march_parts z) as (e & a & b & c & _ & _ & _ & _ & _ & D & _). exact D.
Qed.

Lemma civil_bounds z : 1 <= civil_month z <= 12 /\ 1 <= civil_day z <= 31.
Proof.
  unfold civil_month, civil_day. rewrite civil_march. cbn [fst snd].
  pose proof (march_day_bound z) as D.
  set (doy := march_day z) in *.
  pose proof (Z.div_mod (5 * doy + 2) 153 ltac:(lia)).
  pose proof (Z.mod_pos_bound (5 * doy + 2) 153 ltac:(lia)).
  set (mp := (5 * doy + 2) / 153) in *.
  pose proof (Z.div_mod (153 * mp + 2) 5 ltac:(lia)).
  pose proof (Z.mod_pos_bound (153 * mp + 2) 5 ltac:(lia)).
  destruct (Z.ltb_spec mp 10); lia.
Qed.

(** A later day has a later date. *)
Lemma civil_mono z1 z2 :
  z1 < z2 ->
  civil_year z1 < civil_year z2 \/
  (civil_year z1 = civil_year z2 /\
   (civil_month z1 < civil_month z2 \/
    (civil_month z1 = civil_month z2 /\ civil_day z1 < civil_day z2))).
Proof.
  intros H. unfold civil_year, civil_month, civil_day. rewrite !civil_march. cbn [fst snd].
  pose proof (march_mono z1 z2 H) as M.
  pose proof (march_day_bound z1) as D1. pose proof (march_day_bound z2) as D2.
  set (y1 := march_year z1) in *. set (y2 := march_year z2) in *.
  set (doy1 := march_day z1) in *. set (doy2 := march_day z2) in *.
  pose proof (Z.div_mod (5 * doy1 + 2) 153 ltac:(lia)).
  pose proof (Z.mod_pos_bound (5 * doy1 + 2) 153 ltac:(lia)).
  pose proof (Z.div_mod (5 * doy2 + 2) 153 ltac:(lia)).
  pose proof (Z.mod_pos_bound (5 * doy2 + 2) 153 ltac:(lia)).
  set (mp1 := (5 * doy1 + 2) / 153) in *. set (mp2 := (5 * doy2 + 2) / 153) in *.
  pose proof (Z.div_mod (153 * mp1 + 2) 5 ltac:(lia)).
  pose proof (Z.mod_pos_bound (153 * mp1 + 2) 5 ltac:(lia)).
  pose proof (Z.div_mod (153 * mp2 + 2) 5 ltac:(lia)).
  pose proof (Z.mod_pos_bound (153 * mp2 + 2) 5 ltac:(lia)).
  destruct (Z.ltb_spec mp1 10), (Z.ltb_spec mp2 10);
    repeat match goal with |- context [?a <=? 2] => destruct (Z.leb_spec a 2) end; lia.
Qed.

Lemma civil_year_four_digit z :
  -719528 <= z < 2932897 -> 0 <= civil_year z <= 9999.
Proof.
  intros [L U].
  pose proof (civil_bounds z) as B.
  assert (E0 : civil_year (-719528) = 0 /\ civil_month (-719528) = 1 /\ civil_day (-719528) = 1)
    by (vm_compute; auto).
  assert (E1 : civil_year 2932897 = 10000 /\ civil_month 2932897 = 1 /\ civil_day 2932897 = 1)
    by (vm_compute; auto).
  pose proof (civil_mono z 2932897 U) as M1.
  destruct (Z.eq_dec z (-719528)) as [->|N]; [lia|].
  pose proof (civil_mono (-719528) z ltac:(lia)) as M0.
  lia.
Qed.

Lemma civil_year_late z : 2932897 <= z -> 10000 <= civil_year z.
Proof.
  intros L.
  assert (E1 : civil_year 2932897 = 10000) by (vm_compute; auto).
  destruct (Z.eq_dec z 2932897) as [->|N]; [lia|].
  pose proof (civil_mono 2932897 z ltac:(lia)) as M0. lia.
Qed.

(** Two timestamps with four-digit years compare field by field. *)
Lemma iso_fields a b :
  0 <= civil_year (a / 86400000) <= 9999 ->
  0 <= civil_year (b / 86400000) <= 9999 ->
  let ra := a mod 86400000 in
  let rb := b mod 86400000 in
  str_ltb (iso a) (iso b) =
  chain [(civil_year (a / 86400000), civil_year (b / 86400000));
         (civil_month (a / 86400000), civil_month (b / 86400000));
         (civil_day (a / 86400000), civil_day (b / 86400000));
         (ra / 3600000, rb / 3600000);
         (ra / 60000 mod 60, rb / 60000 mod 60);
         (ra / 1000 mod 60, rb / 1000 mod 60);
         (ra mod 1000, rb mod 1000)] false.
Proof.
  intros Ya Yb ra rb.
  pose proof (civil_bounds (a / 86400000)) as [Ma Da].
  pose proof (civil_bounds (b / 86400000)) as [Mb Db].
  assert (Ha : 0 <= ra < 86400000) by (apply Z.mod_pos_bound; lia).
  assert (Hb : 0 <= rb < 86400000) by (apply Z.mod_pos_bound; lia).
  unfold iso. fold ra rb.
  unfold civil_year, civil_month, civil_day in *.
  destruct (civil (a / 86400000)) as [[ya ma] da].
  destruct (civil (b / 86400000)) as [[yb mb] db].
  cbn [fst snd] in *.
  unfold year_string.
  replace ((0 <=? ya) && (ya <=? 9999)) with true by (symmetry; apply andb_true_intro; split; lia).
  replace ((0 <=? yb) && (yb <=? 9999)) with true by (symmetry; apply andb_true_intro; split; lia).
  assert (P2 : pow10 2 = 100) by reflexivity.
  assert (P3 : pow10 3 = 1000) by reflexivity.
  assert (P4 : pow10 4 = 10000) by reflexivity.
  assert (Hh : forall r, 0 <= r < 86400000 -> 0 <= r / 3600000 < 100).
  { intros r Hr. split; [apply Z.div_pos; lia|]. apply Z.div_lt_upper_bound; lia. }
  assert (H60 : forall x, 0 <= x mod 60 < 100).
  { intros x. pose proof (Z.mod_pos_bound x 60 ltac:(lia)). lia. }
  assert (H1000 : forall x, 0 <= x mod 1000 < 1000).
  { intros x. apply Z.mod_pos_bound. lia. }
  rewrite pad_ltb by (rewrite P4; lia). cbn [chain].
  rewrite str_ltb_sep.
  rewrite pad_ltb by (rewrite P2; lia). cbn [chain].
  rewrite str_ltb_sep.
  rewrite pad_ltb by (rewrite P2; lia). cbn [chain].
  rewrite str_ltb_sep.
  rewrite pad_ltb by (rewrite P2; auto). cbn [chain].
  rewrite str_ltb_sep.
  rewrite pad_ltb by (rewrite P2; auto). cbn [chain].
  rewrite str_ltb_sep.
  rewrite pad_ltb by (rewrite P2; auto). cbn [chain].
  rewrite str_ltb_sep.
  rewrite pad_ltb by (rewrite P3; auto). cbn [chain].
  reflexivity.
Qed.

Lemma four_digit_civil t :
  four_digit_year t -> 0 <= civil_year (t / 86400000) <= 9999.
Proof.
  intros [L U]. apply civil_year_four_digit.
  pose proof (Z.div_mod t 86400000 ltac:(lia)).
  pose proof (Z.mod_pos_bound t 86400000 ltac:(lia)).
  lia.
Qed.

Lemma four_digit_valid t : four_digit_year t -> valid_time t = true.
Proof.
  intros [L U]. unfold valid_time. apply andb_true_intro. split; lia.
Qed.

Lemma iso_lt a b :
  four_digit_year a -> four_digit_year b -> a < b -> str_ltb (iso a) (iso b) = true.
Proof.
  intros Fa Fb H.
  rewrite iso_fields by (apply four_digit_civil; assumption).
  pose proof (Z.div_mod a 86400000 ltac:(lia)) as Ea.
  pose proof (Z.mod_pos_bound a 86400000 ltac:(lia)) as Ba.
  pose proof (Z.div_mod b 86400000 ltac:(lia)) as Eb.
  pose proof (Z.mod_pos_bound b 86400000 ltac:(lia)) as Bb.
  set (ra := a mod 86400000) in *. set (rb := b mod 86400000) in *.
  set (za := a / 86400000) in *. set (zb := b / 86400000) in *.
  assert (Hz : za < zb \/ (za = zb /\ ra < rb)) by lia.
  cbv zeta.
  destruct Hz as [Hz|[Hz Hr]].
  - pose proof (civil_mono za zb Hz) as M. cbn [chain].
    repeat match goal with
    | |- context [?x <? ?y] => destruct (Z.ltb_spec x y); try reflexivity; try lia
    end.
  - rewrite Hz. cbn [chain]. rewrite !Z.ltb_irrefl.
    pose proof (Z.div_mod ra 3600000 ltac:(lia)).
    pose proof (Z.mod_pos_bound ra 3600000 ltac:(lia)).
    pose proof (Z.div_mod rb 3600000 ltac:(lia)).
    pose proof (Z.mod_pos_bound rb 3600000 ltac:(lia)).
    pose proof (Z.div_mod ra 60000 ltac:(lia)).
    pose proof (Z.mod_pos_bound ra 60000 ltac:(lia)).
    pose proof (Z.div_mod rb 60000 ltac:(lia)).
    pose proof (Z.mod_pos_bound rb 60000 ltac:(lia)).
    pose proof (Z.div_mod ra 1000 ltac:(lia)).
    pose proof (Z.mod_pos_bound ra 1000 ltac:(lia)).
    pose proof (Z.div_mod rb 1000 ltac:(lia)).
    pose proof (Z.mod_pos_bound rb 1000 ltac:(lia)).
    pose proof (Z.div_mod (ra / 60000) 60 ltac:(lia)).
    pose proof (Z.mod_pos_bound (ra / 60000) 60 ltac:(lia)).
    pose proof (Z.div_mod (rb / 60000) 60 ltac:(lia)).
    pose proof (Z.mod_pos_bound (rb / 60000) 60 ltac:(lia)).
    pose proof (Z.div_mod (ra / 1000) 60 ltac:(lia)).
    pose proof (Z.mod_pos_bound (ra / 1000) 60 ltac:(lia)).
    pose proof (Z.div_mod (rb / 1000) 60 ltac:(lia)).
    pose proof (Z.mod_pos_bound (rb / 1000) 60 ltac:(lia)).
    repeat match goal with
    | |- context [?x <? ?y] => destruct (Z.ltb_spec x y); try reflexivity; try lia
    end.
Qed.

(** Within the years 0000 to 9999 the order of the timestamps is the
    order of the instants. *)
Lemma iso_order a b :
  four_digit_year a -> four_digit_year b -> str_ltb (iso a) (iso b) = (a <? b).
Proof.
  intros Fa Fb. destruct (Z.ltb_spec a b) as [H|H].
  - apply iso_lt; assumption.
  - destruct (Z.eq_dec a b) as [->|N].
    + apply str_ltb_irrefl.
    + apply str_ltb_asym. apply iso_lt; [assumption..|lia].
Qed.

Lemma iso_order_lt a b :
  four_digit_year a -> four_digit_year b ->
  str_ltb (iso a) (iso b) = true <-> a < b.
Proof. intros Fa Fb. rewrite iso_order by assumption. apply Z.ltb_lt. Qed.

(* ===================================================================== *)
(** ** Reading the store's queries *)
(* ===================================================================== *)

Lemma present_false {A} (o : option A) : present o = false <-> o = None.
Proof. destruct o; simpl; split; congruence. Qed.

Lemma matches_get_query (t : string) (d : doc) :
  matches (get_query t) d = true <-> eligible t d.
Proof.
  unfold matches, get_query, eligible; simpl.
  rewrite andb_true_iff.
  destruct (Doc.deleted d); simpl; intuition congruence.
Qed.

Lemma matches_lease_query (a : option string) (t : string) (d : doc) :
  matches (lease_query a t) d = true
  <-> Doc.ack d = a /\ str_ltb t (Doc.visible d) = true /\ Doc.deleted d = None.
Proof.
  unfold matches, lease_query; simpl.
  rewrite !andb_true_iff, bool_decide_eq_true.
  destruct (Doc.deleted d); simpl; intuition congruence.
Qed.

(** Among the documents of a list that match, one has the least [_id]. *)
Lemma least_match (q : query) (l : list doc) (d0 : doc) :
  d0 ∈ l -> matches q d0 = true ->
  exists d, d ∈ l /\ matches q d = true
    /\ forall d', d' ∈ l -> matches q d' = true -> (Doc._id d <= Doc._id d')%N.
Proof.
  revert d0. induction l as [|x l IH]; intros d0 Hin Hm.
  - inversion Hin.
  - destruct (existsb (matches q) l) eqn:Hex.
    + apply existsb_exists in Hex as [y [Hy Hmy]].
      apply list_elem_of_In in Hy.
      destruct (IH y Hy Hmy) as (d & Hd & Hmd & Hleast).
      destruct (matches q x) eqn:Hmx.
      * destruct (N.le_ge_cases (Doc._id x) (Doc._id d)) as [Hle|Hle].
        -- exists x. split; [left|]. split; [done|].
           intros d' Hd' Hmd'. apply elem_of_cons in Hd' as [->|Hd']; [lia|].
           specialize (Hleast d' Hd' Hmd'). lia.
        -- exists d. split; [by right|]. split; [done|].
           intros d' Hd' Hmd'. apply elem_of_cons in Hd' as [->|Hd']; [lia|].
           by apply Hleast.
      * exists d. split; [by right|]. split; [done|].
        intros d' Hd' Hmd'. apply elem_of_cons in Hd' as [->|Hd']; [congruence|].
        by apply Hleast.
    + assert (Hno : forall y, y ∈ l -> matches q y = false).
      { intros y Hy. apply list_elem_of_In in Hy.
        destruct (matches q y) eqn:E; [|done].
        assert (existsb (matches q) l = true) by (apply existsb_exists; eauto).
        congruence. }
      apply elem_of_cons in Hin as [->|Hin].
      * exists x. split; [left|]. split; [done|].
        intros d' Hd' Hmd'. apply elem_of_cons in Hd' as [->|Hd']; [lia|].
        rewrite (Hno d' Hd') in Hmd'. discriminate.
      * rewrite (Hno d0 Hin) in Hm. discriminate.
Qed.

Lemma selects_spec (q : query) (sorted : bool) (l : list doc) (d : doc) :
  selects q sorted l d = true
  <-> matches q d = true
      /\ (sorted = true ->
          forall d', d' ∈ l -> matches q d' = true -> (Doc._id d <= Doc._id d')%N).
Proof.
  unfold selects. rewrite andb_true_iff, orb_true_iff, negb_true_iff, forallb_forall.
  split.
  - intros [Hm Hs]. split; [done|]. intros -> d' Hd' Hmd'.
    destruct Hs as [Hs|Hs]; [discriminate|].
    apply list_elem_of_In in Hd'. specialize (Hs d' Hd').
    rewrite Hmd' in Hs. simpl in Hs. by apply N.leb_le.
  - intros [Hm Hs]. split; [done|].
    destruct sorted; [right|by left].
    intros d' Hd'. apply list_elem_of_In in Hd'.
    destruct (matches q d') eqn:E; simpl; [|done].
    apply N.leb_le. by apply Hs.
Qed.

Lemma findOne_Some (q : query) (sorted : bool) (l : list doc) (i : nat) (d : doc) :
  findOne q sorted l = Some (i, d) ->
  l !! i = Some d /\ selects q sorted l d = true
  /\ forall j y, l !! j = Some y -> (j < i)%nat -> selects q sorted l y <> true.
Proof. unfold findOne. intros H. by apply list_find_Some in H. Qed.

Lemma findOne_None (q : query) (sorted : bool) (l : list doc) :
  findOne q sorted l = None <-> forall d, d ∈ l -> matches q d = false.
Proof.
  unfold findOne. rewrite list_find_None, Forall_forall. split.
  - intros H d Hd. destruct (matches q d) eqn:Hm; [|done]. exfalso.
    destruct (least_match q l d Hd Hm) as (m & Hin & Hmm & Hleast).
    apply (H m Hin). apply selects_spec. auto.
  - intros H d Hd Hs. apply selects_spec in Hs as [Hm _].
    rewrite (H d Hd) in Hm. discriminate.
Qed.

(** A matching document whose [_id] is below that of every other matching
    document is the one a sorted [findOne] picks. *)
Lemma findOne_least (q : query) (l : list doc) (i : nat) (d : doc) :
  l !! i = Some d -> matches q d = true ->
  (forall j d', l !! j = Some d' -> j <> i -> matches q d' = true ->
                (Doc._id d < Doc._id d')%N) ->
  findOne q true l = Some (i, d).
Proof.
  intros Hi Hm Hleast. unfold findOne. apply list_find_Some.
  split; [done|]. split.
  - apply selects_spec. split; [done|]. intros _ d' Hd' Hmd'.
    apply list_elem_of_lookup in Hd' as [j Hj].
    destruct (decide (j = i)) as [->|Hne].
    + rewrite Hi in Hj. injection Hj as <-. lia.
    + specialize (Hleast j d' Hj Hne Hmd'). lia.
  - intros j y Hj Hlt Hs. apply selects_spec in Hs as [Hmy Hs].
    assert (Hne : j <> i) by lia.
    specialize (Hleast j y Hj Hne Hmy).
    assert (Hd : d ∈ l) by (apply list_elem_of_lookup; eauto).
    specialize (Hs eq_refl d Hd Hm). lia.
Qed.

(** The first matching document is the one an unsorted [findOne] picks. *)
Lemma findOne_first (q : query) (l : list doc) (i : nat) (d : doc) :
  l !! i = Some d -> matches q d = true ->
  (forall j d', l !! j = Some d' -> (j < i)%nat -> matches q d' = false) ->
  findOne q false l = Some (i, d).
Proof.
  intros Hi Hm Hfirst. unfold findOne. apply list_find_Some.
  split; [done|]. split.
  - apply selects_spec. split; [done|]. discriminate.
  - intros j y Hj Hlt Hs. apply selects_spec in Hs as [Hmy _].
    rewrite (Hfirst j y Hj Hlt) in Hmy. discriminate.
Qed.

(* ===================================================================== *)
(** ** Reading and writing collections *)
(* ===================================================================== *)

Lemma collection_set_eq (name : string) (c : Collection) (w : World) :
  collection name (set_collection name c w) = c.
Proof.
  unfold collection, set_collection. cbn [db].
  by rewrite lookup_insert_eq.
Qed.

Lemma collection_set_ne (name name' : string) (c : Collection) (w : World) :
  name <> name' ->
  collection name' (set_collection name c w) = collection name' w.
Proof.
  intros Hne. unfold collection, set_collection. cbn [db].
  by rewrite lookup_insert_ne.
Qed.

Lemma docs_with_docs (name : string) (l : list doc) (w : World) :
  docs (collection name (with_docs name l w)) = l.
Proof. unfold with_docs. by rewrite collection_set_eq. Qed.

Lemma ackUnique_with_docs (name : string) (l : list doc) (w : World) :
  ackUnique (collection name (with_docs name l w)) = ackUnique (collection name w).
Proof. unfold with_docs. by rewrite collection_set_eq. Qed.

Lemma collection_with_docs_ne (name name' : string) (l : list doc) (w : World) :
  name <> name' ->
  collection name' (with_docs name l w) = collection name' w.
Proof. intros Hne. unfold with_docs. by apply collection_set_ne. Qed.

(* ===================================================================== *)
(** ** The atomic step of [get] *)
(* ===================================================================== *)

Lemma claimed_is_update (d : doc) (a : string) (v f : string) :
  apply_update (get_update a v f None) d = claimed d a v f.
Proof. reflexivity. Qed.

Lemma nowPlusSecs_valid (secs : Z) (w : World) :
  valid_time (clock w (reads w) + secs * 1000) = true ->
  nowPlusSecs secs w = (Ok (iso (clock w (reads w) + secs * 1000)), tick w).
Proof. intros H. unfold nowPlusSecs, toISOString. by rewrite H. Qed.

Lemma nowPlusSecs_invalid (secs : Z) (w : World) :
  valid_time (clock w (reads w) + secs * 1000) = false ->
  nowPlusSecs secs w = (Err (RangeError "Invalid time value"), tick w).
Proof. intros H. unfold nowPlusSecs, toISOString. by rewrite H. Qed.

Lemma nowPlusSecs_db (secs : Z) (w : World) : db (snd (nowPlusSecs secs w)) = db w.
Proof. unfold nowPlusSecs, toISOString. by destruct (valid_time _). Qed.

Lemma claim_unfold (self : Queue.t) (opts : Opts.t) (w : World) :
  truthy_str (Opts.user opts) = false ->
  valid_time (lease_instant self opts w) = true ->
  claim self opts w =
    match findOne (get_query (claim_time w)) true
                  (docs (collection (Queue.name self) w)) with
    | None => (Ok None, after_claim_reads w)
    | Some (i, d) =>
        let d' := claimed d (token w) (lease_end self opts w) (claim_stamp w) in
        if ackUnique (collection (Queue.name self) w)
           && duplicate_ack (docs (collection (Queue.name self) w)) i
                (get_update (token w) (lease_end self opts w) (claim_stamp w) None)
        then (Err (MongoError "E11000 duplicate key error"), after_claim_reads w)
        else (Ok (Some d'),
              with_docs (Queue.name self)
                (<[i := d']> (docs (collection (Queue.name self) w)))
                (after_claim_reads w))
    end.
Proof.
  intros Hu Hv. unfold claim, bind, now, id. cbn [fst snd].
  rewrite nowPlusSecs_valid by exact Hv.
  unfold findOneAndUpdate. unfold get_update at 1. rewrite Hu. cbn [top_user].
  reflexivity.
Qed.

(** A lease that would end outside the range of [Date] makes [get] throw
    before it goes to the store. *)
Lemma claim_throws (self : Queue.t) (opts : Opts.t) (w : World) :
  valid_time (lease_instant self opts w) = false ->
  claim self opts w
  = (Err (RangeError "Invalid time value"), tick (draw (tick w))).
Proof.
  intros Hv. unfold claim, bind, now, id. cbn [fst snd].
  rewrite nowPlusSecs_invalid by exact Hv. reflexivity.
Qed.

Lemma fresh_no_duplicate (l : list doc) (i : nat) (a : string) (v f : string) :
  Forall (fun d => Doc.ack d <> Some a) l ->
  duplicate_ack l i (get_update a v f None) = false.
Proof.
  intros Hfresh. unfold duplicate_ack. cbn [set_ack get_update].
  destruct (existsb _ _) eqn:E; [|done]. exfalso.
  apply existsb_exists in E as [[j d] [Hin Hb]].
  apply list_elem_of_In, elem_of_lookup_imap in Hin as (k & x & Heq & Hk).
  injection Heq as -> ->.
  apply andb_true_iff in Hb as [_ Hb]. apply bool_decide_eq_true in Hb.
  rewrite Forall_forall in Hfresh.
  apply (Hfresh x); [|done]. apply list_elem_of_lookup. eauto.
Qed.

Lemma no_duplicate_ack (l : list doc) (i : nat) (a : string) (v f : string) :
  duplicate_ack l i (get_update a v f None) = false ->
  forall j x, l !! j = Some x -> j <> i -> Doc.ack x <> Some a.
Proof.
  unfold duplicate_ack. cbn [set_ack get_update]. intros Hno j x Hj Hne Hax.
  assert (Hex : existsb (fun jd => negb (fst jd =? i)%nat
                                   && bool_decide (Doc.ack (snd jd) = Some a))
                        (imap pair l) = true).
  { apply existsb_exists. exists (j, x). split.
    - apply list_elem_of_In, elem_of_lookup_imap. eauto.
    - cbn [fst snd]. apply andb_true_iff. split.
      + apply negb_true_iff. by apply Nat.eqb_neq.
      + by apply bool_decide_eq_true. }
  congruence.
Qed.

Lemma duplicate_ack_found (l : list doc) (i : nat) (a : string) (v f : string) :
  duplicate_ack l i (get_update a v f None) = true ->
  exists j x, j <> i /\ l !! j = Some x /\ Doc.ack x = Some a.
Proof.
  unfold duplicate_ack. cbn [set_ack get_update]. intros E.
  apply existsb_exists in E as [[j d] [Hin Hb]].
  apply list_elem_of_In, elem_of_lookup_imap in Hin as (k & x & Heq & Hk).
  injection Heq as -> ->.
  apply andb_true_iff in Hb as [Hne Hb]. apply bool_decide_eq_true in Hb.
  apply negb_true_iff, Nat.eqb_neq in Hne. cbn [fst snd] in *.
  exists k, x. auto.
Qed.

Lemma get_empty (fuel : nat) (self : Queue.t) (opts : Opts.t) (w w1 : World) :
  claim self opts w = (Ok None, w1) ->
  get (S fuel) self opts w = (Ok None, w1).
Proof. intros H. cbn [get]. unfold bind. rewrite H. reflexivity. Qed.

Lemma get_fails (fuel : nat) (self : Queue.t) (opts : Opts.t) (w w1 : World)
    (e : error) :
  claim self opts w = (Err e, w1) ->
  get (S fuel) self opts w = (Err e, w1).
Proof. intros H. cbn [get]. unfold bind. rewrite H. reflexivity. Qed.

Lemma get_delivers (fuel : nat) (self : Queue.t) (opts : Opts.t) (w w1 : World)
    (d : doc) :
  claim self opts w = (Ok (Some d), w1) ->
  dead_lettered self d = false ->
  get (S fuel) self opts w = (Ok (Some (message_of d)), w1).
Proof.
  intros H Hd. cbn [get]. unfold bind at 1. rewrite H.
  unfold dead_lettered in Hd. cbn [Msg.tries message_of].
  destruct (Queue.deadQueue self); [|reflexivity].
  rewrite Hd. reflexivity.
Qed.

Lemma get_hands_off (fuel : nat) (self dq : Queue.t) (opts : Opts.t)
    (w w1 : World) (d : doc) :
  claim self opts w = (Ok (Some d), w1) ->
  Queue.deadQueue self = Some dq ->
  js_gt (Doc.tries d) (Queue.maxRetries self) = true ->
  get (S fuel) self opts w =
    (let* _ := add dq (VMsg (message_of d)) noOpts in
     let* _ := ack self (Doc.ack d) in
     get fuel self noOpts) w1.
Proof.
  intros H Hdq Hgt. cbn [get]. unfold bind at 1. rewrite H, Hdq.
  cbn [Msg.tries Msg.ack message_of]. rewrite Hgt. reflexivity.
Qed.

(** With a claimant the update document has a key that is no operator,
    and the store refuses it. *)
Lemma claim_refused (self : Queue.t) (opts : Opts.t) (w : World) :
  truthy_str (Opts.user opts) = true ->
  valid_time (lease_instant self opts w) = true ->
  claim self opts w
  = (Err (MongoError "Unknown modifier: user"), after_claim_reads w).
Proof.
  intros Hu Hv. unfold claim, bind, now, id. cbn [fst snd].
  rewrite nowPlusSecs_valid by exact Hv.
  unfold findOneAndUpdate, get_update. rewrite Hu. cbn [top_user].
  destruct (Opts.user opts); [reflexivity|discriminate].
Qed.

(** Every successful step of [claim]: a document that is eligible is
    rewritten in place. *)
Lemma claim_Some_inv (self : Queue.t) (opts : Opts.t) (w w' : World) (d' : doc) :
  claim self opts w = (Ok (Some d'), w') ->
  exists (i : nat) (d : doc),
    docs (collection (Queue.name self) w) !! i = Some d
    /\ eligible (claim_time w) d
    /\ d' = claimed d (token w) (lease_end self opts w) (claim_stamp w)
    /\ w' = with_docs (Queue.name self)
              (<[i := d']> (docs (collection (Queue.name self) w)))
              (after_claim_reads w).
Proof.
  intros Hc. destruct (valid_time (lease_instant self opts w)) eqn:Hv.
  2:{ rewrite claim_throws in Hc by done. discriminate. }
  destruct (truthy_str (Opts.user opts)) eqn:Hu.
  - rewrite claim_refused in Hc by done. discriminate.
  - rewrite claim_unfold in Hc by done.
    destruct (findOne _ _ _) as [[i d]|] eqn:Hf; [|discriminate].
    cbn zeta in Hc. destruct (_ && _); [discriminate|].
    injection Hc as <- <-.
    apply findOne_Some in Hf as (Hi & Hs & _).
    apply selects_spec in Hs as [Hm _]. apply matches_get_query in Hm.
    exists i, d. auto.
Qed.

Lemma claim_Some_valid (self : Queue.t) (opts : Opts.t) (w w' : World) (d' : doc) :
  claim self opts w = (Ok (Some d'), w') ->
  valid_time (lease_instant self opts w) = true
  /\ truthy_str (Opts.user opts) = false.
Proof.
  intros Hc. destruct (valid_time (lease_instant self opts w)) eqn:Hv.
  2:{ rewrite claim_throws in Hc by done. discriminate. }
  destruct (truthy_str (Opts.user opts)) eqn:Hu; [|done].
  rewrite claim_refused in Hc by done. discriminate.
Qed.

Lemma claim_world (self : Queue.t) (opts : Opts.t) (w : World) :
  (exists d' , claim self opts w = (Ok (Some d'), snd (claim self opts w)))
  \/ db (snd (claim self opts w)) = db w.
Proof.
  destruct (valid_time (lease_instant self opts w)) eqn:Hv.
  2:{ right. by rewrite claim_throws. }
  destruct (truthy_str (Opts.user opts)) eqn:Hu.
  - right. by rewrite claim_refused.
  - rewrite claim_unfold by done.
    destruct (findOne _ _ _) as [[i d]|]; [|by right].
    cbn zeta. destruct (_ && _); [by right|]. left. eauto.
Qed.

Lemma token_accepted_no_duplicate (self : Queue.t) (w : World) (i : nat)
    (v f : string) :
  token_accepted self w ->
  ackUnique (collection (Queue.name self) w)
  && duplicate_ack (docs (collection (Queue.name self) w)) i
       (get_update (token w) v f None) = false.
Proof.
  intros [Hoff|Hfresh].
  - by rewrite Hoff.
  - by rewrite (fresh_no_duplicate _ i _ _ _ Hfresh), andb_false_r.
Qed.

(** One step of [claim] without a claimant, with a lease end in range
    and a token the store accepts: either nothing is eligible, or some
    document is claimed. *)
Lemma claim_or_nothing (self : Queue.t) (opts : Opts.t) (w : World) :
  truthy_str (Opts.user opts) = false ->
  valid_time (lease_instant self opts w) = true ->
  token_accepted self w ->
  Forall (fun d => ~ eligible (claim_time w) d)
         (docs (collection (Queue.name self) w))
  \/ exists (i : nat) (d : doc),
       claim self opts w
       = (Ok (Some (claimed d (token w) (lease_end self opts w) (claim_stamp w))),
          with_docs (Queue.name self)
            (<[i := claimed d (token w) (lease_end self opts w) (claim_stamp w)]>
               (docs (collection (Queue.name self) w)))
            (after_claim_reads w)).
Proof.
  intros Hu Hv Hfree. rewrite claim_unfold by done.
  destruct (findOne _ _ _) as [[i d]|] eqn:Hf.
  - right. exists i, d. cbn zeta.
    by rewrite (token_accepted_no_duplicate self w i _ _ Hfree).
  - left. apply Forall_forall. intros d Hd He.
    rewrite findOne_None in Hf. specialize (Hf d Hd).
    apply matches_get_query in He. congruence.
Qed.

(* ===================================================================== *)
(** ** [ack] and [ping] *)
(* ===================================================================== *)

Lemma ack_unfold (self : Queue.t) (a : option string) (w : World) :
  ack self a w =
    match findOne (lease_query a (claim_time w)) false
                  (docs (collection (Queue.name self) w)) with
    | None =>
        (Err (Error ("Queue.ack(): Unidentified ack : " +:+ js_str a)),
         tick (tick w))
    | Some (i, d) =>
        (Ok (toHexString (Doc._id d)),
         with_docs (Queue.name self)
           (<[i := finalized d (iso (clock w (S (reads w))))]>
              (docs (collection (Queue.name self) w)))
           (tick (tick w)))
    end.
Proof.
  unfold ack, bind, now, findOneAndUpdate. cbn [fst snd top_user].
  change (collection (Queue.name self) (tick (tick w)))
    with (collection (Queue.name self) w).
  change (reads (tick w)) with (S (reads w)).
  change (clock (tick w)) with (clock w).
  fold (claim_time w).
  destruct (findOne _ _ _) as [[i d]|]; [|reflexivity].
  unfold duplicate_ack. cbn [set_ack]. rewrite andb_false_r. reflexivity.
Qed.

Lemma ping_unfold (self : Queue.t) (a : option string) (opts : Opts.t) (w : World) :
  valid_time (ping_instant self opts w) = true ->
  ping self a opts w =
    match findOne (lease_query a (claim_time w)) false
                  (docs (collection (Queue.name self) w)) with
    | None =>
        (Err (Error ("Queue.ping(): Unidentified ack  : " +:+ js_str a)),
         tick (tick w))
    | Some (i, d) =>
        (Ok (toHexString (Doc._id d)),
         with_docs (Queue.name self)
           (<[i := renewed d (iso (ping_instant self opts w))]>
              (docs (collection (Queue.name self) w)))
           (tick (tick w)))
    end.
Proof.
  intros Hv. unfold ping, bind, now. cbn [fst snd].
  rewrite nowPlusSecs_valid by exact Hv.
  unfold findOneAndUpdate. cbn [fst snd top_user].
  change (collection (Queue.name self) (tick (tick w)))
    with (collection (Queue.name self) w).
  fold (claim_time w).
  destruct (findOne _ _ _) as [[i d]|]; [|reflexivity].
  unfold duplicate_ack. cbn [set_ack]. rewrite andb_false_r. reflexivity.
Qed.

(** A lease that would end outside the range of [Date] makes [ping]
    throw before it goes to the store. *)
Lemma ping_throws (self : Queue.t) (a : option string) (opts : Opts.t) (w : World) :
  valid_time (ping_instant self opts w) = false ->
  ping self a opts w = (Err (RangeError "Invalid time value"), tick (tick w)).
Proof.
  intros Hv. unfold ping, bind, now. cbn [fst snd].
  rewrite nowPlusSecs_invalid by exact Hv. reflexivity.
Qed.

Lemma holds_lease_matches (a : string) (t : string) (d : doc) :
  matches (lease_query (Some a) t) d = true <-> holds_lease a t d.
Proof. apply matches_lease_query. Qed.

Lemma no_lease_held (a : string) (t : string) (l : list doc) :
  findOne (lease_query (Some a) t) false l = None
  <-> Forall (fun d => ~ holds_lease a t d) l.
Proof.
  rewrite findOne_None, Forall_forall. split; intros H d Hd.
  - rewrite <- holds_lease_matches. rewrite (H d Hd). discriminate.
  - specialize (H d Hd). rewrite <- holds_lease_matches in H.
    by destruct (matches _ d).
Qed.

(* ===================================================================== *)
(** ** What no call undoes *)
(* ===================================================================== *)

Lemma doc_step_refl (d : doc) : doc_step d d.
Proof. unfold doc_step. repeat split; auto; lia. Qed.

Lemma doc_step_trans (d1 d2 d3 : doc) :
  doc_step d1 d2 -> doc_step d2 d3 -> doc_step d1 d3.
Proof.
  intros (Hi & Hp & Hu & Ht & Hd) (Hi' & Hp' & Hu' & Ht' & Hd').
  unfold doc_step. repeat split; try congruence; try lia.
  intros Hdel. specialize (Hd Hdel). subst d2. auto.
Qed.

Lemma doc_step_claimed (d : doc) (a : string) (v f : string) :
  Doc.deleted d = None -> doc_step d (claimed d a v f).
Proof.
  intros Hd. unfold doc_step, tries_of. cbn.
  repeat split; try (unfold tries_of; lia). congruence.
Qed.

Lemma doc_step_finalized (d : doc) (t : string) :
  Doc.deleted d = None -> doc_step d (finalized d t).
Proof.
  intros Hd. unfold doc_step, tries_of. cbn.
  repeat split; try (unfold tries_of; lia). congruence.
Qed.

Lemma doc_step_renewed (d : doc) (v : string) :
  Doc.deleted d = None -> doc_step d (renewed d v).
Proof.
  intros Hd. unfold doc_step, tries_of. cbn.
  repeat split; try (unfold tries_of; lia). congruence.
Qed.

Lemma evolves_refl (w : World) : evolves w w.
Proof. intros name i d H. exists d. split; [done|apply doc_step_refl]. Qed.

Lemma evolves_trans (w1 w2 w3 : World) :
  evolves w1 w2 -> evolves w2 w3 -> evolves w1 w3.
Proof.
  intros H12 H23 name i d H.
  destruct (H12 name i d H) as (d2 & H2 & Hs2).
  destruct (H23 name i d2 H2) as (d3 & H3 & Hs3).
  exists d3. split; [done|]. by apply doc_step_trans with d2.
Qed.

Lemma evolves_same_db (w w' : World) : db w' = db w -> evolves w w'.
Proof.
  intros Hdb name i d H. exists d. split; [|apply doc_step_refl].
  unfold collection in *. by rewrite Hdb.
Qed.

Lemma collection_same_db (name : string) (w w' : World) :
  db w' = db w -> collection name w' = collection name w.
Proof. intros Hdb. unfold collection. by rewrite Hdb. Qed.

(** Replacing one document by a later version of itself. *)
Lemma evolves_insert (name : string) (i : nat) (d d' : doc) (w w0 : World) :
  db w0 = db w ->
  docs (collection name w) !! i = Some d ->
  doc_step d d' ->
  evolves w (with_docs name (<[i := d']> (docs (collection name w))) w0).
Proof.
  intros Hdb Hi Hstep n j x Hj.
  destruct (decide (name = n)) as [<-|Hne].
  - rewrite docs_with_docs. destruct (decide (j = i)) as [->|Hji].
    + exists d'. rewrite list_lookup_insert_eq by (by apply lookup_lt_Some in Hi).
      split; [done|]. congruence.
    + exists x. rewrite list_lookup_insert_ne by done.
      split; [done|apply doc_step_refl].
  - exists x. rewrite collection_with_docs_ne by done.
    rewrite (collection_same_db n w w0 Hdb). split; [done|apply doc_step_refl].
Qed.

Lemma steady_ret {A} (a : A) : steady (ret a).
Proof. intros w. apply evolves_refl. Qed.

Lemma steady_fail {A} (e : error) : steady (@fail A e).
Proof. intros w. apply evolves_refl. Qed.

Lemma steady_bind {A B} (c : M A) (k : A -> M B) :
  steady c -> (forall a, steady (k a)) -> steady (bind c k).
Proof.
  intros Hc Hk w. unfold bind. specialize (Hc w).
  destruct (c w) as [[a|e|] w1]; cbn [snd] in *; [|done..].
  apply evolves_trans with w1; [done|apply Hk].
Qed.

Lemma steady_now : steady now.
Proof. intros w. by apply evolves_same_db. Qed.

Lemma steady_nowPlusSecs (secs : Z) : steady (nowPlusSecs secs).
Proof. intros w. apply evolves_same_db, nowPlusSecs_db. Qed.

Lemma steady_id : steady id.
Proof. intros w. by apply evolves_same_db. Qed.

Lemma insertOne_docs (name : string) (v : string) (p : value) (w : World) :
  docs (collection name (snd (insertOne name v p w)))
  = (docs (collection name w) ++ [fresh_doc (nextId w) v p])%list.
Proof.
  unfold insertOne. cbn [snd].
  unfold collection at 1. cbn [db set_collection].
  by rewrite lookup_insert_eq.
Qed.

Lemma insertOne_other (name name' : string) (v : string) (p : value) (w : World) :
  name <> name' ->
  collection name' (snd (insertOne name v p w)) = collection name' w.
Proof.
  intros Hne. unfold insertOne. cbn [snd].
  unfold collection at 1. cbn [db set_collection].
  by rewrite lookup_insert_ne.
Qed.

Lemma steady_insertOne (name : string) (v : string) (p : value) :
  steady (insertOne name v p).
Proof.
  intros w n i d Hi. exists d. split; [|apply doc_step_refl].
  destruct (decide (name = n)) as [<-|Hne].
  - rewrite insertOne_docs. by apply lookup_app_l_Some.
  - by rewrite insertOne_other.
Qed.

Lemma steady_add (self : Queue.t) (p : value) (opts : Opts.t) :
  steady (add self p opts).
Proof.
  unfold add. apply steady_bind.
  - destruct (truthy_num _); [apply steady_nowPlusSecs|apply steady_now].
  - intros v. apply steady_bind; [apply steady_insertOne|].
    intros o. apply steady_ret.
Qed.

Lemma steady_ack (self : Queue.t) (a : option string) : steady (ack self a).
Proof.
  intros w. rewrite ack_unfold.
  destruct (findOne _ _ _) as [[i d]|] eqn:Hf; cbn [snd].
  - apply findOne_Some in Hf as (Hi & Hs & _).
    apply selects_spec in Hs as [Hm _].
    apply matches_lease_query in Hm as (_ & _ & Hd).
    apply evolves_insert with d; [done|done|by apply doc_step_finalized].
  - by apply evolves_same_db.
Qed.

Lemma steady_ping (self : Queue.t) (a : option string) (opts : Opts.t) :
  steady (ping self a opts).
Proof.
  intros w. destruct (valid_time (ping_instant self opts w)) eqn:Hv.
  2:{ rewrite ping_throws by done. by apply evolves_same_db. }
  rewrite ping_unfold by done.
  destruct (findOne _ _ _) as [[i d]|] eqn:Hf; cbn [snd].
  - apply findOne_Some in Hf as (Hi & Hs & _).
    apply selects_spec in Hs as [Hm _].
    apply matches_lease_query in Hm as (_ & _ & Hd).
    apply evolves_insert with d; [done|done|by apply doc_step_renewed].
  - by apply evolves_same_db.
Qed.


Lemma steady_claim (self : Queue.t) (opts : Opts.t) : steady (claim self opts).
Proof.
  intros w. destruct (claim_world self opts w) as [[d' Hc]|Hw].
  - apply claim_Some_inv in Hc as (i & d & Hi & [_ Hdel] & -> & ->).
    apply evolves_insert with d; [done|done|by apply doc_step_claimed].
  - by apply evolves_same_db.
Qed.

Lemma steady_get (fuel : nat) (self : Queue.t) (opts : Opts.t) :
  steady (get fuel self opts).
Proof.
  revert opts. induction fuel as [|n IH]; intros opts.
  - intros w. apply evolves_refl.
  - cbn [get]. apply steady_bind; [apply steady_claim|].
    intros [d|]; [|apply steady_ret].
    destruct (Queue.deadQueue self) as [dq|]; [|apply steady_ret].
    destruct (js_gt _ _); [|apply steady_ret].
    apply steady_bind; [apply steady_add|]. intros _.
    apply steady_bind; [apply steady_ack|]. intros _. apply IH.
Qed.

Lemma steady_count (name : string) (q : query) : steady (count name q).
Proof. intros w. apply evolves_refl. Qed.

Lemma steady_total (self : Queue.t) : steady (total self).
Proof. apply steady_count. Qed.

Lemma steady_done (self : Queue.t) : steady (done self).
Proof. apply steady_count. Qed.

Lemma steady_size (self : Queue.t) : steady (size self).
Proof.
  unfold size. apply steady_bind; [apply steady_now|].
  intros t. apply steady_count.
Qed.

Lemma steady_inFlight (self : Queue.t) : steady (inFlight self).
Proof.
  unfold inFlight. apply steady_bind; [apply steady_now|].
  intros t. apply steady_count.
Qed.

Lemma createIndex_ack_docs (name n : string) (w : World) :
  docs (collection n (snd (createIndex_ack name w))) = docs (collection n w).
Proof.
  unfold createIndex_ack. destruct (has_duplicate_ack _); [done|].
  cbn [snd]. destruct (decide (name = n)) as [<-|Hne].
  - by rewrite collection_set_eq.
  - by rewrite collection_set_ne.
Qed.

Lemma steady_createIndexes (self : Queue.t) : steady (createIndexes self).
Proof.
  unfold createIndexes. apply steady_bind; [|intros; apply steady_ret].
  intros w n i d Hi. exists d. split; [|apply doc_step_refl].
  by rewrite createIndex_ack_docs.
Qed.

Lemma evolves_perform (w : World) (c : call) : evolves w (perform w c).
Proof.
  destruct c; cbn [perform].
  - apply steady_createIndexes.
  - apply steady_add.
  - apply steady_get.
  - apply steady_ping.
  - apply steady_ack.
  - apply steady_total.
  - apply steady_size.
  - apply steady_inFlight.
  - apply steady_done.
Qed.

Lemma evolves_calls (calls : list call) (w : World) :
  evolves w (foldl perform w calls).
Proof.
  revert w. induction calls as [|c calls IH]; intros w; cbn [foldl].
  - apply evolves_refl.
  - apply evolves_trans with (perform w c); [apply evolves_perform|apply IH].
Qed.

(* ===================================================================== *)
(** ** [add], and where delivered messages come from *)
(* ===================================================================== *)

(** [add] either stores a document, or throws because the delay leads
    out of the range of [Date]. *)
Lemma add_cases (self : Queue.t) (p : value) (opts : Opts.t) (w : World) :
  (add self p opts w
   = (Ok (toHexString (nextId w)),
      snd (insertOne (Queue.name self) (iso (add_instant self opts w)) p (tick w)))
   /\ (or_num (Opts.delay opts) (Queue.delay self) = 0
       \/ valid_time (add_instant self opts w) = true))
  \/
  (add self p opts w = (Err (RangeError "Invalid time value"), tick w)
   /\ or_num (Opts.delay opts) (Queue.delay self) <> 0
   /\ valid_time (add_instant self opts w) = false).
Proof.
  unfold add, bind, truthy_num, add_instant.
  destruct (or_num _ _ =? 0) eqn:E; cbn [negb].
  - apply Z.eqb_eq in E. left. rewrite E.
    replace (clock w (reads w) + 0 * 1000) with (clock w (reads w)) by lia.
    split; [reflexivity|by left].
  - apply Z.eqb_neq in E.
    destruct (valid_time (clock w (reads w)
                          + or_num (Opts.delay opts) (Queue.delay self) * 1000))
      eqn:Hv.
    + left. rewrite nowPlusSecs_valid by exact Hv. split; [reflexivity|by right].
    + right. rewrite nowPlusSecs_invalid by exact Hv. done.
Qed.

Lemma add_unfold (self : Queue.t) (p : value) (opts : Opts.t) (w : World) :
  valid_time (add_instant self opts w) = true ->
  add self p opts w
  = (Ok (toHexString (nextId w)),
     snd (insertOne (Queue.name self) (iso (add_instant self opts w)) p (tick w))).
Proof.
  intros Hv. destruct (add_cases self p opts w) as [[H _]|(_ & _ & H)];
    [exact H|congruence].
Qed.

Lemma add_throws (self : Queue.t) (p : value) (opts : Opts.t) (w : World) :
  or_num (Opts.delay opts) (Queue.delay self) <> 0 ->
  valid_time (add_instant self opts w) = false ->
  add self p opts w = (Err (RangeError "Invalid time value"), tick w).
Proof.
  intros Hnz Hv. destruct (add_cases self p opts w) as [[_ [H|H]]|(H & _)];
    [done|congruence|exact H].
Qed.

Lemma add_Ok_inv (self : Queue.t) (p : value) (opts : Opts.t) (w w' : World)
    (r : string) :
  add self p opts w = (Ok r, w') ->
  r = toHexString (nextId w)
  /\ w' = snd (insertOne (Queue.name self) (iso (add_instant self opts w)) p (tick w)).
Proof.
  intros H. destruct (add_cases self p opts w) as [[H' _]|(H' & _)];
    rewrite H' in H; [|discriminate].
  by injection H as <- <-.
Qed.

Lemma add_docs (self : Queue.t) (p : value) (opts : Opts.t) (w w' : World)
    (r : string) :
  add self p opts w = (Ok r, w') ->
  docs (collection (Queue.name self) w')
  = (docs (collection (Queue.name self) w)
     ++ [fresh_doc (nextId w) (iso (add_instant self opts w)) p])%list.
Proof.
  intros H. apply add_Ok_inv in H as [_ ->]. by rewrite insertOne_docs.
Qed.

Lemma add_other (self : Queue.t) (p : value) (opts : Opts.t) (w : World)
    (name : string) :
  Queue.name self <> name ->
  collection name (snd (add self p opts w)) = collection name w.
Proof.
  intros Hne. destruct (add_cases self p opts w) as [[H _]|(H & _)]; rewrite H;
    cbn [snd]; [by rewrite insertOne_other|reflexivity].
Qed.

Lemma add_reads (self : Queue.t) (p : value) (opts : Opts.t) (w : World) :
  reads (snd (add self p opts w)) = S (reads w)
  /\ clock (snd (add self p opts w)) = clock w.
Proof.
  destruct (add_cases self p opts w) as [[H _]|(H & _)]; rewrite H;
    split; reflexivity.
Qed.

Lemma add_not_OutOfFuel (self : Queue.t) (p : value) (opts : Opts.t) (w : World) :
  fst (add self p opts w) <> OutOfFuel.
Proof.
  destruct (add_cases self p opts w) as [[H _]|(H & _)]; rewrite H; done.
Qed.

Lemma add_lookup_lt (self : Queue.t) (p : value) (opts : Opts.t) (w : World)
    (name : string) (j : nat) :
  (j < length (docs (collection name w)))%nat ->
  docs (collection name (snd (add self p opts w))) !! j
  = docs (collection name w) !! j.
Proof.
  intros Hlt. destruct (decide (Queue.name self = name)) as [<-|Hne].
  - destruct (add_cases self p opts w) as [[H _]|(H & _)]; rewrite H; cbn [snd];
      [|reflexivity].
    rewrite insertOne_docs. by apply lookup_app_l.
  - by rewrite add_other.
Qed.

Lemma dead_lettered_spec (self dq : Queue.t) (R : Z) (d : doc) :
  Queue.deadQueue self = Some dq ->
  Queue.maxRetries self = Some R ->
  is_Some (Doc.tries d) ->
  (dead_lettered self d = true <-> R < tries_of d)
  /\ (js_gt (Doc.tries d) (Queue.maxRetries self) = true <-> R < tries_of d).
Proof.
  intros Hdq HR [k Hk]. unfold dead_lettered, tries_of, js_gt.
  rewrite Hdq, HR, Hk. cbn. rewrite Z.ltb_lt. tauto.
Qed.

(** A message that [get] hands to the caller is the result of one step of
    [claim], taken in a world that comes after the world of the call, on
    which the dead-letter policy did not apply. *)
Lemma get_Some_inv (fuel : nat) (self : Queue.t) (opts : Opts.t) (w w' : World)
    (m : message) :
  get fuel self opts w = (Ok (Some m), w') ->
  exists (w0 : World) (opts0 : Opts.t) (d' : doc),
    evolves w w0
    /\ claim self opts0 w0 = (Ok (Some d'), w')
    /\ dead_lettered self d' = false
    /\ m = message_of d'.
Proof.
  revert opts w. induction fuel as [|n IH]; intros opts w Hg.
  - discriminate.
  - cbn [get] in Hg. unfold bind at 1 in Hg.
    pose proof (steady_claim self opts w) as Hev1.
    destruct (claim self opts w) as [[[d|]|e|] w1] eqn:Hc; cbn [snd] in Hev1;
      try discriminate.
    destruct (dead_lettered self d) eqn:Hdl.
    + unfold dead_lettered in Hdl.
      destruct (Queue.deadQueue self) as [dq|]; [|discriminate].
      cbn [Msg.tries Msg.ack message_of] in Hg. rewrite Hdl in Hg.
      unfold bind at 1 in Hg.
      pose proof (steady_add dq (VMsg (message_of d)) noOpts w1) as Hev2.
      destruct (add dq _ _ w1) as [[r2|e2|] w2]; cbn [snd] in Hev2;
        try discriminate.
      unfold bind at 1 in Hg.
      pose proof (steady_ack self (Doc.ack d) w2) as Hev3.
      destruct (ack self _ w2) as [[r3|e3|] w3]; cbn [snd] in Hev3;
        try discriminate.
      destruct (IH noOpts w3 Hg) as (w0 & opts0 & d' & Hev & Hc' & Hdl' & ->).
      exists w0, opts0, d'. split; [|done].
      apply evolves_trans with w1; [done|].
      apply evolves_trans with w2; [done|].
      by apply evolves_trans with w3.
    + assert (Hg' : (Ok (Some (message_of d)), w1) = (Ok (Some m), w')).
      { rewrite <- Hg. unfold dead_lettered in Hdl.
        cbn [Msg.tries message_of].
        destruct (Queue.deadQueue self); [|reflexivity].
        by rewrite Hdl. }
      injection Hg' as <- <-.
      exists w, opts, d. split; [apply evolves_refl|done].
Qed.

(* ===================================================================== *)
(** ** The recursion of [get] ends *)
(* ===================================================================== *)

Lemma live_count_insert (l : list doc) (i : nat) (d d' : doc) :
  l !! i = Some d ->
  (live_count (<[i := d']> l) + (if present (Doc.deleted d) then 0 else 1)
   = live_count l + (if present (Doc.deleted d') then 0 else 1))%nat.
Proof.
  revert i. induction l as [|x l IH]; intros i Hi; [done|].
  destruct i as [|i].
  - injection Hi as ->. change (<[0%nat := d']> (d :: l)) with (d' :: l).
    cbn [live_count]. lia.
  - change (<[S i := d']> (x :: l)) with (x :: <[i := d']> l).
    cbn [live_count]. specialize (IH i Hi). lia.
Qed.

Lemma claim_keeps_live (self : Queue.t) (opts : Opts.t) (w w1 : World) (d : doc) :
  claim self opts w = (Ok (Some d), w1) ->
  live_count (docs (collection (Queue.name self) w1))
  = live_count (docs (collection (Queue.name self) w)).
Proof.
  intros Hc. apply claim_Some_inv in Hc as (i & d0 & Hi & [_ Hdel] & -> & ->).
  rewrite docs_with_docs.
  pose proof (live_count_insert _ i d0
                (claimed d0 (token w) (lease_end self opts w) (claim_stamp w)) Hi) as H.
  cbn [claimed Doc.deleted] in H. lia.
Qed.

Lemma ack_drops_live (self : Queue.t) (a : option string) (w w1 : World)
    (r : string) :
  ack self a w = (Ok r, w1) ->
  S (live_count (docs (collection (Queue.name self) w1)))
  = live_count (docs (collection (Queue.name self) w)).
Proof.
  rewrite ack_unfold. destruct (findOne _ _ _) as [[i d]|] eqn:Hf; [|discriminate].
  intros Hok. injection Hok as _ <-.
  apply findOne_Some in Hf as (Hi & Hs & _).
  apply selects_spec in Hs as [Hm _].
  apply matches_lease_query in Hm as (_ & _ & Hd).
  rewrite docs_with_docs.
  pose proof (live_count_insert _ i d (finalized d (iso (clock w (S (reads w))))) Hi)
    as H.
  cbn [finalized Doc.deleted present] in H. rewrite Hd in H. cbn [present] in H.
  lia.
Qed.

Lemma claim_not_OutOfFuel (self : Queue.t) (opts : Opts.t) (w : World) :
  fst (claim self opts w) <> OutOfFuel.
Proof.
  destruct (valid_time (lease_instant self opts w)) eqn:Hv.
  2:{ by rewrite claim_throws. }
  destruct (truthy_str (Opts.user opts)) eqn:Hu.
  - by rewrite claim_refused.
  - rewrite claim_unfold by done.
    destruct (findOne _ _ _) as [[i d]|]; [|done].
    cbn zeta. by destruct (_ && _).
Qed.

Lemma ack_not_OutOfFuel (self : Queue.t) (a : option string) (w : World) :
  fst (ack self a w) <> OutOfFuel.
Proof. rewrite ack_unfold. by destruct (findOne _ _ _) as [[i d]|]. Qed.

(** When the dead-letter queue is kept in another collection, a fuel
    above the number of documents without [deleted] is enough. *)
Lemma get_terminates (fuel : nat) (self : Queue.t) (opts : Opts.t) (w : World) :
  (forall dq, Queue.deadQueue self = Some dq -> Queue.name dq <> Queue.name self) ->
  (live_count (docs (collection (Queue.name self) w)) < fuel)%nat ->
  fst (get fuel self opts w) <> OutOfFuel.
Proof.
  intros Hdq. revert opts w. induction fuel as [|n IH]; intros opts w Hlt; [lia|].
  cbn [get]. unfold bind at 1.
  pose proof (claim_not_OutOfFuel self opts w) as Hnf.
  destruct (claim self opts w) as [[[d|]|e|] w1] eqn:Hc; cbn [fst] in *;
    try done.
  pose proof (claim_keeps_live self opts w w1 d Hc) as Hlive1.
  destruct (Queue.deadQueue self) as [dq|] eqn:Edq; [|done].
  destruct (js_gt _ _); [|done].
  unfold bind at 1.
  pose proof (add_other dq (VMsg (message_of d)) noOpts w1 (Queue.name self)
                (Hdq dq eq_refl)) as Hother.
  pose proof (add_not_OutOfFuel dq (VMsg (message_of d)) noOpts w1) as Hnf1.
  destruct (add dq (VMsg (message_of d)) noOpts w1) as [[r1|e1|] w2];
    cbn [fst snd] in *; try done.
  unfold bind at 1.
  pose proof (ack_not_OutOfFuel self (Msg.ack (message_of d)) w2) as Hnf2.
  destruct (ack self _ w2) as [[r|e|] w3] eqn:Hack; cbn [fst] in *; try done.
  apply IH. apply ack_drops_live in Hack. rewrite Hother in Hack. lia.
Qed.

(* ===================================================================== *)
(** ** Delivery of a document that is first in line *)
(* ===================================================================== *)

Lemma claimed_tries (d : doc) (a : string) (v f : string) :
  Doc.tries (claimed d a v f) = Some (tries_of d + 1).
Proof. reflexivity. Qed.

Lemma first_in_line (self : Queue.t) (opts : Opts.t) (w : World) (i : nat)
    (d : doc) :
  truthy_str (Opts.user opts) = false ->
  valid_time (lease_instant self opts w) = true ->
  token_accepted self w ->
  docs (collection (Queue.name self) w) !! i = Some d ->
  eligible (claim_time w) d ->
  (forall j x, docs (collection (Queue.name self) w) !! j = Some x -> j <> i ->
               eligible (claim_time w) x -> (Doc._id d < Doc._id x)%N) ->
  claim self opts w
  = (Ok (Some (claimed d (token w) (lease_end self opts w) (claim_stamp w))),
     with_docs (Queue.name self)
       (<[i := claimed d (token w) (lease_end self opts w) (claim_stamp w)]>
          (docs (collection (Queue.name self) w)))
       (after_claim_reads w)).
Proof.
  intros Hu Hv Hfresh Hi Hel Hfirst. rewrite claim_unfold by done.
  rewrite (findOne_least (get_query (claim_time w)) _ i d Hi).
  - cbn zeta. by rewrite (token_accepted_no_duplicate self w i _ _ Hfresh).
  - by apply matches_get_query.
  - intros j x Hj Hne Hm. apply (Hfirst j x Hj Hne). by apply matches_get_query.
Qed.

Lemma nothing_eligible (fuel : nat) (self : Queue.t) (opts : Opts.t) (w : World) :
  truthy_str (Opts.user opts) = false ->
  valid_time (lease_instant self opts w) = true ->
  Forall (fun x => ~ eligible (claim_time w) x)
         (docs (collection (Queue.name self) w)) ->
  get (S fuel) self opts w = (Ok None, after_claim_reads w).
Proof.
  intros Hu Hv Hnone. apply get_empty. rewrite claim_unfold by done.
  assert (Hf : findOne (get_query (claim_time w)) true
                 (docs (collection (Queue.name self) w)) = None).
  { apply findOne_None. intros x Hx. rewrite Forall_forall in Hnone.
    specialize (Hnone x Hx). destruct (matches _ x) eqn:E; [|done].
    apply matches_get_query in E. by destruct Hnone. }
  by rewrite Hf.
Qed.

(* ===================================================================== *)
(** ** The unique index on [ack] *)
(* ===================================================================== *)

Lemma tokens_unique_insert (l : list doc) (i : nat) (d d' : doc) :
  l !! i = Some d -> Doc.ack d' = Doc.ack d ->
  tokens_unique l -> tokens_unique (<[i := d']> l).
Proof.
  intros Hi Hack Hu.
  assert (Hback : forall p x a, <[i := d']> l !! p = Some x ->
                    Doc.ack x = Some a ->
                    exists x0, l !! p = Some x0 /\ Doc.ack x0 = Some a).
  { intros p x a Hp Hx. destruct (decide (p = i)) as [->|Hne].
    - rewrite list_lookup_insert_eq in Hp by (by apply lookup_lt_Some in Hi).
      injection Hp as <-. exists d. split; [done|congruence].
    - rewrite list_lookup_insert_ne in Hp by done. eauto. }
  intros p q x y a Hp Hq Hx Hy.
  destruct (Hback p x a Hp Hx) as (x0 & Hp0 & Hx0).
  destruct (Hback q y a Hq Hy) as (y0 & Hq0 & Hy0).
  by apply (Hu p q x0 y0 a).
Qed.

Lemma tokens_unique_claimed (l : list doc) (i : nat) (d : doc) (a : string)
    (v f : string) :
  l !! i = Some d -> tokens_unique l ->
  (forall j x, l !! j = Some x -> j <> i -> Doc.ack x <> Some a) ->
  tokens_unique (<[i := claimed d a v f]> l).
Proof.
  intros Hi Hu Hnew p q x y b Hp Hq Hx Hy.
  assert (Hlen : (i < length l)%nat) by (by apply lookup_lt_Some in Hi).
  destruct (decide (p = i)) as [->|Hpi], (decide (q = i)) as [->|Hqi].
  - done.
  - rewrite list_lookup_insert_eq in Hp by done. injection Hp as <-.
    rewrite list_lookup_insert_ne in Hq by done.
    cbn [claimed Doc.ack] in Hx. injection Hx as <-.
    by destruct (Hnew q y Hq Hqi).
  - rewrite list_lookup_insert_eq in Hq by done. injection Hq as <-.
    rewrite list_lookup_insert_ne in Hp by done.
    cbn [claimed Doc.ack] in Hy. injection Hy as <-.
    by destruct (Hnew p x Hp Hpi).
  - rewrite list_lookup_insert_ne in Hp, Hq by done.
    by apply (Hu p q x y b).
Qed.

Lemma tokens_unique_app_fresh (l : list doc) (o : N) (v : string) (p : value) :
  tokens_unique l -> tokens_unique (l ++ [fresh_doc o v p])%list.
Proof.
  intros Hu.
  assert (Hback : forall k x a, (l ++ [fresh_doc o v p])%list !! k = Some x ->
                    Doc.ack x = Some a -> l !! k = Some x).
  { intros k x a Hk Hx. apply lookup_app_Some in Hk as [Hk|[_ Hk]]; [done|].
    apply list_lookup_singleton_Some in Hk as [_ <-]. discriminate Hx. }
  intros i j x y a Hi Hj Hx Hy.
  apply (Hu i j x y a); eauto.
Qed.


Lemma has_duplicate_ack_false (l : list doc) :
  has_duplicate_ack l = false -> tokens_unique l.
Proof.
  induction l as [|d l IH]; intros Hno i j x y a Hi Hj Hx Hy; [done|].
  cbn [has_duplicate_ack] in Hno. apply orb_false_iff in Hno as [Hhead Htail].
  assert (Hclash : forall k z, l !! k = Some z -> Doc.ack z = Some a ->
                     Doc.ack d = Some a -> False).
  { intros k z Hk Hz Hd. rewrite Hd in Hhead.
    assert (existsb (fun d' => bool_decide (Doc.ack d' = Some a)) l = true).
    { apply existsb_exists. exists z. split.
      - apply list_elem_of_In, list_elem_of_lookup. eauto.
      - by apply bool_decide_eq_true. }
    congruence. }
  destruct i as [|i], j as [|j]; cbn in Hi, Hj.
  - done.
  - injection Hi as <-. destruct (Hclash j y Hj Hy Hx).
  - injection Hj as <-. destruct (Hclash i x Hi Hx Hy).
  - f_equal. by apply (IH Htail i j x y a).
Qed.

Lemma createIndexes_indexed (self : Queue.t) (w w' : World) (r : string) :
  createIndexes self w = (Ok r, w') -> indexed (Queue.name self) w'.
Proof.
  unfold createIndexes, bind, createIndex_ack.
  destruct (has_duplicate_ack _) eqn:Hdup; [discriminate|].
  intros Hok. injection Hok as _ <-. unfold indexed.
  rewrite collection_set_eq. cbn [ackUnique docs].
  split; [done|by apply has_duplicate_ack_false].
Qed.

Lemma indexed_same_db (name : string) (w w' : World) :
  db w' = db w -> indexed name w -> indexed name w'.
Proof.
  intros Hdb. unfold indexed. by rewrite (collection_same_db name w w' Hdb).
Qed.

(** Replacing the documents of one collection, the index flag untouched. *)
Lemma indexed_with_docs (name n : string) (l : list doc) (w w0 : World) :
  db w0 = db w ->
  indexed n w ->
  (n = name -> tokens_unique l) ->
  indexed n (with_docs name l w0).
Proof.
  intros Hdb [Hflag Hu] Hl. unfold indexed.
  destruct (decide (name = n)) as [<-|Hne].
  - rewrite docs_with_docs, ackUnique_with_docs.
    rewrite (collection_same_db name w w0 Hdb). auto.
  - rewrite collection_with_docs_ne by done.
    by rewrite (collection_same_db n w w0 Hdb).
Qed.

Lemma keeps_index_ret {A} (a : A) : keeps_index (ret a).
Proof. by intros name w H. Qed.

Lemma keeps_index_bind {A B} (c : M A) (k : A -> M B) :
  keeps_index c -> (forall a, keeps_index (k a)) -> keeps_index (bind c k).
Proof.
  intros Hc Hk name w Hw. unfold bind. specialize (Hc name w Hw).
  destruct (c w) as [[a|e|] w1]; cbn [snd] in *; [|done..].
  by apply Hk.
Qed.

Lemma keeps_index_now : keeps_index now.
Proof. intros name w. by apply indexed_same_db. Qed.

Lemma keeps_index_nowPlusSecs (secs : Z) : keeps_index (nowPlusSecs secs).
Proof. intros name w. apply indexed_same_db, nowPlusSecs_db. Qed.

Lemma keeps_index_insertOne (name : string) (v : string) (p : value) :
  keeps_index (insertOne name v p).
Proof.
  intros n w [Hflag Hu]. unfold indexed.
  destruct (decide (name = n)) as [<-|Hne].
  - rewrite insertOne_docs. split; [|by apply tokens_unique_app_fresh].
    unfold insertOne. cbn [snd]. unfold collection at 1.
    cbn [db set_collection]. by rewrite lookup_insert_eq.
  - by rewrite insertOne_other.
Qed.

Lemma keeps_index_add (self : Queue.t) (p : value) (opts : Opts.t) :
  keeps_index (add self p opts).
Proof.
  unfold add. apply keeps_index_bind.
  - destruct (truthy_num _); [apply keeps_index_nowPlusSecs|apply keeps_index_now].
  - intros v. apply keeps_index_bind; [apply keeps_index_insertOne|].
    intros o. apply keeps_index_ret.
Qed.

Lemma keeps_index_ack (self : Queue.t) (a : option string) :
  keeps_index (ack self a).
Proof.
  intros n w Hw. rewrite ack_unfold.
  destruct (findOne _ _ _) as [[i d]|] eqn:Hf; cbn [snd].
  - apply findOne_Some in Hf as (Hi & _).
    apply indexed_with_docs with w; [done|done|]. intros ->.
    apply tokens_unique_insert with d; [done|done|apply Hw].
  - by apply indexed_same_db with w.
Qed.

Lemma keeps_index_ping (self : Queue.t) (a : option string) (opts : Opts.t) :
  keeps_index (ping self a opts).
Proof.
  intros n w Hw. destruct (valid_time (ping_instant self opts w)) eqn:Hv.
  2:{ rewrite ping_throws by done. by apply indexed_same_db with w. }
  rewrite ping_unfold by done.
  destruct (findOne _ _ _) as [[i d]|] eqn:Hf; cbn [snd].
  - apply findOne_Some in Hf as (Hi & _).
    apply indexed_with_docs with w; [done|done|]. intros ->.
    apply tokens_unique_insert with d; [done|done|apply Hw].
  - by apply indexed_same_db with w.
Qed.

Lemma keeps_index_claim (self : Queue.t) (opts : Opts.t) :
  keeps_index (claim self opts).
Proof.
  intros n w Hw. destruct (valid_time (lease_instant self opts w)) eqn:Hv.
  2:{ rewrite claim_throws by done. by apply indexed_same_db with w. }
  destruct (truthy_str (Opts.user opts)) eqn:Hu.
  - rewrite claim_refused by done. by apply indexed_same_db with w.
  - rewrite claim_unfold by done.
    destruct (findOne _ _ _) as [[i d]|] eqn:Hf;
      [|by apply indexed_same_db with w].
    cbn zeta. destruct (_ && _) eqn:Hdup;
      [by apply indexed_same_db with w|].
    cbn [snd]. apply findOne_Some in Hf as (Hi & _).
    apply indexed_with_docs with w; [done|done|]. intros ->.
    destruct Hw as [Hflag Huniq]. rewrite Hflag in Hdup. cbn [andb] in Hdup.
    apply tokens_unique_claimed; [done|done|].
    by apply no_duplicate_ack with (lease_end self opts w) (claim_stamp w).
Qed.

Lemma keeps_index_get (fuel : nat) (self : Queue.t) (opts : Opts.t) :
  keeps_index (get fuel self opts).
Proof.
  revert opts. induction fuel as [|n IH]; intros opts.
  - by intros name w H.
  - cbn [get]. apply keeps_index_bind; [apply keeps_index_claim|].
    intros [d|]; [|apply keeps_index_ret].
    destruct (Queue.deadQueue self) as [dq|]; [|apply keeps_index_ret].
    destruct (js_gt _ _); [|apply keeps_index_ret].
    apply keeps_index_bind; [apply keeps_index_add|]. intros _.
    apply keeps_index_bind; [apply keeps_index_ack|]. intros _. apply IH.
Qed.

Lemma keeps_index_count (name : string) (q : query) :
  keeps_index (count name q).
Proof. by intros n w H. Qed.

Lemma keeps_index_size (self : Queue.t) : keeps_index (size self).
Proof.
  unfold size. apply keeps_index_bind; [apply keeps_index_now|].
  intros t. apply keeps_index_count.
Qed.

Lemma keeps_index_inFlight (self : Queue.t) : keeps_index (inFlight self).
Proof.
  unfold inFlight. apply keeps_index_bind; [apply keeps_index_now|].
  intros t. apply keeps_index_count.
Qed.

Lemma keeps_index_createIndexes (self : Queue.t) :
  keeps_index (createIndexes self).
Proof.
  unfold createIndexes.
  apply keeps_index_bind; [|intros; apply keeps_index_ret].
  intros n w [Hflag Hu]. unfold indexed.
  rewrite createIndex_ack_docs. split; [|done].
  unfold createIndex_ack. destruct (has_duplicate_ack _); [done|].
  cbn [snd]. destruct (decide (Queue.name self = n)) as [<-|Hne].
  - by rewrite collection_set_eq.
  - by rewrite collection_set_ne.
Qed.

Lemma indexed_calls (calls : list call) (name : string) (w : World) :
  indexed name w ->
  tokens_unique (docs (collection name (foldl perform w calls))).
Proof.
  intros Hw. cut (indexed name (foldl perform w calls)); [by intros [_ H]|].
  revert w Hw. induction calls as [|c calls IH]; intros w Hw; cbn [foldl];
    [done|].
  apply IH. destruct c; cbn [perform].
  - by apply keeps_index_createIndexes.
  - by apply keeps_index_add.
  - by apply keeps_index_get.
  - by apply keeps_index_ping.
  - by apply keeps_index_ack.
  - by apply keeps_index_count.
  - by apply keeps_index_size.
  - by apply keeps_index_inFlight.
  - by apply keeps_index_count.
Qed.

Lemma ack_twice (self : Queue.t) (a : string) (w w1 : World) (r : string) :
  (forall i j x y,
      docs (collection (Queue.name self) w) !! i = Some x ->
      docs (collection (Queue.name self) w) !! j = Some y ->
      Doc.ack x = Some a -> Doc.ack y = Some a -> i = j) ->
  ack self (Some a) w = (Ok r, w1) ->
  ack self (Some a) w1
  = (Err (Error ("Queue.ack(): Unidentified ack : " +:+ a)), tick (tick w1)).
Proof.
  intros Huniq Hok. rewrite ack_unfold in Hok.
  destruct (findOne _ _ _) as [[i d]|] eqn:Hf; [|discriminate].
  injection Hok as _ <-.
  apply findOne_Some in Hf as (Hi & Hs & _).
  apply selects_spec in Hs as [Hm _]. apply holds_lease_matches in Hm.
  rewrite ack_unfold.
  match goal with |- context [findOne ?q ?s ?l] =>
    assert (Hnone : findOne q s l = None) end.
  { apply no_lease_held, Forall_forall. intros x Hx [Hax [_ Hdx]].
    rewrite docs_with_docs in Hx.
    apply list_elem_of_lookup in Hx as [j Hj].
    destruct (decide (j = i)) as [->|Hne].
    - rewrite list_lookup_insert_eq in Hj
        by (apply lookup_lt_Some in Hi; done).
      injection Hj as <-. discriminate Hdx.
    - rewrite list_lookup_insert_ne in Hj by done.
      destruct Hm as [Had _]. by specialize (Huniq j i x d Hj Hi Hax Had). }
  rewrite Hnone. reflexivity.
Qed.
(* ===================================================================== *)
(** ** The counters: [total], [done], [size], [inFlight] and [clean] *)
(* ===================================================================== *)

Lemma total_unfold (self : Queue.t) (w : World) :
  total self w
  = (Ok (matching total_query (docs (collection (Queue.name self) w))), w).
Proof. reflexivity. Qed.

Lemma done_unfold (self : Queue.t) (w : World) :
  done self w
  = (Ok (matching done_query (docs (collection (Queue.name self) w))), w).
Proof. reflexivity. Qed.

Lemma size_unfold (self : Queue.t) (w : World) :
  size self w
  = (Ok (matching (get_query (claim_time w))
           (docs (collection (Queue.name self) w))), tick w).
Proof. reflexivity. Qed.

Lemma inFlight_unfold (self : Queue.t) (w : World) :
  inFlight self w
  = (Ok (matching (inFlight_query (claim_time w))
           (docs (collection (Queue.name self) w))), tick w).
Proof. reflexivity. Qed.

Lemma matching_nil (q : query) : matching q [] = O.
Proof. reflexivity. Qed.

Lemma matching_cons (q : query) (d : doc) (l : list doc) :
  matching q (d :: l) = ((if matches q d then 1 else 0) + matching q l)%nat.
Proof.
  unfold matching. rewrite filter_cons.
  destruct (decide (matches q d = true)) as [H|H].
  - rewrite H. reflexivity.
  - destruct (matches q d); [done|reflexivity].
Qed.

Lemma matching_app (q : query) (l1 l2 : list doc) :
  matching q (l1 ++ l2)%list = (matching q l1 + matching q l2)%nat.
Proof.
  induction l1 as [|d l1 IH]; [reflexivity|].
  change ((d :: l1) ++ l2)%list with (d :: (l1 ++ l2))%list.
  rewrite !matching_cons, IH. lia.
Qed.

Lemma matching_insert (q : query) (l : list doc) (i : nat) (x y : doc) :
  l !! i = Some x ->
  (matching q (<[i := y]> l) + (if matches q x then 1 else 0)
   = matching q l + (if matches q y then 1 else 0))%nat.
Proof.
  revert i. induction l as [|z l IH]; intros i Hi; [done|].
  destruct i as [|i].
  - injection Hi as ->. change (<[0%nat := y]> (x :: l)) with (y :: l).
    rewrite !matching_cons. lia.
  - change (<[S i := y]> (z :: l)) with (z :: <[i := y]> l).
    rewrite !matching_cons. specialize (IH i Hi). lia.
Qed.

Lemma matching_total (l : list doc) : matching total_query l = length l.
Proof.
  induction l as [|d l IH]; [reflexivity|].
  rewrite matching_cons, IH. reflexivity.
Qed.

Lemma matches_done (d : doc) :
  matches done_query d = present (Doc.deleted d).
Proof.
  unfold matches, done_query. cbn. by destruct (Doc.deleted d).
Qed.

Lemma matching_done_live (l : list doc) :
  (matching done_query l + live_count l = length l)%nat.
Proof.
  induction l as [|d l IH]; [reflexivity|].
  rewrite matching_cons, matches_done. cbn [live_count length].
  destruct (present (Doc.deleted d)); lia.
Qed.

Lemma clean_docs (self : Queue.t) (w : World) :
  docs (collection (Queue.name self) (snd (clean self w)))
  = filter (fun d => Doc.deleted d = None)
           (docs (collection (Queue.name self) w)).
Proof.
  unfold clean, deleteMany. cbn [snd]. rewrite collection_set_eq.
  cbn [set_docs docs]. apply list_filter_iff. intros d.
  change (matches _ d) with (matches done_query d). rewrite matches_done.
  destruct (Doc.deleted d); cbn; split; intros H; congruence.
Qed.

Lemma filter_live_matching (q : query) (l : list doc) :
  q_deleted q = Some false ->
  matching q (filter (fun d => Doc.deleted d = None) l) = matching q l.
Proof.
  intros Hq. induction l as [|d l IH]; [reflexivity|].
  rewrite filter_cons. destruct (decide (Doc.deleted d = None)) as [Hd|Hd].
  - rewrite !matching_cons, IH. reflexivity.
  - rewrite matching_cons, IH.
    assert (Hm : matches q d = false).
    { unfold matches. rewrite Hq. destruct (Doc.deleted d); [|done].
      cbn. by rewrite !andb_false_r. }
    rewrite Hm. reflexivity.
Qed.

Lemma filter_live_done (l : list doc) :
  matching done_query (filter (fun d => Doc.deleted d = None) l) = O.
Proof.
  induction l as [|d l IH]; [reflexivity|].
  rewrite filter_cons. destruct (decide (Doc.deleted d = None)) as [Hd|Hd];
    [|exact IH].
  rewrite matching_cons, matches_done, Hd, IH. reflexivity.
Qed.

Lemma filter_live_length (l : list doc) :
  (length (filter (fun d => Doc.deleted d = None) l) + matching done_query l
   = length l)%nat.
Proof.
  induction l as [|d l IH]; [reflexivity|].
  rewrite filter_cons, matching_cons, matches_done.
  destruct (decide (Doc.deleted d = None)) as [Hd|Hd].
  - rewrite Hd. cbn [present length]. lia.
  - destruct (Doc.deleted d); [|done]. cbn [present length]. lia.
Qed.

Lemma filter_live_idem (l : list doc) :
  filter (fun d => Doc.deleted d = None)
         (filter (fun d => Doc.deleted d = None) l)
  = filter (fun d => Doc.deleted d = None) l.
Proof.
  induction l as [|d l IH]; [reflexivity|].
  rewrite filter_cons. destruct (decide (Doc.deleted d = None)) as [Hd|Hd];
    [|exact IH].
  rewrite filter_cons. destruct (decide (Doc.deleted d = None)); [|done].
  by rewrite IH.
Qed.


(* ===================================================================== *)
(** ** Following a document through [clean] *)
(* ===================================================================== *)

Lemma clean_other (self : Queue.t) (w : World) (name : string) :
  Queue.name self <> name ->
  collection name (snd (clean self w)) = collection name w.
Proof.
  intros Hne. unfold clean, deleteMany. cbn [snd]. by rewrite collection_set_ne.
Qed.

Lemma clean_ackUnique (self : Queue.t) (w : World) (name : string) :
  ackUnique (collection name (snd (clean self w))) = ackUnique (collection name w).
Proof.
  destruct (decide (Queue.name self = name)) as [<-|Hne].
  - unfold clean, deleteMany. cbn [snd]. by rewrite collection_set_eq.
  - by rewrite clean_other.
Qed.

Lemma filter_live_lookup (l : list doc) : forall (i : nat) (d : doc),
  l !! i = Some d -> Doc.deleted d = None ->
  filter (fun d => Doc.deleted d = None) l !! live_count (take i l) = Some d.
Proof.
  induction l as [|x l IH]; intros i d Hi Hd; [done|].
  rewrite filter_cons. destruct i as [|i].
  - injection Hi as ->. cbn [take live_count].
    destruct (decide (Doc.deleted d = None)); [reflexivity|done].
  - cbn [take live_count]. cbn in Hi. specialize (IH i d Hi Hd).
    destruct (decide (Doc.deleted x = None)) as [Hx|Hx].
    + rewrite Hx. cbn [present]. exact IH.
    + destruct (Doc.deleted x); [|done]. cbn [present]. exact IH.
Qed.

Lemma after_clean_Some (l : list doc) (i j : nat) :
  after_clean l i = Some j ->
  exists d, l !! i = Some d /\ Doc.deleted d = None
            /\ filter (fun d => Doc.deleted d = None) l !! j = Some d.
Proof.
  unfold after_clean. destruct (l !! i) as [d|] eqn:Hi; [|discriminate].
  destruct (Doc.deleted d) eqn:Hd; cbn [present]; [discriminate|].
  intros H. injection H as <-. exists d. split; [done|]. split; [done|].
  by apply filter_live_lookup.
Qed.

(** A document that is followed through a sequence of requests changes
    at most by [doc_step]. *)
Lemma tracked (rs : list request) : forall (w : World) (name : string)
    (i j : nat) (d : doc),
  docs (collection name w) !! i = Some d ->
  track rs w name i = Some j ->
  exists d', docs (collection name (foldl serve w rs)) !! j = Some d'
             /\ doc_step d d'.
Proof.
  induction rs as [|r rs IH]; intros w name i j d Hi Ht.
  - injection Ht as <-. exists d. split; [done|apply doc_step_refl].
  - cbn [track foldl] in *. destruct r as [c|self].
    + destruct (evolves_perform w c name i d Hi) as (d1 & H1 & S1).
      destruct (IH _ name i j d1 H1 Ht) as (d' & Hd' & S').
      exists d'. split; [done|]. by apply doc_step_trans with d1.
    + destruct (bool_decide (Queue.name self = name)) eqn:Hn.
      * apply bool_decide_eq_true in Hn. subst name.
        destruct (after_clean _ i) as [k|] eqn:Hk; [|discriminate].
        apply after_clean_Some in Hk as (d0 & Hi0 & _ & Hk).
        rewrite Hi in Hi0. injection Hi0 as <-.
        apply (IH _ (Queue.name self) k j d); [|done].
        cbn [serve]. by rewrite clean_docs.
      * apply bool_decide_eq_false in Hn.
        apply (IH _ name i j d); [|done].
        cbn [serve]. by rewrite clean_other.
Qed.

Lemma tokens_unique_cons (x : doc) (l : list doc) :
  tokens_unique (x :: l)
  <-> tokens_unique l
      /\ (forall a y, Doc.ack x = Some a -> y ∈ l -> Doc.ack y <> Some a).
Proof.
  split.
  - intros Hu. split.
    + intros i j y z a Hi Hj Hy Hz.
      specialize (Hu (S i) (S j) y z a Hi Hj Hy Hz). by injection Hu.
    + intros a y Hx Hy Hay. apply list_elem_of_lookup in Hy as [k Hk].
      specialize (Hu 0%nat (S k) x y a eq_refl Hk Hx Hay). discriminate.
  - intros [Hu Hx] [|i] [|j] y z a Hi Hj Hy Hz; cbn in Hi, Hj.
    + done.
    + injection Hi as <-. exfalso. apply (Hx a z Hy); [|done].
      apply list_elem_of_lookup. eauto.
    + injection Hj as <-. exfalso. apply (Hx a y Hz); [|done].
      apply list_elem_of_lookup. eauto.
    + f_equal. by apply (Hu i j y z a).
Qed.

Lemma tokens_unique_filter (l : list doc) :
  tokens_unique l -> tokens_unique (filter (fun d => Doc.deleted d = None) l).
Proof.
  induction l as [|x l IH]; intros Hu; [done|].
  apply tokens_unique_cons in Hu as [Hl Hx].
  rewrite filter_cons. destruct (decide (Doc.deleted x = None)); [|by apply IH].
  apply tokens_unique_cons. split; [by apply IH|].
  intros a y Ha Hy. apply list_elem_of_filter in Hy as [_ Hy]. by apply Hx.
Qed.

Lemma keeps_index_clean (self : Queue.t) : keeps_index (clean self).
Proof.
  intros n w [Hflag Hu]. unfold indexed. rewrite clean_ackUnique.
  split; [done|]. destruct (decide (Queue.name self = n)) as [<-|Hne].
  - rewrite clean_docs. by apply tokens_unique_filter.
  - by rewrite clean_other.
Qed.

Lemma keeps_index_perform (c : call) (name : string) (w : World) :
  indexed name w -> indexed name (perform w c).
Proof.
  intros Hw. destruct c; cbn [perform].
  - by apply keeps_index_createIndexes.
  - by apply keeps_index_add.
  - by apply keeps_index_get.
  - by apply keeps_index_ping.
  - by apply keeps_index_ack.
  - by apply keeps_index_count.
  - by apply keeps_index_size.
  - by apply keeps_index_inFlight.
  - by apply keeps_index_count.
Qed.

Lemma indexed_requests (rs : list request) (name : string) (w : World) :
  indexed name w ->
  tokens_unique (docs (collection name (foldl serve w rs))).
Proof.
  intros Hw. cut (indexed name (foldl serve w rs)); [by intros [_ H]|].
  revert w Hw. induction rs as [|r rs IH]; intros w Hw; cbn [foldl]; [done|].
  apply IH. destruct r as [c|self]; cbn [serve].
  - by apply keeps_index_perform.
  - by apply keeps_index_clean.
Qed.

Lemma matching_insert_same (q : query) (l : list doc) (i : nat) (x y : doc) :
  l !! i = Some x -> matches q y = matches q x ->
  matching q (<[i := y]> l) = matching q l.
Proof.
  intros Hi Hm. pose proof (matching_insert q l i x y Hi) as H.
  rewrite Hm in H. destruct (matches q x); lia.
Qed.

Lemma get_without_dead_queue (fuel : nat) (self : Queue.t) (opts : Opts.t)
    (w : World) :
  Queue.deadQueue self = None ->
  snd (get (S fuel) self opts w) = snd (claim self opts w)
  /\ fst (get (S fuel) self opts w)
     = match fst (claim self opts w) with
       | Ok (Some d) => Ok (Some (message_of d))
       | Ok None => Ok None
       | Err e => Err e
       | OutOfFuel => OutOfFuel
       end.
Proof.
  intros Hdq. cbn [get]. unfold bind.
  destruct (claim self opts w) as [[[d|]|e|] w1]; cbn [fst snd]; try done.
  by rewrite Hdq.
Qed.

Lemma matching_zero (q : query) (l : list doc) :
  matching q l = O <-> forall d, d ∈ l -> matches q d = false.
Proof.
  induction l as [|x l IH].
  - split; [intros _ d Hd; inversion Hd|reflexivity].
  - rewrite matching_cons. split.
    + intros H d Hd. destruct (matches q x) eqn:Hx; [lia|].
      apply elem_of_cons in Hd as [->|Hd]; [done|].
      apply IH; [lia|done].
    + intros H. rewrite (H x) by left. cbn. apply IH.
      intros d Hd. apply H. by right.
Qed.

Lemma get_Some_position (fuel : nat) (self : Queue.t) (opts : Opts.t)
    (w w' : World) (m : message) :
  get fuel self opts w = (Ok (Some m), w') ->
  exists (j : nat) (x0 : doc) (a : string) (v f : string),
    docs (collection (Queue.name self) w') !! j = Some (claimed x0 a v f)
    /\ m = message_of (claimed x0 a v f)
    /\ Doc.deleted x0 = None
    /\ dead_lettered self (claimed x0 a v f) = false.
Proof.
  intros Hg.
  apply get_Some_inv in Hg as (w0 & opts0 & d' & _ & Hc & Hdl & ->).
  apply claim_Some_inv in Hc as (j & x0 & Hj & [_ Hdel] & -> & ->).
  exists j, x0, (token w0), (lease_end self opts0 w0), (claim_stamp w0).
  split; [|done]. rewrite docs_with_docs. apply list_lookup_insert_eq.
  by apply lookup_lt_Some in Hj.
Qed.

Lemma lease_found (a : string) (t : string) (l : list doc) (j : nat) (x : doc) :
  tokens_unique l ->
  l !! j = Some x ->
  holds_lease a t x ->
  findOne (lease_query (Some a) t) false l = Some (j, x).
Proof.
  intros Hu Hj Hl. apply findOne_first; [done|by apply holds_lease_matches|].
  intros i y Hi Hlt. destruct (matches _ y) eqn:Hm; [|done]. exfalso.
  apply holds_lease_matches in Hm as [Hay _]. destruct Hl as [Hax _].
  specialize (Hu i j y x a Hi Hj Hay Hax). lia.
Qed.

Lemma no_lease_after_finalized (a : string) (t t' : string) (l : list doc) (j : nat)
    (x : doc) :
  tokens_unique l ->
  l !! j = Some x ->
  Doc.ack x = Some a ->
  findOne (lease_query (Some a) t) false (<[j := finalized x t']> l) = None.
Proof.
  intros Hu Hj Hax. apply no_lease_held, Forall_forall.
  intros y Hy [Hay [_ Hdy]].
  apply list_elem_of_lookup in Hy as [i Hi].
  destruct (decide (i = j)) as [->|Hne].
  - rewrite list_lookup_insert_eq in Hi by (by apply lookup_lt_Some in Hj).
    injection Hi as <-. discriminate Hdy.
  - rewrite list_lookup_insert_ne in Hi by done.
    by specialize (Hu i j y x a Hi Hj Hay Hax).
Qed.

Lemma claim_other_collection (self : Queue.t) (opts : Opts.t) (w : World)
    (name : string) :
  name <> Queue.name self ->
  collection name (snd (claim self opts w)) = collection name w.
Proof.
  intros Hne. destruct (claim_world self opts w) as [[d' Hc]|Hw].
  - apply claim_Some_inv in Hc as (i & d & _ & _ & _ & ->).
    by rewrite collection_with_docs_ne.
  - unfold collection. by rewrite Hw.
Qed.

Lemma has_duplicate_ack_true (l : list doc) :
  has_duplicate_ack l = true -> ~ tokens_unique l.
Proof.
  induction l as [|d l IH]; [discriminate|].
  cbn [has_duplicate_ack]. intros H Hu.
  apply orb_true_iff in H as [H|H].
  - destruct (Doc.ack d) as [a|] eqn:Ha; [|discriminate].
    apply existsb_exists in H as (y & Hy & Hay).
    apply list_elem_of_In, list_elem_of_lookup in Hy as [j Hj].
    apply bool_decide_eq_true in Hay.
    specialize (Hu 0%nat (S j) d y a eq_refl Hj Ha Hay). discriminate.
  - apply IH; [done|]. intros i j x y a Hi Hj Hx Hy.
    specialize (Hu (S i) (S j) x y a Hi Hj Hx Hy). by injection Hu.
Qed.

Lemma hex_digit_inj (a b : N) :
  (a < 16)%N -> (b < 16)%N -> hex_digit a = hex_digit b -> a = b.
Proof.
  intros Ha Hb. unfold hex_digit.
  assert (Hna : (N.to_nat a < 16)%nat) by lia.
  assert (Hnb : (N.to_nat b < 16)%nat) by lia.
  intros H. apply N2Nat.inj. revert H.
  generalize dependent (N.to_nat b). generalize dependent (N.to_nat a).
  intros n Hn m Hm.
  do 16 (destruct n as [|n]; [do 16 (destruct m as [|m];
         [cbn; first [reflexivity|discriminate]|]); lia|]).
  lia.
Qed.

Lemma hex_digit_is_hex (a : N) :
  In (hex_digit a)
     ["0"; "1"; "2"; "3"; "4"; "5"; "6"; "7";
      "8"; "9"; "a"; "b"; "c"; "d"; "e"; "f"]%char.
Proof.
  unfold hex_digit. destruct (le_lt_dec 16 (N.to_nat a)) as [Hge|Hlt].
  - rewrite nth_overflow by (cbn; lia). by left.
  - apply nth_In. cbn. lia.
Qed.

Lemma byte_from_digits (b b' : Byte.byte) :
  (Byte.to_N b / 16 = Byte.to_N b' / 16)%N ->
  (Byte.to_N b mod 16 = Byte.to_N b' mod 16)%N ->
  b = b'.
Proof.
  intros Hq Hr.
  assert (Hn : Byte.to_N b = Byte.to_N b').
  { rewrite (N.div_mod (Byte.to_N b) 16) by lia.
    rewrite (N.div_mod (Byte.to_N b') 16) by lia. by rewrite Hq, Hr. }
  pose proof (Byte.of_to_N b) as H1. pose proof (Byte.of_to_N b') as H2.
  rewrite Hn in H1. congruence.
Qed.

Lemma one_counter_per_document (t : string) (d : doc) :
  ((if matches done_query d then 1 else 0)
   + (if matches (get_query t) d then 1 else 0)
   + (if matches (inFlight_query t) d then 1 else 0)
   + (if uncounted t d then 1 else 0) = 1)%nat.
Proof.
  unfold matches, done_query, get_query, inFlight_query, uncounted.
  cbn [q_ack q_visible q_deleted].
  pose proof (str_ltb_asym (Doc.visible d) t) as Hasym.
  destruct (Doc.deleted d), (Doc.ack d); cbn [present Bool.eqb negb andb orb];
    destruct (str_ltb (Doc.visible d) t) eqn:E1;
    destruct (str_ltb t (Doc.visible d)) eqn:E2;
    cbn [negb andb orb]; try lia; by specialize (Hasym eq_refl).
Qed.
(* ===================================================================== *)
(** ** The claim of a message *)
(* ===================================================================== *)

Lemma or_num_given (v b : Z) : v <> 0 -> or_num (Some v) b = v.
Proof. intros H. unfold or_num. by destruct (Z.eqb_spec v 0). Qed.

Lemma or_num_default (a : option Z) (b : Z) :
  a = None \/ a = Some 0 -> or_num a b = b.
Proof. by intros [->| ->]. Qed.

Lemma eligible_in_time (t v : Z) (x : doc) :
  Doc.visible x = iso v -> four_digit_year v -> four_digit_year t ->
  eligible (iso t) x <-> v < t /\ Doc.deleted x = None.
Proof.
  intros Hx Fv Ft. unfold eligible. rewrite Hx.
  by rewrite (iso_order_lt v t Fv Ft).
Qed.

Lemma holds_lease_in_time (a : string) (t v : Z) (x : doc) :
  Doc.visible x = iso v -> four_digit_year v -> four_digit_year t ->
  holds_lease a (iso t) x
  <-> Doc.ack x = Some a /\ t < v /\ Doc.deleted x = None.
Proof.
  intros Hx Fv Ft. unfold holds_lease. rewrite Hx.
  by rewrite (iso_order_lt t v Ft Fv).
Qed.

(** C1, as the code has it.  Take any state of the queue's collection and
    a [get] without a claimant whose lease end (the second clock reading
    plus the lease duration) is a date in the range of [Date].  If no
    document has [deleted] absent and a [visible] below the timestamp of
    the first clock reading, in the order of the store, [get] hands the
    caller the empty result, which is not an error, and leaves every
    collection as it was.  Otherwise one step of the store picks a
    document with the least [_id] among those.  If the unique index on
    tokens is on and another document holds the token just drawn, the
    step fails with the store's duplicate key error and nothing changes.
    Otherwise the step writes to that document, and to no other, the
    token, [visible] = the timestamp of the lease end (the caller's
    duration if given and not 0, else the queue's), [tries] + 1 and the
    stamp; no other document holds the token when the index is on or the
    token was held by none before; and unless the dead-letter policy
    applies the caller gets that document as it is after the write, with
    the token in it.  For instants of the years 0000 to 9999 the order of
    the store is the order of time: a document is below the timestamp of
    the clock reading exactly when its [visible] is before that reading. *)
Theorem get_claims_least_eligible (fuel : nat) (self : Queue.t) (opts : Opts.t)
    (w : World) :
  truthy_str (Opts.user opts) = false ->
  valid_time (lease_instant self opts w) = true ->
  ((Forall (fun d => ~ eligible (claim_time w) d)
           (docs (collection (Queue.name self) w))
    /\ get (S fuel) self opts w = (Ok None, after_claim_reads w)
    /\ db (after_claim_reads w) = db w)
   \/
   (exists (i : nat) (d : doc),
      docs (collection (Queue.name self) w) !! i = Some d
      /\ eligible (claim_time w) d
      /\ Forall (fun x => eligible (claim_time w) x -> (Doc._id d <= Doc._id x)%N)
                (docs (collection (Queue.name self) w))
      /\ ((ackUnique (collection (Queue.name self) w) = true
           /\ (exists (j : nat) (x : doc),
                 j <> i
                 /\ docs (collection (Queue.name self) w) !! j = Some x
                 /\ Doc.ack x = Some (hex_of_bytes (entropy w (draws w) 16)))
           /\ get (S fuel) self opts w
              = (Err (MongoError "E11000 duplicate key error"), after_claim_reads w)
           /\ db (after_claim_reads w) = db w)
          \/
          (exists (d' : doc) (w' : World),
             claim self opts w = (Ok (Some d'), w')
             /\ docs (collection (Queue.name self) w')
                = <[i := d']> (docs (collection (Queue.name self) w))
             /\ (forall name, name <> Queue.name self ->
                              collection name w' = collection name w)
             /\ Doc._id d' = Doc._id d
             /\ Doc.payload d' = Doc.payload d
             /\ Doc.user d' = Doc.user d
             /\ Doc.deleted d' = None
             /\ Doc.ack d' = Some (hex_of_bytes (entropy w (draws w) 16))
             /\ Doc.tries d' = Some (tries_of d + 1)
             /\ Doc.firstClaimed d' = Some (iso (clock w (S (S (reads w)))))
             /\ (forall v : Z,
                   Opts.visibility opts = Some v -> v <> 0 ->
                   Doc.visible d' = iso (clock w (S (reads w)) + v * 1000))
             /\ (Opts.visibility opts = None \/ Opts.visibility opts = Some 0 ->
                 Doc.visible d'
                 = iso (clock w (S (reads w)) + Queue.visibility self * 1000))
             /\ (ackUnique (collection (Queue.name self) w) = true
                 \/ Forall (fun x => Doc.ack x <> Doc.ack d')
                           (docs (collection (Queue.name self) w)) ->
                 forall (j : nat) (x : doc),
                   docs (collection (Queue.name self) w') !! j = Some x ->
                   Doc.ack x = Doc.ack d' -> j = i)
             /\ (dead_lettered self d' = false ->
                 exists m : message,
                   get (S fuel) self opts w = (Ok (Some m), w')
                   /\ Msg.id m = toHexString (Doc._id d)
                   /\ Msg.visible m = Doc.visible d'
                   /\ Msg.payload m = Doc.payload d
                   /\ Msg.ack m = Doc.ack d'
                   /\ Msg.tries m = Doc.tries d'
                   /\ Msg.firstClaimed m = Doc.firstClaimed d'
                   /\ Msg.user m = Doc.user d
                   /\ Msg.deleted m = None)))))
  /\
  (forall (v : Z) (x : doc),
     Doc.visible x = iso v ->
     four_digit_year v -> four_digit_year (clock w (reads w)) ->
     (eligible (claim_time w) x <-> v < clock w (reads w) /\ Doc.deleted x = None)).
Proof.
  intros Hu Hv. split; [|intros v x; apply eligible_in_time].
  pose proof (claim_unfold self opts w Hu Hv) as Hc.
  destruct (findOne _ _ _) as [[i d]|] eqn:Hf.
  2:{ left. split.
      { apply Forall_forall. intros d Hd He.
        rewrite findOne_None in Hf. specialize (Hf d Hd).
        apply matches_get_query in He. congruence. }
      split; [by apply get_empty|reflexivity]. }
  right. exists i, d.
  apply findOne_Some in Hf as (Hi & Hs & _).
  apply selects_spec in Hs as [Hm Hleast].
  apply matches_get_query in Hm.
  split; [done|]. split; [done|]. split.
  { apply Forall_forall. intros x Hx Hex.
    apply (Hleast eq_refl x Hx). by apply matches_get_query. }
  cbn zeta in Hc.
  destruct (ackUnique (collection (Queue.name self) w)) eqn:Hidx;
    destruct (duplicate_ack _ _ _) eqn:Hdup; cbn [andb] in Hc.
  - left. split; [done|]. split; [by apply duplicate_ack_found in Hdup|].
    split; [by apply get_fails|reflexivity].
  - right. eexists _, _. split; [exact Hc|].
    rewrite docs_with_docs. split; [done|].
    split; [intros name Hne; by rewrite collection_with_docs_ne|].
    destruct Hm as [_ Hdel].
    do 7 (split; [done|]).
    split.
    { intros v Hov Hnz. cbn [claimed Doc.visible]. unfold lease_end, lease_instant.
      by rewrite Hov, or_num_given. }
    split.
    { intros Hov. cbn [claimed Doc.visible]. unfold lease_end, lease_instant.
      by rewrite or_num_default. }
    split.
    { intros _ j x Hj Hx. destruct (decide (j = i)) as [|Hne]; [done|]. exfalso.
      rewrite list_lookup_insert_ne in Hj by done.
      by apply (no_duplicate_ack _ _ _ _ _ Hdup j x Hj Hne). }
    intros Hdl. eexists. split; [by apply get_delivers|]. done.
  - right. eexists _, _. split; [exact Hc|].
    rewrite docs_with_docs. split; [done|].
    split; [intros name Hne; by rewrite collection_with_docs_ne|].
    destruct Hm as [_ Hdel].
    do 7 (split; [done|]).
    split.
    { intros v Hov Hnz. cbn [claimed Doc.visible]. unfold lease_end, lease_instant.
      by rewrite Hov, or_num_given. }
    split.
    { intros Hov. cbn [claimed Doc.visible]. unfold lease_end, lease_instant.
      by rewrite or_num_default. }
    split.
    { intros [Hon|Hfresh]; [discriminate|]. intros j x Hj Hx.
      destruct (decide (j = i)) as [|Hne]; [done|]. exfalso.
      rewrite list_lookup_insert_ne in Hj by done.
      rewrite Forall_forall in Hfresh.
      apply (Hfresh x); [|done]. apply list_elem_of_lookup. eauto. }
    intros Hdl. eexists. split; [by apply get_delivers|]. done.
  - right. eexists _, _. split; [exact Hc|].
    rewrite docs_with_docs. split; [done|].
    split; [intros name Hne; by rewrite collection_with_docs_ne|].
    destruct Hm as [_ Hdel].
    do 7 (split; [done|]).
    split.
    { intros v Hov Hnz. cbn [claimed Doc.visible]. unfold lease_end, lease_instant.
      by rewrite Hov, or_num_given. }
    split.
    { intros Hov. cbn [claimed Doc.visible]. unfold lease_end, lease_instant.
      by rewrite or_num_default. }
    split.
    { intros _ j x Hj Hx. destruct (decide (j = i)) as [|Hne]; [done|]. exfalso.
      rewrite list_lookup_insert_ne in Hj by done.
      by apply (no_duplicate_ack _ _ _ _ _ Hdup j x Hj Hne). }
    intros Hdl. eexists. split; [by apply get_delivers|]. done.
Qed.

(* ===================================================================== *)
(** ** [ping] and [ack] on a lease *)
(* ===================================================================== *)

(** C7, as the code has it.  [ping] with a token first makes the new
    lease end: the second clock reading plus the lease duration, the
    caller's if given and not 0, else the queue's.  If that is no date in
    the range of [Date], [ping] throws [RangeError] and nothing changes.
    Otherwise [ping] fails with the error "Unidentified ack" when no
    document holds the token with [deleted] absent and a [visible] above
    the timestamp of the first clock reading, in the order of the store;
    else one step of the store moves [visible] of the first such document
    to the timestamp of the new lease end and leaves its [tries], its
    [ack] and every other field and document as they were; the caller
    gets the identifier.  For instants of the years 0000 to 9999 a
    [visible] is above the timestamp of the clock reading exactly when it
    is after that reading. *)
Theorem ping_extends_lease (self : Queue.t) (a : string) (opts : Opts.t)
    (w : World) :
  ((valid_time (ping_instant self opts w) = false
    /\ ping self (Some a) opts w
       = (Err (RangeError "Invalid time value"), tick (tick w))
    /\ db (tick (tick w)) = db w)
   \/
   (valid_time (ping_instant self opts w) = true
    /\ Forall (fun d => ~ holds_lease a (claim_time w) d)
              (docs (collection (Queue.name self) w))
    /\ ping self (Some a) opts w
       = (Err (Error ("Queue.ping(): Unidentified ack  : " +:+ a)), tick (tick w))
    /\ db (tick (tick w)) = db w)
   \/
   (valid_time (ping_instant self opts w) = true
    /\ exists (i : nat) (d d' : doc),
         docs (collection (Queue.name self) w) !! i = Some d
         /\ holds_lease a (claim_time w) d
         /\ (forall j x, docs (collection (Queue.name self) w) !! j = Some x ->
                         (j < i)%nat -> ~ holds_lease a (claim_time w) x)
         /\ ping self (Some a) opts w
            = (Ok (toHexString (Doc._id d)),
               with_docs (Queue.name self)
                 (<[i := d']> (docs (collection (Queue.name self) w)))
                 (tick (tick w)))
         /\ (forall v : Z,
               Opts.visibility opts = Some v -> v <> 0 ->
               Doc.visible d' = iso (clock w (S (reads w)) + v * 1000))
         /\ (Opts.visibility opts = None \/ Opts.visibility opts = Some 0 ->
             Doc.visible d'
             = iso (clock w (S (reads w)) + Queue.visibility self * 1000))
         /\ Doc.tries d' = Doc.tries d
         /\ Doc.ack d' = Doc.ack d
         /\ Doc._id d' = Doc._id d
         /\ Doc.payload d' = Doc.payload d
         /\ Doc.firstClaimed d' = Doc.firstClaimed d
         /\ Doc.user d' = Doc.user d
         /\ Doc.deleted d' = Doc.deleted d))
  /\
  (forall (v : Z) (x : doc),
     Doc.visible x = iso v ->
     four_digit_year v -> four_digit_year (clock w (reads w)) ->
     (holds_lease a (claim_time w) x
      <-> Doc.ack x = Some a /\ clock w (reads w) < v /\ Doc.deleted x = None)).
Proof.
  split; [|intros v x; apply holds_lease_in_time].
  destruct (valid_time (ping_instant self opts w)) eqn:Hv.
  2:{ left. split; [done|]. split; [by apply ping_throws|reflexivity]. }
  right.
  pose proof (ping_unfold self (Some a) opts w Hv) as Hping.
  destruct (findOne _ _ _) as [[i d]|] eqn:Hf.
  - right. split; [done|].
    apply findOne_Some in Hf as (Hi & Hs & Hbefore).
    apply selects_spec in Hs as [Hm _]. apply holds_lease_matches in Hm.
    eexists i, d, _. split; [done|]. split; [done|]. split.
    { intros j x Hj Hlt Hl. apply (Hbefore j x Hj Hlt).
      apply selects_spec. split; [by apply holds_lease_matches|discriminate]. }
    split; [exact Hping|].
    split.
    { intros v Hov Hnz. cbn [renewed Doc.visible]. unfold ping_instant.
      by rewrite Hov, or_num_given. }
    split.
    { intros Hov. cbn [renewed Doc.visible]. unfold ping_instant.
      by rewrite or_num_default. }
    repeat split.
  - left. split; [done|]. split; [by apply no_lease_held|].
    split; [exact Hping|reflexivity].
Qed.

(** C3, as the code has it.  [ack] with a token succeeds exactly when
    some document holds the token with [deleted] absent and a [visible]
    above the timestamp of the clock reading of the call, in the order of
    the store: then one step of the store sets [deleted] of the first
    such document to the timestamp of the next clock reading and the
    caller gets its identifier; otherwise the call fails with the error
    "Unidentified ack" and nothing changes.  For instants of the years
    0000 to 9999 a [visible] is above the timestamp of the clock reading
    exactly when it is after that reading.  When at most one document
    holds the token, a second [ack] with the same token after a
    successful one fails with that error; this is the case in every
    world reached by any calls, [clean] among them, from a world in which
    [createIndexes] has succeeded. *)
Theorem ack_succeeds_iff_lease_held (self : Queue.t) (a : string) (w : World) :
  ((exists (i : nat) (d : doc),
      docs (collection (Queue.name self) w) !! i = Some d
      /\ holds_lease a (claim_time w) d
      /\ (forall j x, docs (collection (Queue.name self) w) !! j = Some x ->
                      (j < i)%nat -> ~ holds_lease a (claim_time w) x)
      /\ ack self (Some a) w =
           (Ok (toHexString (Doc._id d)),
            with_docs (Queue.name self)
              (<[i := finalized d (iso (clock w (S (reads w))))]>
                 (docs (collection (Queue.name self) w)))
              (tick (tick w))))
   \/
   (Forall (fun d => ~ holds_lease a (claim_time w) d)
           (docs (collection (Queue.name self) w))
    /\ ack self (Some a) w =
         (Err (Error ("Queue.ack(): Unidentified ack : " +:+ a)), tick (tick w))
    /\ db (tick (tick w)) = db w))
  /\
  (forall (v : Z) (x : doc),
     Doc.visible x = iso v ->
     four_digit_year v -> four_digit_year (clock w (reads w)) ->
     (holds_lease a (claim_time w) x
      <-> Doc.ack x = Some a /\ clock w (reads w) < v /\ Doc.deleted x = None))
  /\
  ((forall i j x y,
       docs (collection (Queue.name self) w) !! i = Some x ->
       docs (collection (Queue.name self) w) !! j = Some y ->
       Doc.ack x = Some a -> Doc.ack y = Some a -> i = j) ->
   forall (r : string) (w1 : World),
     ack self (Some a) w = (Ok r, w1) ->
     ack self (Some a) w1 =
       (Err (Error ("Queue.ack(): Unidentified ack : " +:+ a)), tick (tick w1)))
  /\
  (forall (w0 w00 : World) (r0 : string) (requests : list request),
     createIndexes self w0 = (Ok r0, w00) ->
     w = foldl serve w00 requests ->
     forall (r : string) (w1 : World),
       ack self (Some a) w = (Ok r, w1) ->
       ack self (Some a) w1 =
         (Err (Error ("Queue.ack(): Unidentified ack : " +:+ a)), tick (tick w1))).
Proof.
  split; [|split; [intros v x; apply holds_lease_in_time|split]].
  3:{ intros w0 w00 r0 requests Hci -> r w1 Hok.
      apply (ack_twice self a (foldl serve w00 requests) w1 r); [|done].
      intros i j x y. apply (indexed_requests requests (Queue.name self) w00).
      by apply createIndexes_indexed with w0 r0. }
  2:{ intros Huniq r w1 Hok. by apply (ack_twice self a w w1 r). }
  pose proof (ack_unfold self (Some a) w) as Hack.
  destruct (findOne _ _ _) as [[i d]|] eqn:Hf.
  - apply findOne_Some in Hf as (Hi & Hs & Hbefore).
    apply selects_spec in Hs as [Hm _]. apply holds_lease_matches in Hm.
    left. exists i, d. split; [done|]. split; [done|]. split; [|done].
    intros j x Hj Hlt Hl. apply (Hbefore j x Hj Hlt).
    apply selects_spec. split; [by apply holds_lease_matches|discriminate].
  - right. split; [by apply no_lease_held|]. split; [exact Hack|reflexivity].
Qed.

(* ===================================================================== *)
(** ** The [tries] counter *)
(* ===================================================================== *)


(* ===================================================================== *)
(** ** The dead-letter hand-off *)
(* ===================================================================== *)

Lemma constructed_fields (name : string) (o : QueueOpts.t) (self dq : Queue.t)
    (R : Z) :
  Queue true name (Some o) = Ok self ->
  QueueOpts.deadQueue o = Some dq ->
  QueueOpts.maxRetries o = Some R ->
  R <> 0 ->
  Queue.name self = name
  /\ Queue.deadQueue self = Some dq
  /\ Queue.maxRetries self = Some R.
Proof.
  intros Hq Hdq HR Hnz. unfold Queue in Hq. cbn [negb] in Hq.
  destruct (bool_decide _); [discriminate|]. injection Hq as <-.
  change (default _ (Some o)) with o.
  cbn [Queue.name Queue.deadQueue Queue.maxRetries]. rewrite Hdq, HR.
  by rewrite or_num_given.
Qed.

Lemma add_instant_noOpts (dq : Queue.t) (w : World) :
  add_instant dq noOpts w = clock w (reads w) + Queue.delay dq * 1000.
Proof. reflexivity. Qed.

(** C2, as the code has it.  Let a queue be constructed with a
    dead-letter queue [dq] and [maxRetries] = [R], [R] not 0 (a 0 is read
    as 5), and let the step of [claim] inside [get] obtain a document
    whose [tries], after the increment, exceeds [R].  Then [get] is this
    sequence, and the caller gets its outcome: add the whole message to
    [dq], call [ack] on the own queue with the token just written, call
    [get] again without options.  The [add] throws [RangeError] when the
    delay of [dq] is not 0 and leads out of the range of [Date];
    otherwise it appends one document to the collection of [dq].  Let no
    other document hold the token.  If the lease just written still runs
    when [ack] reads the clock ([visible] above the timestamp of that
    reading, in the order of the store), [ack] sets [deleted] on the very
    document and the caller gets what the recursive [get] yields; if it
    does not, [get] fails with the error "Unidentified ack" and the
    document stays as it is.  A message that reaches the caller is never
    the exhausted one: it sits at another position and its [tries] is at
    most [R].  When [dq] is kept in another collection, a fuel of at
    least the number of documents without [deleted] suffices for an
    outcome. *)
Theorem get_hands_exhausted_message_to_dead_queue
    (fuel : nat) (name : string) (o : QueueOpts.t) (self dq : Queue.t) (R : Z)
    (opts : Opts.t) (w w1 : World) (d : doc) :
  Queue true name (Some o) = Ok self ->
  QueueOpts.deadQueue o = Some dq ->
  QueueOpts.maxRetries o = Some R ->
  R <> 0 ->
  claim self opts w = (Ok (Some d), w1) ->
  R < tries_of d ->
  exists i : nat,
    docs (collection (Queue.name self) w1) !! i = Some d
    /\ Doc.ack d = Some (token w)
    /\ get (S fuel) self opts w
       = (let* _ := add dq (VMsg (message_of d)) noOpts in
          let* _ := ack self (Some (token w)) in
          get fuel self noOpts) w1
    /\ (Queue.delay dq <> 0 ->
        valid_time (clock w1 (reads w1) + Queue.delay dq * 1000) = false ->
        get (S fuel) self opts w
        = (Err (RangeError "Invalid time value"), tick w1))
    /\ (Queue.delay dq = 0
        \/ valid_time (clock w1 (reads w1) + Queue.delay dq * 1000) = true ->
        exists w2 : World,
          add dq (VMsg (message_of d)) noOpts w1
          = (Ok (toHexString (nextId w1)), w2)
          /\ docs (collection (Queue.name dq) w2)
             = (docs (collection (Queue.name dq) w1)
                ++ [fresh_doc (nextId w1)
                      (iso (clock w1 (reads w1) + Queue.delay dq * 1000))
                      (VMsg (message_of d))])%list
          /\ get (S fuel) self opts w
             = (let* _ := ack self (Some (token w)) in get fuel self noOpts) w2
          /\ ((forall j x,
                 docs (collection (Queue.name self) w1) !! j = Some x ->
                 Doc.ack x = Some (token w) -> j = i) ->
              (str_ltb (claim_time w2) (Doc.visible d) = true ->
               exists w3 : World,
                 ack self (Some (token w)) w2 = (Ok (toHexString (Doc._id d)), w3)
                 /\ docs (collection (Queue.name self) w3) !! i
                    = Some (finalized d (iso (clock w2 (S (reads w2)))))
                 /\ get (S fuel) self opts w = get fuel self noOpts w3)
              /\ (str_ltb (claim_time w2) (Doc.visible d) = false ->
                  get (S fuel) self opts w
                  = (Err (Error ("Queue.ack(): Unidentified ack : " +:+ token w)),
                     tick (tick w2))
                  /\ docs (collection (Queue.name self) (tick (tick w2))) !! i
                     = Some d)))
    /\ (forall (m : message) (w' : World),
          get (S fuel) self opts w = (Ok (Some m), w') ->
          exists (j : nat) (x : doc),
            j <> i
            /\ docs (collection (Queue.name self) w') !! j = Some x
            /\ Msg.id m = toHexString (Doc._id x)
            /\ Msg.tries m = Doc.tries x
            /\ tries_of x <= R)
    /\ (Queue.name dq <> Queue.name self ->
        (live_count (docs (collection (Queue.name self) w)) <= fuel)%nat ->
        fst (get (S fuel) self opts w) <> OutOfFuel).
Proof.
  intros Hq Hodq HoR Hnz Hc Hgt.
  destruct (constructed_fields name o self dq R Hq Hodq HoR Hnz) as (_ & Hdq & HR).
  pose proof Hc as Hinv.
  apply claim_Some_inv in Hinv as (i & d0 & Hi0 & [_ Hdel0] & Hd & Hw1).
  assert (Hlen : (i < length (docs (collection (Queue.name self) w)))%nat)
    by (by apply lookup_lt_Some in Hi0).
  assert (Hi1 : docs (collection (Queue.name self) w1) !! i = Some d).
  { rewrite Hw1, docs_with_docs. by apply list_lookup_insert_eq. }
  assert (Hack : Doc.ack d = Some (token w)) by (by rewrite Hd).
  assert (Hdel : Doc.deleted d = None) by (by rewrite Hd).
  assert (Hjs : js_gt (Doc.tries d) (Queue.maxRetries self) = true).
  { apply (dead_lettered_spec self dq R d Hdq HR); [|done].
    rewrite Hd. by eexists. }
  assert (Hget : get (S fuel) self opts w
                 = (let* _ := add dq (VMsg (message_of d)) noOpts in
                    let* _ := ack self (Some (token w)) in
                    get fuel self noOpts) w1).
  { rewrite (get_hands_off fuel self dq opts w w1 d Hc Hdq Hjs). by rewrite Hack. }
  exists i.
  split; [done|]. split; [done|]. split; [done|]. split; [|split; [|split]].
  - intros Hdelay Hinvalid. rewrite Hget. unfold bind at 1.
    by rewrite (add_throws dq _ noOpts w1 Hdelay Hinvalid).
  - intros Hdated.
    destruct (add_cases dq (VMsg (message_of d)) noOpts w1)
      as [[Hadd _]|(_ & Hnz' & Hinv')].
    2:{ exfalso. rewrite add_instant_noOpts in Hinv'.
        destruct Hdated as [H0|Hv]; [by apply Hnz'|congruence]. }
    set (w2 := snd (insertOne (Queue.name dq) (iso (add_instant dq noOpts w1))
                      (VMsg (message_of d)) (tick w1))) in *.
    assert (Hw2 : w2 = snd (add dq (VMsg (message_of d)) noOpts w1))
      by (by rewrite Hadd).
    exists w2. split; [exact Hadd|]. split.
    { by rewrite (add_docs _ _ _ _ _ _ Hadd). }
    assert (Hget2 : get (S fuel) self opts w
                    = (let* _ := ack self (Some (token w)) in
                       get fuel self noOpts) w2).
    { rewrite Hget. unfold bind at 1. by rewrite Hadd. }
    split; [exact Hget2|].
    intros Huniq.
    assert (Hlen1 : (i < length (docs (collection (Queue.name self) w1)))%nat)
      by (by apply lookup_lt_Some in Hi1).
    assert (Hi2 : docs (collection (Queue.name self) w2) !! i = Some d).
    { rewrite Hw2. by rewrite add_lookup_lt. }
    assert (Hback : forall j x,
              docs (collection (Queue.name self) w2) !! j = Some x ->
              Doc.ack x = Some (token w) -> j = i).
    { intros j x Hj Hx.
      destruct (decide (j < length (docs (collection (Queue.name self) w1)))%nat)
        as [Hlt|Hge].
      - rewrite Hw2, add_lookup_lt in Hj by done. by apply (Huniq j x).
      - exfalso. destruct (decide (Queue.name dq = Queue.name self)) as [Hsame|Hne].
        + rewrite <- Hsame in Hj. rewrite (add_docs _ _ _ _ _ _ Hadd) in Hj.
          apply lookup_app_Some in Hj as [Hj|[_ Hj]].
          * apply lookup_lt_Some in Hj. rewrite Hsame in Hj. lia.
          * apply list_lookup_singleton_Some in Hj as [_ <-]. discriminate Hx.
        + rewrite Hw2, add_other in Hj by done.
          apply lookup_lt_Some in Hj. lia. }
    pose proof (ack_unfold self (Some (token w)) w2) as Hau.
    split.
    + intros Hruns.
      assert (Hfind : findOne (lease_query (Some (token w)) (claim_time w2))
                        false (docs (collection (Queue.name self) w2))
                      = Some (i, d)).
      { apply findOne_first; [done| |].
        - by apply matches_lease_query.
        - intros j x Hj Hlt.
          destruct (matches _ x) eqn:Hm; [|done]. exfalso.
          apply matches_lease_query in Hm as (Hax & _).
          specialize (Hback j x Hj Hax). lia. }
      rewrite Hfind in Hau.
      eexists. split; [exact Hau|]. split.
      * rewrite docs_with_docs. apply list_lookup_insert_eq.
        by apply lookup_lt_Some in Hi2.
      * rewrite Hget2. unfold bind at 1. by rewrite Hau.
    + intros Hover.
      assert (Hnone : findOne (lease_query (Some (token w)) (claim_time w2))
                        false (docs (collection (Queue.name self) w2)) = None).
      { apply no_lease_held, Forall_forall. intros x Hx [Hax [Hvx _]].
        apply list_elem_of_lookup in Hx as [j Hj].
        pose proof (Hback j x Hj Hax) as ->.
        rewrite Hi2 in Hj. injection Hj as <-. congruence. }
      rewrite Hnone in Hau. split.
      * rewrite Hget2. unfold bind at 1. by rewrite Hau.
      * exact Hi2.
  - (* what reaches the caller is another document *)
    intros m w' Hres. rewrite Hget in Hres. unfold bind at 1 in Hres.
    pose proof (steady_add dq (VMsg (message_of d)) noOpts w1) as Hev12.
    destruct (add dq (VMsg (message_of d)) noOpts w1) as [[r2|e2|] w2];
      cbn [snd] in Hev12; try discriminate.
    unfold bind at 1 in Hres.
    pose proof (steady_ack self (Some (token w)) w2) as Hev23.
    destruct (ack self (Some (token w)) w2) as [[r|e|] w3]; cbn [snd] in Hev23;
      try discriminate.
    apply get_Some_inv in Hres as (w0 & opts0 & d'' & Hev30 & Hc' & Hdl & ->).
    assert (Hev : evolves w1 w0).
    { apply evolves_trans with w2; [done|]. by apply evolves_trans with w3. }
    destruct (Hev _ i d Hi1) as (di & Hdi & _ & _ & _ & Htries & _).
    apply claim_Some_inv in Hc' as (j & x0 & Hj & _ & Hd'' & Hw').
    assert (Hle : tries_of d'' <= R).
    { destruct (dead_lettered_spec self dq R d'' Hdq HR) as [Hspec _].
      { rewrite Hd''. by eexists. }
      destruct (Z.lt_ge_cases R (tries_of d'')) as [Hlt|Hge]; [|lia].
      apply Hspec in Hlt. congruence. }
    exists j, d''. split; [|split; [|done]].
    + intros ->. rewrite Hdi in Hj. injection Hj as <-.
      rewrite Hd'' in Hle. unfold tries_of at 1 in Hle.
      rewrite claimed_tries in Hle. cbn [default] in Hle.
      unfold Datatypes.id in Hle. lia.
    + rewrite Hw', docs_with_docs. apply list_lookup_insert_eq.
      by apply lookup_lt_Some in Hj.
  - (* enough fuel *)
    intros Hne Hlive. apply get_terminates; [|lia].
    intros dq' Hdq'. congruence.
Qed.

(* ===================================================================== *)
(** ** Expired leases and delays *)
(* ===================================================================== *)

(** C5, as the code has it.  Take a document that was leased (it carries
    a token), was not acknowledged ([deleted] absent) and whose [visible]
    lies before the clock reading of a later [get], both within the years
    0000 to 9999.  Nothing has to be written to it first: the query of
    [get] looks at [visible] and [deleted] only, so the document matches.
    A [get] without a claimant, with a lease end in the range of [Date]
    and a token the store accepts, then claims some document; if the
    document is first in line, it is the one claimed, and its [tries]
    goes up by one; unless the dead-letter policy applies, the caller
    gets it. *)
Theorem expired_lease_is_claimable_again
    (fuel : nat) (self : Queue.t) (opts : Opts.t) (w : World) (i : nat)
    (d : doc) (a0 : string) (v : Z) :
  docs (collection (Queue.name self) w) !! i = Some d ->
  Doc.ack d = Some a0 ->
  Doc.deleted d = None ->
  Doc.visible d = iso v ->
  four_digit_year v ->
  four_digit_year (clock w (reads w)) ->
  v < clock w (reads w) ->
  matches (get_query (claim_time w)) d = true
  /\ (forall x : doc,
        matches (get_query (claim_time w)) x = true
        <-> str_ltb (Doc.visible x) (claim_time w) = true /\ Doc.deleted x = None)
  /\ (truthy_str (Opts.user opts) = false ->
      valid_time (lease_instant self opts w) = true ->
      token_accepted self w ->
      (exists (d' : doc) (w' : World), claim self opts w = (Ok (Some d'), w'))
      /\ ((forall j x, docs (collection (Queue.name self) w) !! j = Some x ->
                       j <> i -> eligible (claim_time w) x ->
                       (Doc._id d < Doc._id x)%N) ->
          exists (d' : doc) (w' : World),
            claim self opts w = (Ok (Some d'), w')
            /\ docs (collection (Queue.name self) w')
               = <[i := d']> (docs (collection (Queue.name self) w))
            /\ Doc._id d' = Doc._id d
            /\ Doc.payload d' = Doc.payload d
            /\ Doc.ack d' = Some (hex_of_bytes (entropy w (draws w) 16))
            /\ Doc.tries d' = Some (tries_of d + 1)
            /\ tries_of d' = tries_of d + 1
            /\ (dead_lettered self d' = false ->
                exists m : message,
                  get (S fuel) self opts w = (Ok (Some m), w')
                  /\ Msg.id m = toHexString (Doc._id d)
                  /\ Msg.payload m = Doc.payload d
                  /\ Msg.tries m = Some (tries_of d + 1)))).
Proof.
  intros Hi Ha0 Hdel Hvis Fv Ft Hlt.
  assert (Hel : eligible (claim_time w) d).
  { apply (eligible_in_time _ v); auto. }
  split; [by apply matches_get_query|].
  split; [intros x; apply matches_get_query|].
  intros Hu Hv Hfree. split.
  - destruct (claim_or_nothing self opts w Hu Hv Hfree)
      as [Hnone|(j & x & Hc)].
    + exfalso. rewrite Forall_forall in Hnone.
      apply (Hnone d); [|done]. apply list_elem_of_lookup. eauto.
    + eauto.
  - intros Hfirst.
    pose proof (first_in_line self opts w i d Hu Hv Hfree Hi Hel Hfirst) as Hc.
    eexists _, _. split; [exact Hc|]. rewrite docs_with_docs.
    do 6 (split; [reflexivity|]).
    intros Hdl. eexists. split; [by apply get_delivers|]. done.
Qed.

(** C6, as the code has it.  Let [add] be called with [delay] = [D], the
    clock reading of the call and that reading plus the delay in force
    ([D] seconds, or the queue's own delay when [D] is 0) both within the
    years 0000 to 9999.  [add] stores a document whose [visible] is the
    timestamp of the reading plus the delay.  At a clock reading within
    those years the document is eligible exactly when the reading is
    strictly after that instant, hence not before [D] seconds have passed
    since the reading of [add].  A [get] at such a reading, without a
    claimant, with a lease end in the range of [Date] and a token the
    store accepts, claims the document when it is first in line, and the
    caller gets it unless the dead-letter policy applies; whereas a [get]
    whose clock reading is not after that instant comes back empty when
    nothing else is eligible. *)
Theorem delayed_message_waits_until_visible
    (self : Queue.t) (payload : value) (opts : Opts.t) (D : Z) (w : World) :
  Opts.delay opts = Some D ->
  four_digit_year (clock w (reads w)) ->
  four_digit_year (add_instant self opts w) ->
  exists (d : doc) (w1 : World),
    add self payload opts w = (Ok (toHexString (Doc._id d)), w1)
    /\ docs (collection (Queue.name self) w1)
       = (docs (collection (Queue.name self) w) ++ [d])%list
    /\ Doc.payload d = payload
    /\ Doc.deleted d = None
    /\ Doc.tries d = None
    /\ (D <> 0 -> Doc.visible d = iso (clock w (reads w) + D * 1000))
    /\ (D = 0 -> Doc.visible d = iso (clock w (reads w) + Queue.delay self * 1000))
    /\ (forall t : Z,
          four_digit_year t ->
          (eligible (iso t) d <-> add_instant self opts w < t))
    /\ (forall t : Z,
          four_digit_year t -> clock w (reads w) <= t -> eligible (iso t) d ->
          D * 1000 <= t - clock w (reads w))
    /\ (forall (fuel : nat) (opts' : Opts.t) (w' : World) (i : nat),
          truthy_str (Opts.user opts') = false ->
          valid_time (lease_instant self opts' w') = true ->
          token_accepted self w' ->
          docs (collection (Queue.name self) w') !! i = Some d ->
          (forall j x, docs (collection (Queue.name self) w') !! j = Some x ->
                       j <> i -> eligible (claim_time w') x ->
                       (Doc._id d < Doc._id x)%N) ->
          four_digit_year (clock w' (reads w')) ->
          add_instant self opts w < clock w' (reads w') ->
          exists (d' : doc) (w'' : World),
            claim self opts' w' = (Ok (Some d'), w'')
            /\ docs (collection (Queue.name self) w'')
               = <[i := d']> (docs (collection (Queue.name self) w'))
            /\ Doc._id d' = Doc._id d
            /\ Doc.payload d' = payload
            /\ Doc.tries d' = Some 1
            /\ (dead_lettered self d' = false ->
                exists m : message,
                  get (S fuel) self opts' w' = (Ok (Some m), w'')
                  /\ Msg.id m = toHexString (Doc._id d)
                  /\ Msg.payload m = payload
                  /\ Msg.tries m = Some 1))
    /\ (forall (fuel : nat) (opts' : Opts.t) (w' : World),
          truthy_str (Opts.user opts') = false ->
          valid_time (lease_instant self opts' w') = true ->
          Forall (fun x => x = d \/ ~ eligible (claim_time w') x)
                 (docs (collection (Queue.name self) w')) ->
          four_digit_year (clock w' (reads w')) ->
          clock w' (reads w') <= add_instant self opts w ->
          get (S fuel) self opts' w' = (Ok None, after_claim_reads w')).
Proof.
  intros HD Fnow Fvis.
  pose proof (add_unfold self payload opts w (four_digit_valid _ Fvis)) as Hadd.
  exists (fresh_doc (nextId w) (iso (add_instant self opts w)) payload).
  eexists. split; [exact Hadd|].
  cbn [fresh_doc Doc._id Doc.payload Doc.visible Doc.deleted Doc.tries].
  split; [by rewrite insertOne_docs|].
  split; [done|]. split; [done|]. split; [done|].
  assert (Hnz : D <> 0 -> add_instant self opts w = clock w (reads w) + D * 1000).
  { intros Hne. unfold add_instant. by rewrite HD, or_num_given. }
  assert (Hz : D = 0 ->
               add_instant self opts w = clock w (reads w) + Queue.delay self * 1000).
  { intros ->. unfold add_instant. by rewrite HD. }
  split; [intros Hne; by rewrite Hnz|].
  split; [intros He; by rewrite Hz|].
  assert (Hel : forall t : Z, four_digit_year t ->
            (eligible (iso t) (fresh_doc (nextId w) (iso (add_instant self opts w))
                                 payload)
             <-> add_instant self opts w < t)).
  { intros t Ft. rewrite (eligible_in_time t (add_instant self opts w)) by done.
    cbn [fresh_doc Doc.deleted]. tauto. }
  split; [exact Hel|].
  split.
  { intros t Ft Hmono He. apply Hel in He; [|done].
    destruct (decide (D = 0)) as [->|Hne]; [lia|].
    rewrite Hnz in He by done. lia. }
  split.
  - intros fuel opts' w' i Hu Hv Hfree Hi Hfirst Fw' Hlt.
    assert (Hnow : eligible (claim_time w')
                     (fresh_doc (nextId w) (iso (add_instant self opts w)) payload))
      by (by apply Hel).
    pose proof (first_in_line self opts' w' i _ Hu Hv Hfree Hi Hnow Hfirst) as Hc.
    eexists _, _. split; [exact Hc|]. rewrite docs_with_docs.
    do 4 (split; [reflexivity|]).
    intros Hdl. eexists. split; [by apply get_delivers|]. done.
  - intros fuel opts' w' Hu Hv Hall Fw' Hle. apply nothing_eligible; [done|done|].
    apply Forall_forall. intros x Hx. rewrite Forall_forall in Hall.
    destruct (Hall x Hx) as [->|Hno]; [|done].
    intros He. apply (proj1 (Hel (clock w' (reads w')) Fw')) in He. lia.
Qed.

(* ===================================================================== *)
(** ** The claimant and the stamp of the first claim *)
(* ===================================================================== *)

(** C8, on the code.  [get] puts a claimant into the update document as
    a key of its own beside [$inc] and [$set], not inside [$set]; the
    store refuses such a document, so a [get] with a claimant fails
    without claiming anything (with the store's error, or with
    [RangeError] when the lease end is no date in the range of [Date],
    which [get] finds out first).  And no call ever changes the [user]
    field of a stored document. *)
Theorem get_with_claimant_is_refused
    (fuel : nat) (self : Queue.t) (opts : Opts.t) (w : World) :
  truthy_str (Opts.user opts) = true ->
  (valid_time (lease_instant self opts w) = true ->
   get (S fuel) self opts w
   = (Err (MongoError "Unknown modifier: user"), after_claim_reads w))
  /\ (valid_time (lease_instant self opts w) = false ->
      get (S fuel) self opts w
      = (Err (RangeError "Invalid time value"), tick (draw (tick w))))
  /\ db (snd (get (S fuel) self opts w)) = db w
  /\ db (after_claim_reads w) = db w
  /\ (forall (calls : list call) (name : string) (i : nat) (d : doc),
        docs (collection name w) !! i = Some d ->
        exists d' : doc,
          docs (collection name (foldl perform w calls)) !! i = Some d'
          /\ Doc.user d' = Doc.user d).
Proof.
  intros Hu.
  assert (H1 : valid_time (lease_instant self opts w) = true ->
               get (S fuel) self opts w
               = (Err (MongoError "Unknown modifier: user"), after_claim_reads w)).
  { intros Hv. apply get_fails. by apply claim_refused. }
  assert (H2 : valid_time (lease_instant self opts w) = false ->
               get (S fuel) self opts w
               = (Err (RangeError "Invalid time value"), tick (draw (tick w)))).
  { intros Hv. apply get_fails. by apply claim_throws. }
  split; [exact H1|]. split; [exact H2|]. split; [|split].
  - destruct (valid_time (lease_instant self opts w)); [by rewrite H1|by rewrite H2].
  - reflexivity.
  - intros calls name i d Hi.
    destruct (evolves_calls calls w name i d Hi) as (d' & Hd' & _ & _ & Hus & _).
    eauto.
Qed.

(** C4, on the code.  [firstClaimed] is in the [$set] of every claim, so
    a second claim of the same message overwrites the stamp of the first:
    the message of [one_quick_job] is claimed with the stamp of the third
    second, its lease of one second runs out, and the next [get] hands
    out the same message with the stamp of the sixth second. *)
Theorem firstClaimed_is_overwritten_by_second_claim :
  exists (m1 m2 : message) (w1 w2 : World),
    get 1 quick noOpts one_quick_job = (Ok (Some m1), w1)
    /\ get 1 quick noOpts w1 = (Ok (Some m2), w2)
    /\ Msg.id m1 = "000000000000000000000001"
    /\ Msg.id m2 = "000000000000000000000001"
    /\ Msg.tries m1 = Some 1
    /\ Msg.tries m2 = Some 2
    /\ Msg.firstClaimed m1 = Some "1970-01-01T00:00:03.000Z"
    /\ Msg.firstClaimed m2 = Some "1970-01-01T00:00:06.000Z".
Proof.
  eexists _, _, _, _.
  split; [vm_compute; reflexivity|].
  split; [vm_compute; reflexivity|].
  repeat split.
Qed.

(* ===================================================================== *)
(** ** The payload of a dead letter *)
(* ===================================================================== *)

(** C10. On the dead-letter path [get] adds to the dead-letter queue the
    whole message object it was about to hand out: the identifier of the
    source document, the token just written, the incremented [tries], the
    new [visible], the stamp and the source payload are inside it.  The
    [add] throws [RangeError] when the delay of the dead-letter queue is
    not 0 and leads out of the range of [Date]; otherwise it appends to
    the collection of the dead-letter queue one document with that
    object as its payload.  Whatever calls follow, [clean] among them, a
    message that [get] on the dead-letter queue delivers from that
    document has this object as its payload. *)
Theorem dead_letter_payload_is_whole_message
    (fuel : nat) (self dq : Queue.t) (opts : Opts.t) (w w1 : World) (d : doc) :
  Queue.deadQueue self = Some dq ->
  claim self opts w = (Ok (Some d), w1) ->
  dead_lettered self d = true ->
  exists d0 : doc,
    d0 ∈ docs (collection (Queue.name self) w)
    /\ message_of d
       = {| Msg.id := toHexString (Doc._id d0);
            Msg.visible := iso (lease_instant self opts w);
            Msg.payload := Doc.payload d0;
            Msg.ack := Some (hex_of_bytes (entropy w (draws w) 16));
            Msg.tries := Some (tries_of d0 + 1);
            Msg.firstClaimed := Some (iso (clock w (S (S (reads w)))));
            Msg.user := Doc.user d0;
            Msg.deleted := None |}
    /\ get (S fuel) self opts w
       = (let* _ := add dq (VMsg (message_of d)) noOpts in
          let* _ := ack self (Doc.ack d) in
          get fuel self noOpts) w1
    /\ (Queue.delay dq <> 0 ->
        valid_time (clock w1 (reads w1) + Queue.delay dq * 1000) = false ->
        add dq (VMsg (message_of d)) noOpts w1
        = (Err (RangeError "Invalid time value"), tick w1)
        /\ get (S fuel) self opts w
           = (Err (RangeError "Invalid time value"), tick w1))
    /\ (Queue.delay dq = 0
        \/ valid_time (clock w1 (reads w1) + Queue.delay dq * 1000) = true ->
        exists (dead : doc) (w2 : World),
          add dq (VMsg (message_of d)) noOpts w1
          = (Ok (toHexString (Doc._id dead)), w2)
          /\ docs (collection (Queue.name dq) w2)
             = (docs (collection (Queue.name dq) w1) ++ [dead])%list
          /\ Doc.payload dead = VMsg (message_of d)
          /\ get (S fuel) self opts w
             = (let* _ := ack self (Doc.ack d) in get fuel self noOpts) w2
          /\ (forall (requests : list request) (fuel' : nat) (opts' : Opts.t)
                     (m : message) (w4 : World) (j : nat),
                track requests w2 (Queue.name dq)
                  (length (docs (collection (Queue.name dq) w1))) = Some j ->
                get fuel' dq opts' (foldl serve w2 requests) = (Ok (Some m), w4) ->
                exists (j2 : nat) (x2 : doc),
                  docs (collection (Queue.name dq) w4) !! j2 = Some x2
                  /\ Msg.id m = toHexString (Doc._id x2)
                  /\ Msg.payload m = Doc.payload x2
                  /\ (j2 = j -> Msg.payload m = VMsg (message_of d)))).
Proof.
  intros Hdq Hc Hdl.
  pose proof Hc as Hinv.
  apply claim_Some_inv in Hinv as (i & d0 & Hi0 & [_ Hdel0] & Hd & Hw1).
  assert (Hjs : js_gt (Doc.tries d) (Queue.maxRetries self) = true).
  { unfold dead_lettered in Hdl. by rewrite Hdq in Hdl. }
  pose proof (get_hands_off fuel self dq opts w w1 d Hc Hdq Hjs) as Hget.
  exists d0.
  split; [apply list_elem_of_lookup; eauto|].
  split.
  { rewrite Hd. unfold message_of, claimed. cbn. by rewrite Hdel0. }
  split; [exact Hget|]. split.
  - intros Hdelay Hinvalid.
    pose proof (add_throws dq (VMsg (message_of d)) noOpts w1 Hdelay Hinvalid) as Hadd.
    split; [exact Hadd|]. rewrite Hget. unfold bind at 1. by rewrite Hadd.
  - intros Hdated.
    destruct (add_cases dq (VMsg (message_of d)) noOpts w1)
      as [[Hadd _]|(_ & Hnz' & Hinv')].
    2:{ exfalso. rewrite add_instant_noOpts in Hinv'.
        destruct Hdated as [H0|Hv]; [by apply Hnz'|congruence]. }
    set (dead := fresh_doc (nextId w1) (iso (add_instant dq noOpts w1))
                   (VMsg (message_of d))).
    set (w2 := snd (insertOne (Queue.name dq) (iso (add_instant dq noOpts w1))
                      (VMsg (message_of d)) (tick w1))) in *.
    assert (Hdocs : docs (collection (Queue.name dq) w2)
                    = (docs (collection (Queue.name dq) w1) ++ [dead])%list).
    { by rewrite (add_docs _ _ _ _ _ _ Hadd). }
    exists dead, w2.
    split; [exact Hadd|]. split; [exact Hdocs|]. split; [reflexivity|].
    split.
    { rewrite Hget. unfold bind at 1. by rewrite Hadd. }
    intros requests fuel' opts' m w4 j Htrack Hg.
    assert (Hk : docs (collection (Queue.name dq) w2)
                   !! length (docs (collection (Queue.name dq) w1)) = Some dead).
    { rewrite Hdocs. by apply list_lookup_middle. }
    destruct (tracked requests w2 (Queue.name dq) _ j dead Hk Htrack)
      as (dead1 & Hdead1 & _ & Hp1 & _).
    pose proof (steady_get fuel' dq opts' (foldl serve w2 requests)) as Hs.
    rewrite Hg in Hs. cbn [snd] in Hs.
    destruct (Hs _ _ _ Hdead1) as (dead2 & Hdead2 & _ & Hp2 & _).
    apply get_Some_position in Hg as (j2 & x0 & a & v & f & Hj2 & -> & _).
    exists j2, (claimed x0 a v f).
    split; [exact Hj2|]. split; [reflexivity|]. split; [reflexivity|].
    intros ->. rewrite Hj2 in Hdead2. injection Hdead2 as <-.
    cbn [message_of Msg.payload]. by rewrite Hp2, Hp1.
Qed.

(* ===================================================================== *)
(** ** The statements at work on the example worlds *)
(* ===================================================================== *)

(** C1 as stated fails for a message whose [visible] lies beyond the year
    9999: the message of [far_job] becomes visible in the year 11476, the
    clock reads one second past the epoch, and [get] claims the message
    and hands it out. *)
Lemma get_claims_a_message_of_the_year_11476 :
  docs (collection "jobs" far_job)
  = [fresh_doc 1 (iso 300000000000000) (VData "far")]
  /\ iso 300000000000000 = "+011476-08-15T05:20:00.000Z"
  /\ claim_time far_job = iso 1000
  /\ iso 1000 = "1970-01-01T00:00:01.000Z"
  /\ 1000 < 300000000000000
  /\ fst (get 1 jobs noOpts far_job)
     = Ok (Some {| Msg.id := "000000000000000000000001";
                   Msg.visible := "1970-01-01T00:00:32.000Z";
                   Msg.payload := VData "far";
                   Msg.ack := Some first_token;
                   Msg.tries := Some 1;
                   Msg.firstClaimed := Some "1970-01-01T00:00:03.000Z";
                   Msg.user := None;
                   Msg.deleted := None |}).
Proof.
  split; [vm_compute; reflexivity|]. split; [vm_compute; reflexivity|].
  split; [vm_compute; reflexivity|]. split; [vm_compute; reflexivity|].
  split; [lia|]. vm_compute. reflexivity.
Qed.

Lemma get_claims_least_eligible_witness :
  exists w' : World,
    get 1 jobs patient two_jobs
    = (Ok (Some {| Msg.id := "000000000000000000000001";
                   Msg.visible := "1970-01-01T00:01:03.000Z";
                   Msg.payload := VData "a";
                   Msg.ack := Some first_token;
                   Msg.tries := Some 1;
                   Msg.firstClaimed := Some "1970-01-01T00:00:04.000Z";
                   Msg.user := None;
                   Msg.deleted := None |}), w')
    /\ (forall (j : nat) (x : doc),
          docs (collection "jobs" w') !! j = Some x ->
          Doc.ack x = Some first_token -> j = 0%nat).
Proof.
  destruct (get_claims_least_eligible 0 jobs patient two_jobs)
    as [[(Hnone & _)|(i & d & Hi & _ & _ & [(Hon & _)|Hok])] _].
  - reflexivity.
  - vm_compute. reflexivity.
  - exfalso. apply (Forall_inv Hnone). vm_compute. split; reflexivity.
  - vm_compute in Hon. discriminate Hon.
  - destruct Hok as (d' & w' & Hc & _ & _ & Hid & _ & _ & _ & _ & _ & _ & _ & _
                     & Huniq & Hget).
    destruct (Hget eq_refl) as (m & Hg & _).
    assert (Hfst : fst (get 1 jobs patient two_jobs)
                   = Ok (Some {| Msg.id := "000000000000000000000001";
                                 Msg.visible := "1970-01-01T00:01:03.000Z";
                                 Msg.payload := VData "a";
                                 Msg.ack := Some first_token;
                                 Msg.tries := Some 1;
                                 Msg.firstClaimed := Some "1970-01-01T00:00:04.000Z";
                                 Msg.user := None;
                                 Msg.deleted := None |}))
      by (vm_compute; reflexivity).
    assert (Hclaim : fst (claim jobs patient two_jobs)
                     = Ok (Some (claimed (fresh_doc 1 "1970-01-01T00:00:00.000Z"
                                            (VData "a"))
                                   first_token "1970-01-01T00:01:03.000Z"
                                   "1970-01-01T00:00:04.000Z")))
      by (vm_compute; reflexivity).
    rewrite Hg in Hfst. cbn [fst] in Hfst. injection Hfst as ->.
    rewrite Hc in Hclaim. cbn [fst] in Hclaim. injection Hclaim as ->.
    exists w'. split; [exact Hg|].
    assert (Hnew : Forall (fun x => Doc.ack x <> Some first_token)
                     (docs (collection "jobs" two_jobs))) by by_evaluation.
    intros j x Hj Hx. assert (Hji : j = i).
    { apply (Huniq (or_intror Hnew) j x Hj). exact Hx. }
    subst j. destruct i as [|[|i]]; [reflexivity| |].
    + vm_compute in Hi. injection Hi as <-.
      vm_compute in Hid. discriminate Hid.
    + vm_compute in Hi. discriminate Hi.
Defined.

(** C2 as stated fails in two ways.  A queue constructed with
    [maxRetries: 0] has [maxRetries] 5: the message of [one_strict_job]
    is claimed with [tries] 1, which exceeds 0, and [get] hands it to the
    caller.  And on [brittle], whose leases last one second, the lease
    written by the claim has run out when [ack] reads the clock: [get]
    fails with "Unidentified ack", the message stays without [deleted]
    and no further claim is made, while the copy sits in the dead-letter
    collection. *)
Lemma hand_off_fails_for_maxRetries_zero_and_for_a_short_lease :
  (Queue true "strict" (Some strict_opts) = Ok strict
   /\ QueueOpts.maxRetries strict_opts = Some 0
   /\ fst (get 1 strict noOpts one_strict_job)
      = Ok (Some {| Msg.id := "000000000000000000000001";
                    Msg.visible := "1970-01-01T00:00:32.000Z";
                    Msg.payload := VData "job";
                    Msg.ack := Some first_token;
                    Msg.tries := Some 1;
                    Msg.firstClaimed := Some "1970-01-01T00:00:03.000Z";
                    Msg.user := None;
                    Msg.deleted := None |}))
  /\
  (Queue true "brittle" (Some brittle_opts) = Ok brittle
   /\ QueueOpts.maxRetries brittle_opts = Some 1
   /\ fst (claim brittle noOpts one_brittle_job)
      = Ok (Some (claimed quick_doc second_token "1970-01-01T00:00:06.000Z"
                    "1970-01-01T00:00:06.000Z"))
   /\ fst (get 2 brittle noOpts one_brittle_job)
      = Err (Error ("Queue.ack(): Unidentified ack : " +:+ second_token))
   /\ docs (collection "brittle" (snd (get 2 brittle noOpts one_brittle_job)))
      = [claimed quick_doc second_token "1970-01-01T00:00:06.000Z"
           "1970-01-01T00:00:06.000Z"]
   /\ length (docs (collection "morgue" (snd (get 2 brittle noOpts one_brittle_job))))
      = 1%nat).
Proof.
  split.
  - split; [reflexivity|]. split; [reflexivity|]. vm_compute. reflexivity.
  - split; [reflexivity|]. split; [reflexivity|].
    split; [vm_compute; reflexivity|]. split; [vm_compute; reflexivity|].
    split; vm_compute; reflexivity.
Qed.

Lemma get_hands_exhausted_message_to_dead_queue_witness :
  Queue true "fragile" (Some fragile_opts) = Ok fragile
  /\ exists w2 w3 : World,
       add morgue (VMsg (message_of exhausted_doc)) noOpts
           (snd (claim fragile noOpts one_fragile_job))
       = (Ok "000000000000000000000002", w2)
       /\ ack fragile (Some second_token) w2 = (Ok "000000000000000000000001", w3)
       /\ docs (collection "fragile" w3)
          = [finalized exhausted_doc "1970-01-01T00:00:13.000Z"]
       /\ get 2 fragile noOpts one_fragile_job = get 1 fragile noOpts w3
       /\ fst (get 2 fragile noOpts one_fragile_job) = Ok None.
Proof.
  split; [reflexivity|].
  destruct (get_hands_exhausted_message_to_dead_queue
              1 "fragile" fragile_opts fragile morgue 1 noOpts one_fragile_job
              (snd (claim fragile noOpts one_fragile_job)) exhausted_doc)
    as (i & Hi & Htok & Hget & _ & Hadd & _ & _).
  - reflexivity.
  - reflexivity.
  - reflexivity.
  - discriminate.
  - vm_compute. reflexivity.
  - vm_compute. reflexivity.
  - destruct Hadd as (w2 & Hadd & Hdocs & Hget2 & Hack); [by left|].
    assert (Hw2 : w2 = snd (add morgue (VMsg (message_of exhausted_doc)) noOpts
                              (snd (claim fragile noOpts one_fragile_job))))
      by (by rewrite Hadd).
    assert (Hi0 : i = 0%nat).
    { destruct i as [|i]; [reflexivity|]. vm_compute in Hi. discriminate Hi. }
    subst i.
    destruct Hack as [Hruns _].
    { intros [|j] x Hj Hx; [reflexivity|]. vm_compute in Hj. discriminate Hj. }
    destruct Hruns as (w3 & Hack & Hdone & Hrec).
    { rewrite Hw2. vm_compute. reflexivity. }
    exists w2, w3. split; [exact Hadd|]. split; [exact Hack|]. split.
    + assert (Hw3 : w3 = snd (ack fragile (Some (token one_fragile_job)) w2))
        by (by rewrite Hack).
      rewrite Hw3, Hw2. vm_compute. reflexivity.
    + split; [exact Hrec|]. vm_compute. reflexivity.
Defined.

(** C3 as stated fails in both directions.  A lease that ends beyond the
    year 9999: after a [get] that asked for a lease of 3e11 seconds the
    first message of [two_jobs] holds the token, has no [deleted] and a
    [visible] in the year 11476, far after the clock reading of five
    seconds past the epoch, and yet [ack] with the token fails.  A lease
    that ran out: the lease of the message of [lease_at_dusk] ended two
    seconds before the year 10000, and at a clock reading one second into
    that year [ack] with the token succeeds and sets [deleted]. *)
Lemma ack_fails_on_a_lease_that_ends_in_the_year_11476 :
  (docs (collection "jobs" two_jobs_one_leased_for_ages) !! 0%nat
   = Some (claimed (fresh_doc 1 "1970-01-01T00:00:00.000Z" (VData "a"))
             first_token (iso 300000000003000) "1970-01-01T00:00:04.000Z")
   /\ iso 300000000003000 = "+011476-08-15T05:20:03.000Z"
   /\ claim_time two_jobs_one_leased_for_ages = iso 5000
   /\ 5000 < 300000000003000
   /\ ack jobs (Some first_token) two_jobs_one_leased_for_ages
      = (Err (Error ("Queue.ack(): Unidentified ack : " +:+ first_token)),
         tick (tick two_jobs_one_leased_for_ages)))
  /\
  (docs (collection "quick" lease_at_dusk)
   = [claimed (fresh_doc 1 "9999-12-31T23:59:53.000Z" (VData "job")) first_token
        (iso 253402300798000) "9999-12-31T23:59:59.000Z"]
   /\ claim_time lease_at_dusk = iso 253402300801000
   /\ 253402300798000 < 253402300801000
   /\ fst (ack quick (Some first_token) lease_at_dusk)
      = Ok "000000000000000000000001"
   /\ docs (collection "quick" (snd (ack quick (Some first_token) lease_at_dusk)))
      = [finalized
           (claimed (fresh_doc 1 "9999-12-31T23:59:53.000Z" (VData "job"))
              first_token "9999-12-31T23:59:58.000Z" "9999-12-31T23:59:59.000Z")
           "+010000-01-01T00:00:03.000Z"]).
Proof.
  split.
  - split; [vm_compute; reflexivity|]. split; [vm_compute; reflexivity|].
    split; [vm_compute; reflexivity|]. split; [lia|]. vm_compute. reflexivity.
  - split; [vm_compute; reflexivity|]. split; [vm_compute; reflexivity|].
    split; [lia|]. split; vm_compute; reflexivity.
Qed.

Lemma ack_succeeds_iff_lease_held_witness :
  exists w1 : World,
    ack jobs (Some first_token) two_jobs_one_leased
    = (Ok "000000000000000000000001", w1)
    /\ docs (collection "jobs" w1) !! 0%nat
       = Some (finalized leased_a "1970-01-01T00:00:06.000Z")
    /\ ack jobs (Some first_token) w1
       = (Err (Error ("Queue.ack(): Unidentified ack : " +:+ first_token)),
          tick (tick w1)).
Proof.
  destruct (ack_succeeds_iff_lease_held jobs first_token two_jobs_one_leased)
    as (_ & _ & Htwice & _).
  exists (snd (ack jobs (Some first_token) two_jobs_one_leased)).
  assert (Hfirst : ack jobs (Some first_token) two_jobs_one_leased
                   = (Ok "000000000000000000000001",
                      snd (ack jobs (Some first_token) two_jobs_one_leased)))
    by (vm_compute; reflexivity).
  split; [exact Hfirst|]. split; [vm_compute; reflexivity|].
  apply (Htwice) with (r := "000000000000000000000001"); [|exact Hfirst].
  intros [|[|i]] [|[|j]] x y Hx Hy Hax Hay; try reflexivity;
    vm_compute in Hx, Hy; try discriminate Hx; try discriminate Hy;
    injection Hx as <-; injection Hy as <-; discriminate.
Defined.

(** C5 as stated fails in two ways.  The lease of the message of
    [one_quick_lease] is over, and a [get] that asks for a lease of 1e13
    seconds throws [RangeError] instead of claiming it.  And the lease of
    the message of [lease_at_dusk] ended two seconds before the year
    10000; at a clock reading one second into that year [get] comes back
    empty. *)
Lemma expired_lease_is_not_claimable_by_every_get :
  (docs (collection "quick" one_quick_lease) = [quick_doc]
   /\ Doc.visible quick_doc = iso 3000
   /\ claim_time one_quick_lease = iso 4000
   /\ 3000 < 4000
   /\ fst (get 1 quick (lease_of 10000000000000) one_quick_lease)
      = Err (RangeError "Invalid time value")
   /\ docs (collection "quick"
              (snd (get 1 quick (lease_of 10000000000000) one_quick_lease)))
      = [quick_doc])
  /\
  (docs (collection "quick" lease_at_dusk)
   = [claimed (fresh_doc 1 "9999-12-31T23:59:53.000Z" (VData "job")) first_token
        (iso 253402300798000) "9999-12-31T23:59:59.000Z"]
   /\ iso 253402300798000 = "9999-12-31T23:59:58.000Z"
   /\ claim_time lease_at_dusk = iso 253402300801000
   /\ iso 253402300801000 = "+010000-01-01T00:00:01.000Z"
   /\ 253402300798000 < 253402300801000
   /\ fst (get 1 quick noOpts lease_at_dusk) = Ok None).
Proof.
  split.
  - split; [vm_compute; reflexivity|]. split; [vm_compute; reflexivity|].
    split; [vm_compute; reflexivity|]. split; [lia|].
    split; vm_compute; reflexivity.
  - split; [vm_compute; reflexivity|]. split; [vm_compute; reflexivity|].
    split; [vm_compute; reflexivity|]. split; [vm_compute; reflexivity|].
    split; [lia|]. vm_compute. reflexivity.
Qed.

Lemma expired_lease_is_claimable_again_witness :
  claim_time one_quick_lease = iso 4000
  /\ Doc.visible quick_doc = iso 3000
  /\ exists w' : World,
       get 1 quick noOpts one_quick_lease
       = (Ok (Some {| Msg.id := "000000000000000000000001";
                      Msg.visible := "1970-01-01T00:00:06.000Z";
                      Msg.payload := VData "job";
                      Msg.ack := Some second_token;
                      Msg.tries := Some 2;
                      Msg.firstClaimed := Some "1970-01-01T00:00:06.000Z";
                      Msg.user := None;
                      Msg.deleted := None |}), w').
Proof.
  split; [vm_compute; reflexivity|]. split; [vm_compute; reflexivity|].
  destruct (expired_lease_is_claimable_again
              0 quick noOpts one_quick_lease 0 quick_doc first_token 3000)
    as (_ & _ & Hclaim).
  - vm_compute. reflexivity.
  - reflexivity.
  - reflexivity.
  - vm_compute. reflexivity.
  - vm_compute. split; [discriminate|reflexivity].
  - vm_compute. split; [discriminate|reflexivity].
  - vm_compute. reflexivity.
  - destruct Hclaim as [_ Hfirst].
    + reflexivity.
    + vm_compute. reflexivity.
    + by left.
    + destruct Hfirst as (d' & w' & _ & _ & _ & _ & _ & _ & _ & Hget).
      * intros [|j] x Hj Hne; [exfalso; apply Hne; reflexivity|].
        vm_compute in Hj. discriminate Hj.
      * destruct Hget as (m & Hg & _).
        { reflexivity. }
        exists w'. rewrite Hg. f_equal. f_equal.
        assert (Hfst : fst (get 1 quick noOpts one_quick_lease)
                       = Ok (Some {| Msg.id := "000000000000000000000001";
                                     Msg.visible := "1970-01-01T00:00:06.000Z";
                                     Msg.payload := VData "job";
                                     Msg.ack := Some second_token;
                                     Msg.tries := Some 2;
                                     Msg.firstClaimed := Some "1970-01-01T00:00:06.000Z";
                                     Msg.user := None;
                                     Msg.deleted := None |}))
          by (vm_compute; reflexivity).
        rewrite Hg in Hfst. cbn [fst] in Hfst. by injection Hfst as ->.
Defined.

(** C6 as stated fails in three ways.  At the boundary: the message of
    [one_delayed_job] was added at the epoch with a delay of one second;
    a [get] whose clock reads exactly one second later comes back empty.
    Beyond the year 9999: the message of [far_job] was added with a delay
    of 3e11 seconds, and a [get] one second later hands it out.  Beyond
    the range of [Date]: [add] with a delay of 1e13 seconds throws and
    stores nothing. *)
Lemma get_at_the_visible_instant_is_empty :
  (docs (collection "jobs" one_delayed_job) = [fresh_doc 1 (iso 1000) (VData "job")]
   /\ claim_time one_delayed_job = iso 1000
   /\ clock one_delayed_job (reads one_delayed_job) = clock genesis (reads genesis) + 1 * 1000
   /\ get 1 jobs noOpts one_delayed_job
      = (Ok None, after_claim_reads one_delayed_job))
  /\
  (docs (collection "jobs" far_job)
   = [fresh_doc 1 (iso (clock genesis (reads genesis) + 300000000000 * 1000))
        (VData "far")]
   /\ clock far_job (reads far_job)
      < clock genesis (reads genesis) + 300000000000 * 1000
   /\ exists m : message,
        fst (get 1 jobs noOpts far_job) = Ok (Some m)
        /\ Msg.id m = "000000000000000000000001"
        /\ Msg.payload m = VData "far")
  /\
  (add jobs (VData "job") (delayed 10000000000000) genesis
   = (Err (RangeError "Invalid time value"), tick genesis)
   /\ db (tick genesis) = db genesis).
Proof.
  split; [|split].
  - split; [vm_compute; reflexivity|]. split; [reflexivity|].
    split; [vm_compute; reflexivity|]. vm_compute. reflexivity.
  - split; [vm_compute; reflexivity|]. split; [vm_compute; reflexivity|].
    eexists. split; [vm_compute; reflexivity|]. split; reflexivity.
  - split; [vm_compute; reflexivity|reflexivity].
Qed.

Lemma delayed_message_waits_until_visible_witness :
  exists d : doc,
    docs (collection "jobs" one_delayed_job) = [d]
    /\ Doc.visible d = "1970-01-01T00:00:01.000Z"
    /\ clock one_delayed_job (reads one_delayed_job) = 1000
    /\ get 1 jobs noOpts one_delayed_job
       = (Ok None, after_claim_reads one_delayed_job)
    /\ clock (idle 1 one_delayed_job) (reads (idle 1 one_delayed_job)) = 2000
    /\ fst (get 1 jobs noOpts (idle 1 one_delayed_job))
       = Ok (Some {| Msg.id := "000000000000000000000001";
                     Msg.visible := "1970-01-01T00:00:33.000Z";
                     Msg.payload := VData "job";
                     Msg.ack := Some first_token;
                     Msg.tries := Some 1;
                     Msg.firstClaimed := Some "1970-01-01T00:00:04.000Z";
                     Msg.user := None;
                     Msg.deleted := None |}).
Proof.
  destruct (delayed_message_waits_until_visible
              jobs (VData "job") (delayed 1) 1 genesis)
    as (d & w1 & Hadd & Hdocs & _ & _ & _ & Hvis & _ & _ & _ & Hdeliver & Hempty).
  - reflexivity.
  - vm_compute. split; [discriminate|reflexivity].
  - vm_compute. split; [discriminate|reflexivity].
  - assert (Hw1 : w1 = one_delayed_job).
    { unfold one_delayed_job. by rewrite Hadd. }
    subst w1.
    assert (Hl : docs (collection "jobs" one_delayed_job)
                 = [fresh_doc 1 "1970-01-01T00:00:01.000Z" (VData "job")])
      by (vm_compute; reflexivity).
    assert (Hd : d = fresh_doc 1 "1970-01-01T00:00:01.000Z" (VData "job")).
    { change (Queue.name jobs) with "jobs" in Hdocs. rewrite Hl in Hdocs.
      change (docs (collection "jobs" genesis)) with (@nil doc) in Hdocs.
      by injection Hdocs as <-. }
    exists d. split; [by rewrite Hl, Hd|]. split; [by rewrite Hd|].
    split; [vm_compute; reflexivity|]. split; [|split; [vm_compute; reflexivity|]].
    + apply Hempty.
      * reflexivity.
      * vm_compute. reflexivity.
      * apply Forall_forall. intros x Hx. left.
        change (Queue.name jobs) with "jobs" in Hx.
        rewrite Hl, <- Hd in Hx. by apply list_elem_of_singleton in Hx.
      * vm_compute. split; [discriminate|reflexivity].
      * vm_compute. discriminate.
    + destruct (Hdeliver 0%nat noOpts (idle 1 one_delayed_job) 0%nat)
        as (d' & w'' & _ & _ & _ & _ & _ & Hget).
      * reflexivity.
      * vm_compute. reflexivity.
      * left. vm_compute. reflexivity.
      * rewrite Hd. vm_compute. reflexivity.
      * intros [|j] x Hj Hne; [exfalso; apply Hne; reflexivity|].
        vm_compute in Hj. discriminate Hj.
      * vm_compute. split; [discriminate|reflexivity].
      * vm_compute. reflexivity.
      * vm_compute. reflexivity.
Defined.

(** C7 as stated fails in two ways.  A lease that ran out is renewed:
    the lease of the message of [lease_at_dusk] ended two seconds before
    the year 10000; at a clock reading one second into that year no
    message holds the token with a [visible] still to come, and yet
    [ping] with the token succeeds and moves [visible].  And the failure
    is not always "Unidentified ack": no document of [two_jobs] holds a
    token, and a [ping] that asks for a lease of 1e13 seconds throws
    [RangeError]. *)
Lemma ping_renews_a_lease_that_ran_out_in_the_year_9999 :
  (docs (collection "quick" lease_at_dusk)
   = [claimed (fresh_doc 1 "9999-12-31T23:59:53.000Z" (VData "job")) first_token
        (iso 253402300798000) "9999-12-31T23:59:59.000Z"]
   /\ iso 253402300798000 = "9999-12-31T23:59:58.000Z"
   /\ claim_time lease_at_dusk = iso 253402300801000
   /\ iso 253402300801000 = "+010000-01-01T00:00:01.000Z"
   /\ 253402300798000 < 253402300801000
   /\ fst (ping quick (Some first_token) noOpts lease_at_dusk)
      = Ok "000000000000000000000001"
   /\ docs (collection "quick"
              (snd (ping quick (Some first_token) noOpts lease_at_dusk)))
      = [claimed (fresh_doc 1 "9999-12-31T23:59:53.000Z" (VData "job"))
           first_token "+010000-01-01T00:00:04.000Z" "9999-12-31T23:59:59.000Z"])
  /\
  (docs (collection "jobs" two_jobs)
   = [fresh_doc 1 "1970-01-01T00:00:00.000Z" (VData "a");
      fresh_doc 2 "1970-01-01T00:00:01.000Z" (VData "b")]
   /\ Forall (fun d => Doc.ack d = None) (docs (collection "jobs" two_jobs))
   /\ ping jobs (Some first_token) (lease_of 10000000000000) two_jobs
      = (Err (RangeError "Invalid time value"), tick (tick two_jobs))).
Proof.
  split.
  - split; [vm_compute; reflexivity|]. split; [vm_compute; reflexivity|].
    split; [vm_compute; reflexivity|]. split; [vm_compute; reflexivity|].
    split; [lia|]. split; vm_compute; reflexivity.
  - split; [vm_compute; reflexivity|].
    split; [vm_compute; repeat constructor|]. vm_compute. reflexivity.
Qed.

Lemma ping_extends_lease_witness :
  exists w1 : World,
    ping jobs (Some first_token) patient two_jobs_one_leased
    = (Ok "000000000000000000000001", w1)
    /\ docs (collection "jobs" two_jobs_one_leased) !! 0%nat = Some leased_a
    /\ docs (collection "jobs" w1) !! 0%nat
       = Some (renewed leased_a "1970-01-01T00:01:06.000Z").
Proof.
  destruct (ping_extends_lease jobs first_token patient two_jobs_one_leased)
    as [[(Hinv & _)|[(_ & Hnone & _)|(_ & i & d & d' & Hi & Hl & _ & Hping & _)]] _].
  - vm_compute in Hinv. discriminate Hinv.
  - exfalso. rewrite Forall_forall in Hnone. apply (Hnone leased_a).
    + apply list_elem_of_lookup. exists 0%nat. vm_compute. reflexivity.
    + vm_compute. split; [reflexivity|]. split; reflexivity.
  - exists (snd (ping jobs (Some first_token) patient two_jobs_one_leased)).
    split; [vm_compute; reflexivity|].
    split; vm_compute; reflexivity.
Defined.

Lemma get_with_claimant_is_refused_witness :
  get 1 jobs (as_user "alice") two_jobs
  = (Err (MongoError "Unknown modifier: user"), after_claim_reads two_jobs)
  /\ db (after_claim_reads two_jobs) = db two_jobs.
Proof.
  destruct (get_with_claimant_is_refused 0 jobs (as_user "alice") two_jobs)
    as (Hget & _ & _ & Hdb & _).
  - reflexivity.
  - split; [apply Hget; vm_compute; reflexivity|exact Hdb].
Defined.


Lemma dead_letter_payload_is_whole_message_witness :
  exists (dead : doc) (w2 : World),
    add morgue (VMsg (message_of exhausted_doc)) noOpts
      (snd (claim fragile noOpts one_fragile_job))
    = (Ok "000000000000000000000002", w2)
    /\ docs (collection "morgue" w2) = [dead]
    /\ Doc.payload dead
       = VMsg {| Msg.id := "000000000000000000000001";
                 Msg.visible := "1970-01-01T00:00:14.000Z";
                 Msg.payload := VData "job";
                 Msg.ack := Some second_token;
                 Msg.tries := Some 2;
                 Msg.firstClaimed := Some "1970-01-01T00:00:10.000Z";
                 Msg.user := None;
                 Msg.deleted := None |}
    /\ exists m : message,
         fst (get 1 morgue patient (foldl serve w2 [CallClean morgue]))
         = Ok (Some m)
         /\ Msg.id m = "000000000000000000000002"
         /\ Msg.payload m
            = VMsg {| Msg.id := "000000000000000000000001";
                      Msg.visible := "1970-01-01T00:00:14.000Z";
                      Msg.payload := VData "job";
                      Msg.ack := Some second_token;
                      Msg.tries := Some 2;
                      Msg.firstClaimed := Some "1970-01-01T00:00:10.000Z";
                      Msg.user := None;
                      Msg.deleted := None |}.
Proof.
  destruct (dead_letter_payload_is_whole_message
              1 fragile morgue noOpts one_fragile_job
              (snd (claim fragile noOpts one_fragile_job)) exhausted_doc)
    as (d0 & _ & Hmsg & _ & _ & Hadd).
  - reflexivity.
  - vm_compute. reflexivity.
  - reflexivity.
  - destruct Hadd as (dead & w2 & Hadd & Hdocs & Hpay & _ & Hlater); [by left|].
    exists dead, w2.
    assert (Hr : fst (add morgue (VMsg (message_of exhausted_doc)) noOpts
                        (snd (claim fragile noOpts one_fragile_job)))
                 = Ok "000000000000000000000002") by (vm_compute; reflexivity).
    assert (Hw2 : w2 = snd (add morgue (VMsg (message_of exhausted_doc)) noOpts
                              (snd (claim fragile noOpts one_fragile_job))))
      by (by rewrite Hadd).
    rewrite Hadd in Hr. cbn [fst] in Hr.
    split; [rewrite Hadd, Hr; reflexivity|]. split; [exact Hdocs|].
    split; [rewrite Hpay; reflexivity|].
    pose (m := {| Msg.id := "000000000000000000000002";
                  Msg.visible := "1970-01-01T00:01:13.000Z";
                  Msg.payload := VMsg (message_of exhausted_doc);
                  Msg.ack := Some third_token;
                  Msg.tries := Some 1;
                  Msg.firstClaimed := Some "1970-01-01T00:00:14.000Z";
                  Msg.user := None;
                  Msg.deleted := None |} : message).
    assert (Hg : get 1 morgue patient (foldl serve w2 [CallClean morgue])
                 = (Ok (Some m),
                    snd (get 1 morgue patient (foldl serve w2 [CallClean morgue])))).
    { rewrite Hw2. vm_compute. reflexivity. }
    destruct (Hlater [CallClean morgue] 1%nat patient m
                (snd (get 1 morgue patient (foldl serve w2 [CallClean morgue])))
                0%nat)
      as (j2 & x2 & Hj2 & _ & _ & Hwhole); [|exact Hg|].
    { rewrite Hw2. vm_compute. reflexivity. }
    exists m. split; [by rewrite Hg|]. split; [reflexivity|].
    apply Hwhole. destruct j2 as [|j2]; [reflexivity|].
    rewrite Hw2 in Hj2. vm_compute in Hj2. discriminate Hj2.
Defined.

(* ===================================================================== *)
(** ** The counters: [total], [done], [size], [inFlight] and [clean] *)
(* ===================================================================== *)

(** X1. [clean] removes from the queue's collection exactly the documents
    that have [deleted], keeps the others in their order, reports how many
    it removed, and touches no other collection, the clock or the index
    flag.  Hence afterwards [done] reports 0, [total] reports what it
    reported before minus what [done] reported before, [size] and
    [inFlight] report what they would have reported, and a second [clean]
    removes nothing. *)
Theorem clean_removes_the_done_messages (self : Queue.t) (w : World) :
  exists (n : nat) (w' : World),
    clean self w = (Ok n, w')
    /\ docs (collection (Queue.name self) w')
       = filter (fun d => Doc.deleted d = None)
                (docs (collection (Queue.name self) w))
    /\ fst (done self w) = Ok n
    /\ (forall name, name <> Queue.name self ->
                     collection name w' = collection name w)
    /\ ackUnique (collection (Queue.name self) w')
       = ackUnique (collection (Queue.name self) w)
    /\ reads w' = reads w
    /\ fst (done self w') = Ok O
    /\ (forall t : nat, fst (total self w) = Ok t ->
                        fst (total self w') = Ok (t - n)%nat)
    /\ fst (size self w') = fst (size self w)
    /\ fst (inFlight self w') = fst (inFlight self w)
    /\ fst (clean self w') = Ok O
    /\ docs (collection (Queue.name self) (snd (clean self w')))
       = docs (collection (Queue.name self) w').
Proof.
  exists (matching done_query (docs (collection (Queue.name self) w))),
         (snd (clean self w)).
  pose proof (clean_docs self w) as Hdocs.
  assert (Hreads : reads (snd (clean self w)) = reads w) by reflexivity.
  assert (Hclock : claim_time (snd (clean self w)) = claim_time w) by reflexivity.
  split; [reflexivity|]. split; [exact Hdocs|]. split; [reflexivity|].
  split.
  { intros name Hne. unfold clean, deleteMany. cbn [snd].
    by rewrite collection_set_ne. }
  split.
  { unfold clean, deleteMany. cbn [snd]. by rewrite collection_set_eq. }
  split; [exact Hreads|].
  split.
  { rewrite done_unfold. cbn [fst]. by rewrite Hdocs, filter_live_done. }
  split.
  { intros t. rewrite !total_unfold. cbn [fst]. rewrite Hdocs, !matching_total.
    intros Ht. injection Ht as <-. f_equal.
    pose proof (filter_live_length (docs (collection (Queue.name self) w))). lia. }
  split.
  { rewrite !size_unfold. cbn [fst]. rewrite Hdocs, Hclock.
    by rewrite filter_live_matching. }
  split.
  { rewrite !inFlight_unfold. cbn [fst]. rewrite Hdocs, Hclock.
    by rewrite filter_live_matching. }
  split.
  { change (fst (clean self (snd (clean self w))))
      with (Ok (matching done_query
                  (docs (collection (Queue.name self) (snd (clean self w)))))
            : result nat).
    by rewrite Hdocs, filter_live_done. }
  rewrite clean_docs, Hdocs. apply filter_live_idem.
Qed.

(** X2. For one timestamp every document of a queue is counted by
    exactly one of [done], [size], [inFlight] and a remainder that none
    of the three reports: the documents without [deleted] whose [visible]
    is neither below nor above the timestamp in the order of the store,
    or is above it while the document has no token.  So [total] is the
    sum of the four and the three counters never add up to more than
    [total].  Within the years 0000 to 9999 a message just added is in
    the remainder, counted by [total] only, exactly as long as the clock
    has not passed its [visible]. *)
Theorem counters_split_the_collection (self : Queue.t) (w : World) :
  exists nt nd ns nf : nat,
    fst (total self w) = Ok nt
    /\ fst (done self w) = Ok nd
    /\ fst (size self w) = Ok ns
    /\ fst (inFlight self w) = Ok nf
    /\ nt = (nd + ns + nf
             + uncounted_count (claim_time w)
                 (docs (collection (Queue.name self) w)))%nat
    /\ (nd + ns + nf <= nt)%nat
    /\ (forall (o : N) (v : Z) (p : value),
          four_digit_year v -> four_digit_year (clock w (reads w)) ->
          (uncounted (claim_time w) (fresh_doc o (iso v) p) = true
           <-> clock w (reads w) <= v)).
Proof.
  eexists _, _, _, _.
  split; [by rewrite total_unfold|]. split; [by rewrite done_unfold|].
  split; [by rewrite size_unfold|]. split; [by rewrite inFlight_unfold|].
  assert (Hsum : forall l : list doc,
            matching total_query l
            = (matching done_query l
               + matching (get_query (claim_time w)) l
               + matching (inFlight_query (claim_time w)) l
               + uncounted_count (claim_time w) l)%nat).
  { induction l as [|d l IH]; [reflexivity|].
    rewrite !matching_cons. cbn [uncounted_count].
    pose proof (one_counter_per_document (claim_time w) d).
    change (matches total_query d) with true. cbv iota.
    destruct (matches done_query d), (matches (get_query _) d),
      (matches (inFlight_query _) d), (uncounted _ d); lia. }
  split; [apply Hsum|]. split; [rewrite (Hsum _); lia|].
  intros o v p Fv Ft. unfold uncounted, claim_time.
  cbn [fresh_doc Doc.deleted Doc.ack Doc.visible present negb andb].
  rewrite (iso_order v _ Fv Ft), (iso_order _ v Ft Fv).
  destruct (Z.ltb_spec v (clock w (reads w))), (Z.ltb_spec (clock w (reads w)) v);
    cbn; split; intros; try lia; try done.
Qed.

(** X3. A successful [ack] makes [done] report exactly one more and
    leaves [total] as it was; an [ack] that fails does so with the error
    "Unidentified ack" and leaves every collection as it was. *)
Theorem ack_moves_one_message_to_done (self : Queue.t) (a : option string)
    (w : World) :
  (forall (r : string) (w1 : World),
     ack self a w = (Ok r, w1) ->
     (forall n : nat, fst (done self w) = Ok n -> fst (done self w1) = Ok (S n))
     /\ fst (total self w1) = fst (total self w)
     /\ S (live_count (docs (collection (Queue.name self) w1)))
        = live_count (docs (collection (Queue.name self) w)))
  /\
  (forall (e : error) (w1 : World),
     ack self a w = (Err e, w1) ->
     e = Error ("Queue.ack(): Unidentified ack : " +:+ js_str a)
     /\ db w1 = db w).
Proof.
  split.
  - intros r w1 Hok. split; [|split].
    + intros n. rewrite !done_unfold. cbn [fst]. intros Hn. injection Hn as <-.
      rewrite ack_unfold in Hok.
      destruct (findOne _ _ _) as [[i d]|] eqn:Hf; [|discriminate].
      injection Hok as _ <-. rewrite docs_with_docs.
      apply findOne_Some in Hf as (Hi & Hs & _).
      apply selects_spec in Hs as [Hm _].
      apply matches_lease_query in Hm as (_ & _ & Hd).
      pose proof (matching_insert done_query _ i d
                    (finalized d (iso (clock w (S (reads w))))) Hi) as H.
      rewrite !matches_done in H. cbn [finalized Doc.deleted present] in H.
      rewrite Hd in H. cbn [present] in H. f_equal. lia.
    + rewrite !total_unfold. cbn [fst]. rewrite !matching_total.
      rewrite ack_unfold in Hok.
      destruct (findOne _ _ _) as [[i d]|] eqn:Hf; [|discriminate].
      injection Hok as _ <-. rewrite docs_with_docs. by rewrite length_insert.
    + by apply ack_drops_live with a r.
  - intros e w1 Herr. rewrite ack_unfold in Herr.
    destruct (findOne _ _ _) as [[i d]|]; [discriminate|].
    injection Herr as <- <-. split; reflexivity.
Qed.

(** X4. An [add] that succeeds makes [total] of its queue report exactly
    one more and leaves [done] as it was; an [add] that fails has thrown
    [RangeError] and leaves every collection as it was.  [ping], the step
    of [get] on the store, and [get] on a queue without dead-letter queue
    never change what [total] and [done] report, whether they succeed or
    not. *)
Theorem only_add_raises_total :
  (forall (self : Queue.t) (p : value) (opts : Opts.t) (w w1 : World)
          (r : string),
     add self p opts w = (Ok r, w1) ->
     (forall n : nat, fst (total self w) = Ok n ->
                      fst (total self w1) = Ok (S n))
     /\ fst (done self w1) = fst (done self w))
  /\
  (forall (self : Queue.t) (p : value) (opts : Opts.t) (w w1 : World)
          (e : error),
     add self p opts w = (Err e, w1) ->
     e = RangeError "Invalid time value" /\ db w1 = db w)
  /\
  (forall (self : Queue.t) (a : option string) (opts : Opts.t) (w : World),
     fst (total self (snd (ping self a opts w))) = fst (total self w)
     /\ fst (done self (snd (ping self a opts w))) = fst (done self w))
  /\
  (forall (self : Queue.t) (opts : Opts.t) (w : World),
     fst (total self (snd (claim self opts w))) = fst (total self w)
     /\ fst (done self (snd (claim self opts w))) = fst (done self w))
  /\
  (forall (fuel : nat) (self : Queue.t) (opts : Opts.t) (w : World),
     Queue.deadQueue self = None ->
     fst (total self (snd (get (S fuel) self opts w))) = fst (total self w)
     /\ fst (done self (snd (get (S fuel) self opts w))) = fst (done self w)).
Proof.
  assert (Hclaim : forall (self : Queue.t) (opts : Opts.t) (w : World),
     fst (total self (snd (claim self opts w))) = fst (total self w)
     /\ fst (done self (snd (claim self opts w))) = fst (done self w)).
  { intros self opts w. rewrite !total_unfold, !done_unfold. cbn [fst].
    destruct (claim_world self opts w) as [[d' Hc]|Hw].
    - apply claim_Some_inv in Hc as (i & d & Hi & [_ Hdel] & Hd' & Hw1).
      rewrite Hw1, docs_with_docs, !matching_total, length_insert.
      split; [done|]. f_equal. apply matching_insert_same with d; [done|].
      rewrite !matches_done, Hd'. reflexivity.
    - by rewrite (collection_same_db _ _ _ Hw). }
  split; [|split; [|split; [|split]]].
  - intros self p opts w w1 r Hadd.
    rewrite !total_unfold, !done_unfold. cbn [fst].
    rewrite (add_docs _ _ _ _ _ _ Hadd). split.
    + intros n. rewrite !matching_total. intros Hn. injection Hn as <-.
      rewrite length_app. cbn [length]. f_equal. lia.
    + rewrite matching_app, matching_cons, matches_done. cbn. f_equal. lia.
  - intros self p opts w w1 e Hadd.
    destruct (add_cases self p opts w) as [[H _]|(H & _)]; rewrite H in Hadd;
      [discriminate|]. by injection Hadd as <- <-.
  - intros self a opts w. rewrite !total_unfold, !done_unfold. cbn [fst].
    destruct (valid_time (ping_instant self opts w)) eqn:Hv.
    2:{ by rewrite ping_throws. }
    rewrite ping_unfold by done.
    destruct (findOne _ _ _) as [[i d]|] eqn:Hf; cbn [snd]; [|done].
    apply findOne_Some in Hf as (Hi & _).
    rewrite docs_with_docs, !matching_total, length_insert.
    split; [done|]. f_equal. apply matching_insert_same with d; [done|].
    by rewrite !matches_done.
  - exact Hclaim.
  - intros fuel self opts w Hdq.
    destruct (get_without_dead_queue fuel self opts w Hdq) as [-> _].
    apply Hclaim.
Qed.

(** X5. [size] counts with the very query [get] claims with.  For a
    [get] without claimant whose lease end is in the range of [Date], at
    one clock reading, [size] reports 0 exactly when the step of [get]
    finds nothing; then [get] hands the caller the empty result.  When
    [size] reports more than 0 and the store accepts the drawn token,
    that [get] claims a document. *)
Theorem size_tells_whether_get_finds_a_message
    (fuel : nat) (self : Queue.t) (opts : Opts.t) (w : World) :
  truthy_str (Opts.user opts) = false ->
  valid_time (lease_instant self opts w) = true ->
  (fst (size self w) = Ok O <-> fst (claim self opts w) = Ok None)
  /\ (fst (size self w) = Ok O ->
      get (S fuel) self opts w = (Ok None, after_claim_reads w))
  /\ (forall n : nat,
        fst (size self w) = Ok (S n) ->
        token_accepted self w ->
        exists (d' : doc) (w' : World),
          claim self opts w = (Ok (Some d'), w')).
Proof.
  intros Hu Hv.
  assert (Hzero : fst (size self w) = Ok O
                  <-> findOne (get_query (claim_time w)) true
                        (docs (collection (Queue.name self) w)) = None).
  { rewrite size_unfold. cbn [fst]. rewrite findOne_None.
    rewrite <- matching_zero.
    split; [intros H; by injection H|intros ->; reflexivity]. }
  split; [|split].
  - rewrite Hzero, claim_unfold by done.
    destruct (findOne _ _ _) as [[i d]|]; [|done].
    cbn zeta. destruct (_ && _); cbn [fst]; split; discriminate.
  - intros Hs. apply get_empty. rewrite claim_unfold by done.
    apply Hzero in Hs. by rewrite Hs.
  - intros n Hs Hfree.
    destruct (claim_or_nothing self opts w Hu Hv Hfree) as [Hnone|(i & d & Hc)];
      [|eauto].
    exfalso. rewrite size_unfold in Hs. cbn [fst] in Hs.
    injection Hs as Hs.
    assert (Hz : matching (get_query (claim_time w))
                   (docs (collection (Queue.name self) w)) = O).
    { apply matching_zero. intros d Hd. rewrite Forall_forall in Hnone.
      specialize (Hnone d Hd). destruct (matches _ d) eqn:E; [|done].
      apply matches_get_query in E. by destruct Hnone. }
    lia.
Qed.

(* ===================================================================== *)
(** ** What the caller of [get] holds, and what [ack] makes of it *)
(* ===================================================================== *)

(** X6. Whatever the state of the queue, a message that [get] hands to
    its caller is a document of the queue's collection as [get] leaves
    it, and it carries a token, a [tries] count, a [firstClaimed] stamp
    and no [deleted]; when a dead-letter queue is configured its [tries]
    is at most [maxRetries]. *)
Theorem delivered_message_is_a_leased_document
    (fuel : nat) (self : Queue.t) (opts : Opts.t) (w w' : World) (m : message) :
  get fuel self opts w = (Ok (Some m), w') ->
  exists (j : nat) (x : doc) (a : string) (k : Z) (f : string),
    docs (collection (Queue.name self) w') !! j = Some x
    /\ m = message_of x
    /\ Msg.id m = toHexString (Doc._id x)
    /\ Msg.ack m = Some a
    /\ Msg.tries m = Some k
    /\ Msg.firstClaimed m = Some f
    /\ Msg.deleted m = None
    /\ (forall (dq : Queue.t) (R : Z),
          Queue.deadQueue self = Some dq -> Queue.maxRetries self = Some R ->
          k <= R).
Proof.
  intros Hg.
  apply get_Some_position in Hg as (j & x0 & a & v & f & Hj & -> & Hdel & Hdl).
  exists j, (claimed x0 a v f), a, (tries_of x0 + 1), f.
  split; [done|]. split; [done|]. split; [done|]. split; [done|].
  split; [done|]. split; [done|]. split; [exact Hdel|].
  intros dq R Hdq HR.
  destruct (dead_lettered_spec self dq R (claimed x0 a v f) Hdq HR) as [Hspec _];
    [by eexists|].
  destruct (Z.lt_ge_cases R (tries_of (claimed x0 a v f))) as [Hlt|Hge].
  - apply Hspec in Hlt. congruence.
  - unfold tries_of in Hge at 1. cbn in Hge. lia.
Qed.

(** X7. Take a message [get] has just handed out, in a collection where
    no token is held twice, and let the lease still run at the next clock
    reading: the message's [visible] is above the timestamp of that
    reading in the order of the store.  Then [ping] with the message's
    token succeeds (when the new lease end is in the range of [Date]) and
    [ack] with it succeeds, both returning the message's [id].  After
    that [ack], [ack] and [ping] with the token fail, and whatever calls
    follow, [clean] among them, no [get] on the queue hands out that
    document again. *)
Theorem ack_of_a_delivered_message_is_final
    (fuel : nat) (self : Queue.t) (opts : Opts.t) (w w' : World) (m : message) :
  get fuel self opts w = (Ok (Some m), w') ->
  tokens_unique (docs (collection (Queue.name self) w')) ->
  str_ltb (claim_time w') (Msg.visible m) = true ->
  exists (j : nat) (x : doc) (w2 : World),
    docs (collection (Queue.name self) w') !! j = Some x
    /\ m = message_of x
    /\ (forall opts' : Opts.t,
          valid_time (ping_instant self opts' w') = true ->
          fst (ping self (Msg.ack m) opts' w') = Ok (Msg.id m))
    /\ ack self (Msg.ack m) w' = (Ok (Msg.id m), w2)
    /\ docs (collection (Queue.name self) w2) !! j
       = Some (finalized x (iso (clock w' (S (reads w')))))
    /\ (exists e, fst (ack self (Msg.ack m) w2) = Err e)
    /\ (forall opts' : Opts.t,
          exists e, fst (ping self (Msg.ack m) opts' w2) = Err e)
    /\ (forall (requests : list request) (fuel' : nat) (opts' : Opts.t)
               (m2 : message) (w3 : World) (j' : nat),
          track requests w2 (Queue.name self) j = Some j' ->
          get fuel' self opts' (foldl serve w2 requests) = (Ok (Some m2), w3) ->
          exists (j2 : nat) (x2 : doc),
            j2 <> j'
            /\ docs (collection (Queue.name self) w3) !! j2 = Some x2
            /\ m2 = message_of x2).
Proof.
  intros Hg Hu Hruns.
  apply get_Some_position in Hg as (j & x0 & a & v & f & Hj & -> & Hdel & _).
  set (x := claimed x0 a v f) in *.
  assert (Hl : holds_lease a (claim_time w') x) by (by repeat split).
  pose proof (lease_found a _ _ j x Hu Hj Hl) as Hfind.
  pose proof (ack_unfold self (Some a) w') as Hack. rewrite Hfind in Hack.
  assert (Hlen : (j < length (docs (collection (Queue.name self) w')))%nat)
    by (by apply lookup_lt_Some in Hj).
  eexists j, x, _. split; [done|]. split; [done|]. split.
  { intros opts' Hv. change (Msg.ack (message_of x)) with (Some a).
    rewrite ping_unfold, Hfind by done. reflexivity. }
  split; [exact Hack|].
  assert (Hj2 : docs (collection (Queue.name self)
                        (with_docs (Queue.name self)
                           (<[j := finalized x (iso (clock w' (S (reads w'))))]>
                              (docs (collection (Queue.name self) w')))
                           (tick (tick w')))) !! j
                = Some (finalized x (iso (clock w' (S (reads w')))))).
  { rewrite docs_with_docs. by apply list_lookup_insert_eq. }
  split; [exact Hj2|]. split; [|split].
  - change (Msg.ack (message_of x)) with (Some a).
    rewrite ack_unfold, docs_with_docs.
    rewrite (no_lease_after_finalized a _ _ _ j x Hu Hj eq_refl).
    by eexists.
  - intros opts'. change (Msg.ack (message_of x)) with (Some a).
    match goal with |- context [ping self (Some a) opts' ?w0] =>
      destruct (valid_time (ping_instant self opts' w0)) eqn:Hv end.
    2:{ rewrite ping_throws by done. by eexists. }
    rewrite ping_unfold, docs_with_docs by done.
    rewrite (no_lease_after_finalized a _ _ _ j x Hu Hj eq_refl).
    by eexists.
  - intros requests fuel' opts' m2 w3 j' Htrack Hg2.
    pose proof Hg2 as Hinv.
    apply get_Some_inv in Hinv as (w0 & opts0 & d'' & Hev & Hc & _ & ->).
    apply claim_Some_inv in Hc as (j2 & y0 & Hy0 & [_ Hdy] & -> & ->).
    exists j2, (claimed y0 (token w0) (lease_end self opts0 w0) (claim_stamp w0)).
    split; [|split; [|done]].
    + intros ->.
      destruct (tracked requests _ (Queue.name self) j j' _ Hj2 Htrack)
        as (z1 & Hz1 & _ & _ & _ & _ & Hfrozen1).
      destruct (Hev _ _ _ Hz1) as (z & Hz & _ & _ & _ & _ & Hfrozen).
      rewrite Hy0 in Hz. injection Hz as <-.
      rewrite Hfrozen1 in Hfrozen by done.
      rewrite Hfrozen in Hdy by done. discriminate Hdy.
    + rewrite docs_with_docs. apply list_lookup_insert_eq.
      by apply lookup_lt_Some in Hy0.
Qed.

(* ===================================================================== *)
(** ** What a call leaves alone *)
(* ===================================================================== *)

(** X8. The step of [get] on the store leaves alone every document that
    is not eligible for the timestamp of the call, be it leased with a
    [visible] not below that timestamp in the order of the store,
    delayed, or done, and every other collection.  So on a queue without
    dead-letter queue no [get] changes such a document or hands it to a
    caller. *)
Theorem get_leaves_running_leases_alone
    (self : Queue.t) (opts : Opts.t) (w : World) (i : nat) (d : doc) :
  docs (collection (Queue.name self) w) !! i = Some d ->
  str_ltb (Doc.visible d) (claim_time w) = false \/ Doc.deleted d <> None ->
  docs (collection (Queue.name self) (snd (claim self opts w))) !! i = Some d
  /\ (forall name, name <> Queue.name self ->
                   collection name (snd (claim self opts w)) = collection name w)
  /\ (Queue.deadQueue self = None ->
      forall fuel : nat,
        docs (collection (Queue.name self) (snd (get (S fuel) self opts w))) !! i
        = Some d
        /\ (forall (m : message) (w' : World),
              get (S fuel) self opts w = (Ok (Some m), w') ->
              exists (j : nat) (x : doc),
                j <> i
                /\ docs (collection (Queue.name self) w') !! j = Some x
                /\ m = message_of x)).
Proof.
  intros Hi Hnot.
  assert (Hne : ~ eligible (claim_time w) d).
  { intros [Hv Hd]. destruct Hnot as [Hle|Hdel]; [congruence|done]. }
  assert (Hkeep : docs (collection (Queue.name self) (snd (claim self opts w))) !! i
                  = Some d).
  { destruct (claim_world self opts w) as [[d' Hc]|Hw].
    - apply claim_Some_inv in Hc as (j & x & Hj & Hel & _ & Hw').
      rewrite Hw', docs_with_docs.
      rewrite list_lookup_insert_ne; [done|].
      intros ->. rewrite Hi in Hj. injection Hj as <-. done.
    - by rewrite (collection_same_db _ _ _ Hw). }
  split; [exact Hkeep|]. split; [intros name; apply claim_other_collection|].
  intros Hdq fuel.
  destruct (get_without_dead_queue fuel self opts w Hdq) as [Hsnd Hfst].
  split; [by rewrite Hsnd|].
  intros m w' Hg. rewrite Hg in Hsnd, Hfst. cbn [fst snd] in Hsnd, Hfst.
  destruct (claim self opts w) as [[[d'|]|e|] w1] eqn:Hc; cbn [fst snd] in *;
    try discriminate.
  injection Hfst as ->. subst w1.
  apply claim_Some_inv in Hc as (j & x & Hj & Hel & -> & Hw').
  exists j, (claimed x (token w) (lease_end self opts w) (claim_stamp w)).
  split; [|split; [|done]].
  - intros ->. rewrite Hi in Hj. injection Hj as <-. done.
  - rewrite Hw', docs_with_docs. apply list_lookup_insert_eq.
    by apply lookup_lt_Some in Hj.
Qed.

(** X9. Whatever sequence of calls other than [clean] is made, on any
    queues, a document stays at its position with its [_id] and its
    payload; and once it has [deleted], it never changes again: [deleted]
    is never cleared or rewritten, and no [ping], [ack] or [get] reaches
    the document. *)
Theorem done_document_never_changes
    (calls : list call) (w : World) (name : string) (i : nat) (d : doc) :
  docs (collection name w) !! i = Some d ->
  exists d' : doc,
    docs (collection name (foldl perform w calls)) !! i = Some d'
    /\ Doc._id d' = Doc._id d
    /\ Doc.payload d' = Doc.payload d
    /\ (forall t : string, Doc.deleted d = Some t -> d' = d).
Proof.
  intros Hi.
  destruct (evolves_calls calls w name i d Hi) as (d' & Hd' & Hid & Hp & _ & _ & Hf).
  exists d'. split; [done|]. split; [done|]. split; [done|].
  intros t Ht. apply Hf. congruence.
Qed.

(* ===================================================================== *)
(** ** [createIndexes] and what the index refuses *)
(* ===================================================================== *)

(** X10. [createIndexes] succeeds exactly when no token is held by two
    documents of the queue's collection.  Then it returns the name of the
    first index, switches the unique index on and leaves every document
    and every other collection as they were; otherwise it fails with the
    store's duplicate key error and changes nothing. *)
Theorem createIndexes_needs_unique_tokens (self : Queue.t) (w : World) :
  (tokens_unique (docs (collection (Queue.name self) w))
   /\ exists w' : World,
        createIndexes self w = (Ok "deleted_1_visible_1__id_1", w')
        /\ ackUnique (collection (Queue.name self) w') = true
        /\ docs (collection (Queue.name self) w')
           = docs (collection (Queue.name self) w)
        /\ (forall name, name <> Queue.name self ->
                         collection name w' = collection name w)
        /\ reads w' = reads w /\ draws w' = draws w)
  \/
  (~ tokens_unique (docs (collection (Queue.name self) w))
   /\ createIndexes self w
      = (Err (MongoError "E11000 duplicate key error"), w)).
Proof.
  unfold createIndexes, bind, createIndex_ack.
  destruct (has_duplicate_ack _) eqn:Hdup.
  - right. split; [by apply has_duplicate_ack_true|reflexivity].
  - left. split; [by apply has_duplicate_ack_false|].
    eexists. split; [reflexivity|].
    rewrite collection_set_eq. cbn [ackUnique docs].
    split; [done|]. split; [done|]. split; [|done].
    intros name Hne. by rewrite collection_set_ne.
Qed.

(** X11. Let some document be eligible for a [get] without claimant
    whose lease end is in the range of [Date], and let the token the call
    draws be held already by a document that is not eligible.  If the
    unique index is on, [get] fails with the store's duplicate key error
    and leaves every collection as it was.
    If the index is off, the step of [get] on the store succeeds, and
    afterwards two documents hold the same token. *)
Theorem only_the_index_keeps_tokens_apart
    (fuel : nat) (self : Queue.t) (opts : Opts.t) (w : World)
    (i j : nat) (d x : doc) :
  truthy_str (Opts.user opts) = false ->
  valid_time (lease_instant self opts w) = true ->
  docs (collection (Queue.name self) w) !! i = Some d ->
  eligible (claim_time w) d ->
  docs (collection (Queue.name self) w) !! j = Some x ->
  Doc.ack x = Some (token w) ->
  ~ eligible (claim_time w) x ->
  (ackUnique (collection (Queue.name self) w) = true ->
   get (S fuel) self opts w
   = (Err (MongoError "E11000 duplicate key error"), after_claim_reads w)
   /\ db (after_claim_reads w) = db w)
  /\
  (ackUnique (collection (Queue.name self) w) = false ->
   exists (k : nat) (d' : doc) (w' : World),
     claim self opts w = (Ok (Some d'), w')
     /\ k <> j
     /\ docs (collection (Queue.name self) w') !! k = Some d'
     /\ docs (collection (Queue.name self) w') !! j = Some x
     /\ Doc.ack d' = Some (token w)
     /\ ~ tokens_unique (docs (collection (Queue.name self) w'))).
Proof.
  intros Hu Hv Hi Hel Hj Hax Hnel.
  pose proof (claim_unfold self opts w Hu Hv) as Hc.
  destruct (findOne _ _ _) as [[k y]|] eqn:Hf.
  2:{ exfalso. rewrite findOne_None in Hf.
      assert (Hd : d ∈ docs (collection (Queue.name self) w))
        by (apply list_elem_of_lookup; eauto).
      specialize (Hf d Hd). apply matches_get_query in Hel. congruence. }
  apply findOne_Some in Hf as (Hk & Hs & _).
  apply selects_spec in Hs as [Hm _]. apply matches_get_query in Hm.
  assert (Hkj : k <> j).
  { intros ->. rewrite Hj in Hk. injection Hk as <-. done. }
  assert (Hdup : duplicate_ack (docs (collection (Queue.name self) w)) k
                   (get_update (token w) (lease_end self opts w)
                      (claim_stamp w) None) = true).
  { destruct (duplicate_ack _ _ _) eqn:E; [done|]. exfalso.
    apply (no_duplicate_ack _ _ _ _ _ E j x Hj); [congruence|done]. }
  cbn zeta in Hc. rewrite Hdup in Hc. split.
  - intros Hidx. rewrite Hidx in Hc. cbn [andb] in Hc.
    split; [by apply get_fails|reflexivity].
  - intros Hidx. rewrite Hidx in Hc. cbn [andb] in Hc.
    assert (Hlen : (k < length (docs (collection (Queue.name self) w)))%nat)
      by (by apply lookup_lt_Some in Hk).
    eexists k, _, _. split; [exact Hc|]. split; [done|].
    rewrite docs_with_docs. split; [by apply list_lookup_insert_eq|].
    split; [by rewrite list_lookup_insert_ne|]. split; [reflexivity|].
    intros Huniq.
    apply Hkj.
    apply (Huniq k j
             (claimed y (token w) (lease_end self opts w) (claim_stamp w))
             x (token w)).
    + by apply list_lookup_insert_eq.
    + by rewrite list_lookup_insert_ne.
    + reflexivity.
    + done.
Qed.

(* ===================================================================== *)
(** ** Tokens *)
(* ===================================================================== *)

(** X12. The token [id] draws is the lower-case hexadecimal rendering of
    the random bytes: two characters per byte (32 for 16 bytes), only
    the characters 0-9 and a-f, and different bytes give different
    tokens, so two calls of [get] write the same token only if the
    random source repeats itself.  Each call consumes one draw and no
    clock reading. *)
Theorem id_renders_the_random_bytes :
  (forall bs : list Byte.byte,
     String.length (hex_of_bytes bs) = (2 * length bs)%nat)
  /\ (forall (bs : list Byte.byte) (c : ascii),
        In c (list_ascii_of_string (hex_of_bytes bs)) ->
        In c ["0"; "1"; "2"; "3"; "4"; "5"; "6"; "7";
              "8"; "9"; "a"; "b"; "c"; "d"; "e"; "f"]%char)
  /\ (forall bs1 bs2 : list Byte.byte,
        hex_of_bytes bs1 = hex_of_bytes bs2 -> bs1 = bs2)
  /\ (forall w : World,
        fst (id w) = Ok (token w)
        /\ draws (snd (id w)) = S (draws w)
        /\ reads (snd (id w)) = reads w
        /\ db (snd (id w)) = db w
        /\ (length (entropy w (draws w) 16) = 16%nat ->
            String.length (token w) = 32%nat)
        /\ (forall w2 : World,
              token w = token w2 ->
              entropy w (draws w) 16 = entropy w2 (draws w2) 16)).
Proof.
  assert (Hlen : forall bs : list Byte.byte,
            String.length (hex_of_bytes bs) = (2 * length bs)%nat).
  { induction bs as [|b bs IH]; [reflexivity|].
    cbn [hex_of_bytes String.length length]. rewrite IH. lia. }
  assert (Hinj : forall bs1 bs2 : list Byte.byte,
            hex_of_bytes bs1 = hex_of_bytes bs2 -> bs1 = bs2).
  { induction bs1 as [|b bs1 IH]; intros [|b' bs2] H; try done.
    cbn [hex_of_bytes] in H. injection H as H1 H2 H3.
    pose proof (Byte.to_N_bounded b). pose proof (Byte.to_N_bounded b').
    apply (f_equal (fun c => c)) in H3.
    assert (Hq : (Byte.to_N b / 16 = Byte.to_N b' / 16)%N).
    { apply hex_digit_inj; [| |congruence].
      - apply N.Div0.div_lt_upper_bound. lia.
      - apply N.Div0.div_lt_upper_bound. lia. }
    assert (Hr : (Byte.to_N b mod 16 = Byte.to_N b' mod 16)%N).
    { apply hex_digit_inj; [| |congruence]; apply N.mod_lt; lia. }
    f_equal; [by apply byte_from_digits|]. apply IH.
    cbv zeta in H3. exact H3. }
  split; [exact Hlen|]. split.
  { induction bs as [|b bs IH]; intros c Hc; [inversion Hc|].
    cbn [hex_of_bytes list_ascii_of_string] in Hc.
    destruct Hc as [<-|[<-|Hc]]; [apply hex_digit_is_hex..|by apply IH]. }
  split; [exact Hinj|].
  intros w. split; [reflexivity|]. split; [reflexivity|].
  split; [reflexivity|]. split; [reflexivity|]. split.
  - intros H16. unfold token. rewrite Hlen, H16. reflexivity.
  - intros w2 Ht. by apply Hinj.
Qed.

(* ===================================================================== *)
(** ** Leases that cannot be used, and the constructor's defaults *)
(* ===================================================================== *)

(** X13. [get] does not check the lease duration.  When the duration in
    force is zero or negative, the clock does not run backwards and the
    instants involved lie within the years 0000 to 9999, the message
    [get] hands out carries a lease that is over already: with a token
    that no other document holds, the next [ack] or [ping] with that
    token fails with "Unidentified ack". *)
Theorem lease_without_duration_cannot_be_acknowledged
    (fuel : nat) (self : Queue.t) (opts opts' : Opts.t) (w : World)
    (i : nat) (d : doc) :
  truthy_str (Opts.user opts) = false ->
  Forall (fun x => Doc.ack x <> Some (token w))
         (docs (collection (Queue.name self) w)) ->
  docs (collection (Queue.name self) w) !! i = Some d ->
  eligible (claim_time w) d ->
  (forall j x, docs (collection (Queue.name self) w) !! j = Some x -> j <> i ->
               eligible (claim_time w) x -> (Doc._id d < Doc._id x)%N) ->
  dead_lettered self
    (claimed d (token w) (lease_end self opts w) (claim_stamp w)) = false ->
  or_num (Opts.visibility opts) (Queue.visibility self) <= 0 ->
  clock w (S (reads w)) <= clock w (S (S (S (reads w)))) ->
  four_digit_year (lease_instant self opts w) ->
  four_digit_year (clock w (S (S (S (reads w))))) ->
  exists (m : message) (w1 : World),
    get (S fuel) self opts w = (Ok (Some m), w1)
    /\ Msg.ack m = Some (token w)
    /\ Msg.visible m = iso (lease_instant self opts w)
    /\ lease_instant self opts w <= clock w1 (reads w1)
    /\ fst (ack self (Msg.ack m) w1)
       = Err (Error ("Queue.ack(): Unidentified ack : " +:+ token w))
    /\ (valid_time (ping_instant self opts' w1) = true ->
        fst (ping self (Msg.ack m) opts' w1)
        = Err (Error ("Queue.ping(): Unidentified ack  : " +:+ token w))).
Proof.
  intros Hu Hfresh Hi Hel Hfirst Hdl Hdur Hclock Flease Fnow.
  pose proof (first_in_line self opts w i d Hu (four_digit_valid _ Flease)
                (or_intror Hfresh) Hi Hel Hfirst) as Hc.
  pose proof (get_delivers fuel self opts w _ _ Hc Hdl) as Hg.
  eexists _, _. split; [exact Hg|]. split; [reflexivity|].
  split; [reflexivity|].
  assert (Hover : lease_instant self opts w <= clock w (S (S (S (reads w)))))
    by (unfold lease_instant; lia).
  split; [exact Hover|].
  assert (Hnone : findOne
            (lease_query (Some (token w)) (iso (clock w (S (S (S (reads w)))))))
            false
            (<[i := claimed d (token w) (lease_end self opts w) (claim_stamp w)]>
               (docs (collection (Queue.name self) w))) = None).
  { apply no_lease_held, Forall_forall. intros x Hx [Hax [Hvx _]].
    apply list_elem_of_lookup in Hx as [j Hj].
    destruct (decide (j = i)) as [->|Hne].
    - rewrite list_lookup_insert_eq in Hj by (by apply lookup_lt_Some in Hi).
      injection Hj as <-. cbn [claimed Doc.visible] in Hvx.
      unfold lease_end in Hvx. apply iso_order_lt in Hvx; [lia|done|done].
    - rewrite list_lookup_insert_ne in Hj by done.
      rewrite Forall_forall in Hfresh.
      apply (Hfresh x); [|done]. apply list_elem_of_lookup. eauto. }
  cbn [message_of Msg.ack claimed Doc.ack].
  split.
  - rewrite ack_unfold, docs_with_docs.
    change (claim_time _) with (iso (clock w (S (S (S (reads w)))))).
    by rewrite Hnone.
  - intros Hv. rewrite ping_unfold, docs_with_docs by done.
    change (claim_time _) with (iso (clock w (S (S (S (reads w)))))).
    by rewrite Hnone.
Qed.

(** X14. The constructor fails without a client and fails on an empty
    name; otherwise it succeeds.  A lease duration, a delay or a
    [maxRetries] given as 0 counts as not given: the queue it builds
    never has lease duration 0 (30 stands in) nor [maxRetries] 0 (5
    stands in), it has [maxRetries] exactly when it has a dead-letter
    queue, and a [maxRetries] given without a dead-letter queue is
    dropped, in which case [get] never applies the dead-letter policy. *)
Theorem constructor_replaces_zero_by_the_default
    (mongoDbClient : bool) (name : string) (opts : option QueueOpts.t) :
  (mongoDbClient = false ->
   Queue mongoDbClient name opts
   = Err (Error "mongodb-queue: provide a mongodb.MongoClient"))
  /\ (mongoDbClient = true -> name = EmptyString ->
      Queue mongoDbClient name opts
      = Err (Error "mongodb-queue: provide a queue name"))
  /\ (mongoDbClient = true -> name <> EmptyString ->
      exists q : Queue.t,
        Queue mongoDbClient name opts = Ok q
        /\ Queue.name q = name
        /\ Queue.visibility q <> 0
        /\ (forall R : Z, Queue.maxRetries q = Some R -> R <> 0)
        /\ (Queue.deadQueue q = None <-> Queue.maxRetries q = None)
        /\ (forall o : QueueOpts.t,
              opts = Some o ->
              Queue.deadQueue q = QueueOpts.deadQueue o
              /\ (QueueOpts.visibility o = Some 0 \/ QueueOpts.visibility o = None ->
                  Queue.visibility q = 30)
              /\ (forall dq : Queue.t,
                    QueueOpts.deadQueue o = Some dq ->
                    QueueOpts.maxRetries o = Some 0 \/ QueueOpts.maxRetries o = None ->
                    Queue.maxRetries q = Some 5))
        /\ (opts = None ->
            Queue.visibility q = 30 /\ Queue.delay q = 0
            /\ Queue.deadQueue q = None)
        /\ (Queue.deadQueue q = None ->
            forall d : doc, dead_lettered q d = false)).
Proof.
  split; [intros ->; reflexivity|]. split.
  { intros -> ->. reflexivity. }
  intros -> Hname. unfold Queue. cbn [negb].
  rewrite bool_decide_eq_false_2 by done.
  eexists. split; [reflexivity|]. cbn [Queue.name Queue.visibility
    Queue.delay Queue.deadQueue Queue.maxRetries].
  assert (Hnz : forall (a : option Z) (b : Z), b <> 0 -> or_num a b <> 0).
  { intros [v|] b Hb; cbn; [|done].
    destruct (Z.eqb_spec v 0); done. }
  split; [done|]. split; [by apply Hnz|]. split.
  { intros R. destruct (QueueOpts.deadQueue _); [|discriminate].
    intros H. injection H as <-. by apply Hnz. }
  split.
  { destruct (QueueOpts.deadQueue _); split; intros H; done. }
  split.
  { intros o ->. change (default _ (Some o)) with o.
    split; [reflexivity|]. split.
    - intros [->| ->]; reflexivity.
    - intros dq -> [->| ->]; reflexivity. }
  split.
  { intros ->. cbn. done. }
  intros Hdq d. unfold dead_lettered. cbn [Queue.deadQueue]. by rewrite Hdq.
Qed.

(** X15. On a queue the constructor built with a dead-letter queue and
    [maxRetries] given as 0 (or not given), [get] hands a claimed message
    to the caller as long as its [tries] is at most 5, and turns to the
    dead-letter queue only from the sixth claim on. *)
Theorem maxRetries_zero_allows_five_claims
    (fuel : nat) (name : string) (o : QueueOpts.t) (q dq : Queue.t)
    (opts : Opts.t) (w w1 : World) (d : doc) :
  Queue true name (Some o) = Ok q ->
  QueueOpts.deadQueue o = Some dq ->
  QueueOpts.maxRetries o = Some 0 \/ QueueOpts.maxRetries o = None ->
  claim q opts w = (Ok (Some d), w1) ->
  (tries_of d <= 5 ->
   get (S fuel) q opts w = (Ok (Some (message_of d)), w1))
  /\ (5 < tries_of d ->
      get (S fuel) q opts w
      = (let* _ := add dq (VMsg (message_of d)) noOpts in
         let* _ := ack q (Doc.ack d) in
         get fuel q noOpts) w1).
Proof.
  intros Hq Hdq Hmax Hc.
  assert (Hfields : Queue.deadQueue q = Some dq /\ Queue.maxRetries q = Some 5).
  { unfold Queue in Hq. cbn [negb] in Hq.
    destruct (bool_decide _); [discriminate|]. injection Hq as <-.
    change (default _ (Some o)) with o.
    cbn [Queue.deadQueue Queue.maxRetries]. rewrite Hdq.
    split; [done|]. by destruct Hmax as [->| ->]. }
  destruct Hfields as [Hdq' HR].
  pose proof Hc as Hinv.
  apply claim_Some_inv in Hinv as (i & d0 & _ & _ & Hd & _).
  assert (Hsome : is_Some (Doc.tries d)) by (rewrite Hd; by eexists).
  destruct (dead_lettered_spec q dq 5 d Hdq' HR Hsome) as [Hdl Hjs].
  split.
  - intros Hle. apply get_delivers; [done|].
    apply not_true_is_false. intros E. apply Hdl in E. lia.
  - intros Hgt. apply get_hands_off; [done|done|]. by apply Hjs.
Qed.

(* ===================================================================== *)
(** ** Around the dead-letter hand-off *)
(* ===================================================================== *)

(** X16. The call [get] makes to itself after a dead-letter hand-off
    passes no options.  So when the hand-off succeeds and the next
    document claimed is within its retries, the caller gets that message
    with a lease of the queue's own duration, whatever lease duration
    the caller asked for. *)
Theorem hand_off_forgets_the_callers_options
    (fuel : nat) (self dq : Queue.t) (opts : Opts.t)
    (w w1 w2 w3 w4 : World) (d d2 : doc) (r2 r3 : string) :
  Queue.deadQueue self = Some dq ->
  js_gt (Doc.tries d) (Queue.maxRetries self) = true ->
  claim self opts w = (Ok (Some d), w1) ->
  add dq (VMsg (message_of d)) noOpts w1 = (Ok r2, w2) ->
  ack self (Doc.ack d) w2 = (Ok r3, w3) ->
  claim self noOpts w3 = (Ok (Some d2), w4) ->
  dead_lettered self d2 = false ->
  get (S (S fuel)) self opts w = (Ok (Some (message_of d2)), w4)
  /\ Msg.visible (message_of d2)
     = iso (clock w3 (S (reads w3)) + Queue.visibility self * 1000)
  /\ Doc.visible d
     = iso (clock w (S (reads w))
            + or_num (Opts.visibility opts) (Queue.visibility self) * 1000).
Proof.
  intros Hdq Hjs Hc Hadd Hack Hc2 Hdl.
  split; [|split].
  - rewrite (get_hands_off (S fuel) self dq opts w w1 d Hc Hdq Hjs).
    unfold bind at 1. rewrite Hadd. unfold bind at 1. rewrite Hack.
    by apply get_delivers.
  - apply claim_Some_inv in Hc2 as (j & x & _ & _ & -> & _). reflexivity.
  - apply claim_Some_inv in Hc as (j & x & _ & _ & -> & _). reflexivity.
Qed.

(** X17. On the dead-letter path [get] adds the message to the
    dead-letter queue before it acknowledges it.  If the lease just
    written has run out when [ack] reads the clock (its [visible] is not
    above the timestamp of that reading in the order of the store) and no
    other document holds the token, [get] fails with "Unidentified ack";
    the copy stays in the dead-letter collection and the source document
    stays without [deleted], so a later [get] will claim it and hand it
    off again. *)
Theorem hand_off_after_the_lease_ran_out_leaves_a_copy
    (fuel : nat) (self dq : Queue.t) (opts : Opts.t) (w : World)
    (i : nat) (d0 : doc) :
  Queue.deadQueue self = Some dq ->
  Queue.name dq <> Queue.name self ->
  truthy_str (Opts.user opts) = false ->
  valid_time (lease_instant self opts w) = true ->
  Forall (fun x => Doc.ack x <> Some (token w))
         (docs (collection (Queue.name self) w)) ->
  docs (collection (Queue.name self) w) !! i = Some d0 ->
  eligible (claim_time w) d0 ->
  (forall j x, docs (collection (Queue.name self) w) !! j = Some x -> j <> i ->
               eligible (claim_time w) x -> (Doc._id d0 < Doc._id x)%N) ->
  js_gt (Some (tries_of d0 + 1)) (Queue.maxRetries self) = true ->
  Queue.delay dq = 0
  \/ valid_time (clock w (S (S (S (reads w)))) + Queue.delay dq * 1000) = true ->
  str_ltb (iso (clock w (S (S (S (S (reads w))))))) (lease_end self opts w) = false ->
  exists w3 : World,
    get (S fuel) self opts w
    = (Err (Error ("Queue.ack(): Unidentified ack : " +:+ token w)), w3)
    /\ docs (collection (Queue.name dq) w3)
       = (docs (collection (Queue.name dq) w)
          ++ [fresh_doc (nextId w)
                (iso (clock w (S (S (S (reads w)))) + Queue.delay dq * 1000))
                (VMsg (message_of
                         (claimed d0 (token w) (lease_end self opts w)
                                  (claim_stamp w))))])%list
    /\ docs (collection (Queue.name self) w3) !! i
       = Some (claimed d0 (token w) (lease_end self opts w) (claim_stamp w))
    /\ Doc.deleted
         (claimed d0 (token w) (lease_end self opts w) (claim_stamp w)) = None.
Proof.
  intros Hdq Hne Hu Hv Hfresh Hi Hel Hfirst Hjs Hdated Hover.
  pose proof (first_in_line self opts w i d0 Hu Hv (or_intror Hfresh) Hi Hel Hfirst)
    as Hc.
  set (d := claimed d0 (token w) (lease_end self opts w) (claim_stamp w)) in *.
  set (w1 := with_docs (Queue.name self)
               (<[i := d]> (docs (collection (Queue.name self) w)))
               (after_claim_reads w)) in *.
  assert (Hlen : (i < length (docs (collection (Queue.name self) w)))%nat)
    by (by apply lookup_lt_Some in Hi).
  assert (Hdocs1 : forall k z,
            docs (collection (Queue.name self) w1) !! k = Some z ->
            Doc.ack z = Some (token w) ->
            Doc.visible z = lease_end self opts w).
  { intros k z Hk Hz. unfold w1 in Hk. rewrite docs_with_docs in Hk.
    destruct (decide (k = i)) as [->|Hki].
    - rewrite list_lookup_insert_eq in Hk by done. by injection Hk as <-.
    - rewrite list_lookup_insert_ne in Hk by done. exfalso.
      rewrite Forall_forall in Hfresh.
      apply (Hfresh z); [|done]. apply list_elem_of_lookup. eauto. }
  assert (Hother1 : collection (Queue.name dq) w1 = collection (Queue.name dq) w).
  { unfold w1. by rewrite collection_with_docs_ne. }
  assert (Hjs' : js_gt (Doc.tries d) (Queue.maxRetries self) = true) by done.
  rewrite (get_hands_off fuel self dq opts w w1 d Hc Hdq Hjs').
  unfold bind at 1.
  destruct (add_cases dq (VMsg (message_of d)) noOpts w1)
    as [[Hadd _]|(_ & Hnz' & Hinv')].
  2:{ exfalso. rewrite add_instant_noOpts in Hinv'.
      destruct Hdated as [H0|Hvd]; [by apply Hnz'|].
      change (clock w1 (reads w1)) with (clock w (S (S (S (reads w))))) in Hinv'.
      congruence. }
  rewrite Hadd. unfold bind at 1.
  set (w2 := snd (insertOne _ _ _ _)).
  assert (Hself2 : collection (Queue.name self) w2 = collection (Queue.name self) w1).
  { unfold w2. by rewrite insertOne_other. }
  assert (Hdq2 : docs (collection (Queue.name dq) w2)
                 = (docs (collection (Queue.name dq) w)
                    ++ [fresh_doc (nextId w)
                          (iso (clock w (S (S (S (reads w)))) + Queue.delay dq * 1000))
                          (VMsg (message_of d))])%list).
  { unfold w2. rewrite insertOne_docs.
    change (collection (Queue.name dq) (tick w1))
      with (collection (Queue.name dq) w1).
    rewrite Hother1. reflexivity. }
  rewrite ack_unfold.
  assert (Hnone : findOne (lease_query (Doc.ack d) (claim_time w2)) false
                    (docs (collection (Queue.name self) w2)) = None).
  { change (Doc.ack d) with (Some (token w)).
    apply no_lease_held, Forall_forall. intros z Hz [Haz [Hvz _]].
    rewrite Hself2 in Hz. apply list_elem_of_lookup in Hz as [k Hk].
    pose proof (Hdocs1 k z Hk Haz) as Hvis.
    change (claim_time w2) with (iso (clock w (S (S (S (S (reads w))))))) in Hvz.
    rewrite Hvis in Hvz. congruence. }
  rewrite Hnone. eexists. split; [reflexivity|].
  change (collection (Queue.name dq) (tick (tick w2)))
    with (collection (Queue.name dq) w2).
  change (collection (Queue.name self) (tick (tick w2)))
    with (collection (Queue.name self) w2).
  split; [exact Hdq2|]. split.
  - rewrite Hself2. unfold w1. rewrite docs_with_docs.
    by apply list_lookup_insert_eq.
  - by destruct Hel.
Qed.


(* ===================================================================== *)
(** ** Timestamps *)
(* ===================================================================== *)

Lemma late_before_four_digit (a b : Z) :
  253402300800000 <= a -> four_digit_year b -> str_ltb (iso a) (iso b) = true.
Proof.
  intros La Fb.
  assert (Hya : 10000 <= civil_year (a / 86400000)).
  { apply civil_year_late.
    pose proof (Z.div_mod a 86400000 ltac:(lia)).
    pose proof (Z.mod_pos_bound a 86400000 ltac:(lia)). lia. }
  pose proof (four_digit_civil b Fb) as Hyb.
  unfold iso, civil_year in *.
  destruct (civil (a / 86400000)) as [[ya ma] da].
  destruct (civil (b / 86400000)) as [[yb mb] db].
  cbn [fst snd] in *. unfold year_string.
  replace ((0 <=? ya) && (ya <=? 9999)) with false
    by (symmetry; apply andb_false_iff; right; lia).
  replace (ya <? 0) with false by (symmetry; apply Z.ltb_ge; lia).
  replace ((0 <=? yb) && (yb <=? 9999)) with true
    by (symmetry; apply andb_true_intro; split; lia).
  cbn [pad].
  change (("+" +:+ ?s) +:+ ?r) with (String "+"%char (s +:+ r)).
  change (String ?c ?s +:+ ?r) with (String c (s +:+ r)).
  cbn [str_ltb].
  assert (Hq : 0 <= yb / pow10 3 <= 9).
  { change (pow10 3) with 1000.
    split; [apply Z.div_pos; lia|]. apply Z.lt_succ_r, Z.div_lt_upper_bound; lia. }
  rewrite nat_of_digit by exact Hq.
  change (nat_of_ascii "+") with 43%nat.
  destruct (Nat.ltb_spec 43 (48 + Z.to_nat (yb / pow10 3))); [reflexivity|lia].
Qed.

(** X18. What [now] and [nowPlusSecs] store is the ISO rendering of an
    instant: the epoch is 1970-01-01T00:00:00.000Z, and the years 0000 to
    9999 are written with four digits.  Within those years two
    timestamps are equal only for equal instants and the store's order
    on them is the order of time; but the timestamp of any instant from
    the year 10000 on begins with a plus sign and is below the timestamp
    of every instant of the years 0000 to 9999.  [now] never fails and
    consumes one clock reading. *)
Theorem timestamps_order_as_time_within_four_digit_years :
  iso 0 = "1970-01-01T00:00:00.000Z"
  /\ iso (-62167219200000) = "0000-01-01T00:00:00.000Z"
  /\ iso 253402300799999 = "9999-12-31T23:59:59.999Z"
  /\ iso 253402300800000 = "+010000-01-01T00:00:00.000Z"
  /\ iso (-62167219200001) = "-000001-12-31T23:59:59.999Z"
  /\ iso 951782400000 = "2000-02-29T00:00:00.000Z"
  /\ (forall a b : Z,
        four_digit_year a -> four_digit_year b ->
        (str_ltb (iso a) (iso b) = true <-> a < b))
  /\ (forall a b : Z,
        four_digit_year a -> four_digit_year b -> iso a = iso b -> a = b)
  /\ (forall a b : Z,
        253402300800000 <= a -> four_digit_year b ->
        str_ltb (iso a) (iso b) = true /\ str_ltb (iso b) (iso a) = false)
  /\ (forall w : World, now w = (Ok (iso (clock w (reads w))), tick w)).
Proof.
  split; [vm_compute; reflexivity|]. split; [vm_compute; reflexivity|].
  split; [vm_compute; reflexivity|]. split; [vm_compute; reflexivity|].
  split; [vm_compute; reflexivity|]. split; [vm_compute; reflexivity|].
  split; [apply iso_order_lt|]. split.
  { intros a b Fa Fb Heq.
    destruct (Z.lt_trichotomy a b) as [Hlt|[->|Hgt]]; [|reflexivity|].
    - apply (iso_lt a b Fa Fb) in Hlt. rewrite Heq, str_ltb_irrefl in Hlt.
      discriminate.
    - apply (iso_lt b a Fb Fa) in Hgt. rewrite Heq, str_ltb_irrefl in Hgt.
      discriminate. }
  split; [|reflexivity].
  intros a b La Fb. pose proof (late_before_four_digit a b La Fb) as H.
  split; [exact H|by apply str_ltb_asym].
Qed.

(** X19. [nowPlusSecs] renders the clock reading plus the seconds when
    that instant is in the range of [Date] and throws [RangeError]
    otherwise, consuming one clock reading either way.  So [add] with a
    delay that is not 0, [get] and [ping] throw [RangeError] when their
    delay or lease duration leads out of that range, and then leave every
    collection as it was; an instant within the years 0000 to 9999 is
    always in range. *)
Theorem durations_out_of_range_throw :
  (forall (secs : Z) (w : World),
     (valid_time (clock w (reads w) + secs * 1000) = true ->
      nowPlusSecs secs w = (Ok (iso (clock w (reads w) + secs * 1000)), tick w))
     /\ (valid_time (clock w (reads w) + secs * 1000) = false ->
         nowPlusSecs secs w = (Err (RangeError "Invalid time value"), tick w)))
  /\ (forall t : Z,
        valid_time t = true <-> -8640000000000000 <= t <= 8640000000000000)
  /\ (forall t : Z, four_digit_year t -> valid_time t = true)
  /\ (forall (self : Queue.t) (p : value) (opts : Opts.t) (w : World),
        or_num (Opts.delay opts) (Queue.delay self) <> 0 ->
        valid_time (add_instant self opts w) = false ->
        add self p opts w = (Err (RangeError "Invalid time value"), tick w)
        /\ db (tick w) = db w)
  /\ (forall (fuel : nat) (self : Queue.t) (opts : Opts.t) (w : World),
        valid_time (lease_instant self opts w) = false ->
        get (S fuel) self opts w
        = (Err (RangeError "Invalid time value"), tick (draw (tick w)))
        /\ db (tick (draw (tick w))) = db w)
  /\ (forall (self : Queue.t) (a : option string) (opts : Opts.t) (w : World),
        valid_time (ping_instant self opts w) = false ->
        ping self a opts w = (Err (RangeError "Invalid time value"), tick (tick w))
        /\ db (tick (tick w)) = db w).
Proof.
  split; [|split; [|split; [|split; [|split]]]].
  - intros secs w. split; [apply nowPlusSecs_valid|apply nowPlusSecs_invalid].
  - intros t. unfold valid_time. rewrite andb_true_iff, !Z.leb_le. tauto.
  - apply four_digit_valid.
  - intros self p opts w Hnz Hv. split; [by apply add_throws|reflexivity].
  - intros fuel self opts w Hv. split; [|reflexivity].
    apply get_fails. by apply claim_throws.
  - intros self a opts w Hv. split; [by apply ping_throws|reflexivity].
Qed.


(* ===================================================================== *)
(** ** The further statements at work on the example worlds *)
(* ===================================================================== *)

Lemma counters_split_the_collection_witness :
  fst (total jobs two_jobs_one_leased) = Ok 2%nat
  /\ fst (size jobs two_jobs_one_leased) = Ok 1%nat
  /\ fst (inFlight jobs two_jobs_one_leased) = Ok 1%nat
  /\ uncounted "1970-01-01T00:00:05.000Z"
       (fresh_doc 9 "1970-01-01T00:00:05.000Z" (VData "late")) = true.
Proof.
  destruct (counters_split_the_collection jobs two_jobs_one_leased)
    as (nt & nd & ns & nf & _ & _ & _ & _ & _ & _ & Hfresh).
  split; [vm_compute; reflexivity|]. split; [vm_compute; reflexivity|].
  split; [vm_compute; reflexivity|].
  apply (Hfresh 9%N 5000 (VData "late")).
  - split; [discriminate|reflexivity].
  - split; vm_compute; [discriminate|reflexivity].
  - vm_compute. discriminate.
Defined.

Lemma ack_moves_one_message_to_done_witness :
  fst (done jobs two_jobs_one_leased) = Ok 0%nat
  /\ fst (done jobs two_jobs_one_done) = Ok 1%nat
  /\ fst (total jobs two_jobs_one_done) = Ok 2%nat.
Proof.
  destruct (ack_moves_one_message_to_done jobs (Some first_token)
              two_jobs_one_leased) as [Hok _].
  destruct (Hok "000000000000000000000001" two_jobs_one_done)
    as (Hdone & Htotal & _); [vm_compute; reflexivity|].
  split; [vm_compute; reflexivity|].
  split; [apply (Hdone 0%nat); vm_compute; reflexivity|].
  rewrite Htotal. vm_compute. reflexivity.
Defined.

Lemma only_add_raises_total_witness :
  fst (total jobs two_jobs) = Ok 2%nat
  /\ fst (total jobs (snd (add jobs (VData "c") (delayed 7) two_jobs))) = Ok 3%nat
  /\ add jobs (VData "c") (delayed 10000000000000) two_jobs
     = (Err (RangeError "Invalid time value"), tick two_jobs).
Proof.
  destruct only_add_raises_total as (Hadd & Hfail & _).
  split; [vm_compute; reflexivity|]. split.
  - destruct (Hadd jobs (VData "c") (delayed 7) two_jobs
                (snd (add jobs (VData "c") (delayed 7) two_jobs))
                "000000000000000000000003") as [Hup _].
    + vm_compute. reflexivity.
    + apply (Hup 2%nat). vm_compute. reflexivity.
  - destruct (add jobs (VData "c") (delayed 10000000000000) two_jobs)
      as [[r|e|] w1] eqn:E.
    + vm_compute in E. discriminate E.
    + destruct (Hfail jobs (VData "c") (delayed 10000000000000) two_jobs w1 e E)
        as [-> _].
      f_equal. vm_compute in E. by injection E.
    + vm_compute in E. discriminate E.
Defined.

Lemma size_tells_whether_get_finds_a_message_witness :
  fst (size jobs two_jobs) = Ok 2%nat
  /\ exists (d' : doc) (w' : World),
       claim jobs patient two_jobs = (Ok (Some d'), w').
Proof.
  split; [vm_compute; reflexivity|].
  destruct (size_tells_whether_get_finds_a_message 0 jobs patient two_jobs)
    as (_ & _ & Hsome); [reflexivity|vm_compute; reflexivity|].
  apply (Hsome 1%nat); [vm_compute; reflexivity|].
  left. vm_compute. reflexivity.
Defined.

Lemma delivered_message_is_a_leased_document_witness :
  exists (j : nat) (x : doc),
    docs (collection "jobs" two_jobs_one_leased) !! j = Some x
    /\ message_of x = message_of leased_a
    /\ Msg.ack (message_of x) = Some first_token.
Proof.
  destruct (delivered_message_is_a_leased_document
              1 jobs noOpts two_jobs two_jobs_one_leased (message_of leased_a))
    as (j & x & a & k & f & Hj & Hm & _).
  - vm_compute. reflexivity.
  - exists j, x. split; [exact Hj|]. split; [by rewrite <- Hm|].
    rewrite <- Hm. reflexivity.
Defined.

Lemma ack_of_a_delivered_message_is_final_witness :
  fst (ping jobs (Some first_token) patient two_jobs_one_leased)
  = Ok "000000000000000000000001"
  /\ exists w2 : World,
       ack jobs (Some first_token) two_jobs_one_leased
       = (Ok "000000000000000000000001", w2)
       /\ exists e : error, fst (ack jobs (Some first_token) w2) = Err e.
Proof.
  destruct (ack_of_a_delivered_message_is_final
              1 jobs noOpts two_jobs two_jobs_one_leased (message_of leased_a))
    as (j & x & w2 & _ & _ & Hping & Hack & _ & Hagain & _).
  - vm_compute. reflexivity.
  - apply has_duplicate_ack_false. vm_compute. reflexivity.
  - vm_compute. reflexivity.
  - split; [apply (Hping patient); vm_compute; reflexivity|].
    exists w2. split; [exact Hack|exact Hagain].
Defined.

Lemma get_leaves_running_leases_alone_witness :
  claim_time two_jobs_one_leased = "1970-01-01T00:00:05.000Z"
  /\ Doc.visible leased_a = "1970-01-01T00:00:33.000Z"
  /\ docs (collection "jobs" (snd (get 1 jobs patient two_jobs_one_leased))) !! 0%nat
     = Some leased_a.
Proof.
  split; [vm_compute; reflexivity|]. split; [reflexivity|].
  destruct (get_leaves_running_leases_alone
              jobs patient two_jobs_one_leased 0 leased_a)
    as (_ & _ & Hget).
  - vm_compute. reflexivity.
  - left. vm_compute. reflexivity.
  - destruct (Hget eq_refl 0%nat) as [Hkeep _]. exact Hkeep.
Defined.

Lemma done_document_never_changes_witness :
  docs (collection "jobs"
          (foldl perform two_jobs_one_done
             [CallGet 1 jobs noOpts; CallPing jobs (Some first_token) patient;
              CallAck jobs (Some first_token)])) !! 0%nat
  = Some (finalized leased_a "1970-01-01T00:00:06.000Z").
Proof.
  destruct (done_document_never_changes
              [CallGet 1 jobs noOpts; CallPing jobs (Some first_token) patient;
               CallAck jobs (Some first_token)]
              two_jobs_one_done "jobs" 0
              (finalized leased_a "1970-01-01T00:00:06.000Z"))
    as (d' & Hd' & _ & _ & Hsame).
  - vm_compute. reflexivity.
  - rewrite Hd'. f_equal. apply (Hsame "1970-01-01T00:00:06.000Z"). reflexivity.
Defined.

Lemma only_the_index_keeps_tokens_apart_witness :
  token replayed = first_token
  /\ get 1 jobs patient replayed
     = (Err (MongoError "E11000 duplicate key error"), after_claim_reads replayed).
Proof.
  split; [vm_compute; reflexivity|].
  destruct (only_the_index_keeps_tokens_apart
              0 jobs patient replayed 1 0
              (fresh_doc 2 "1970-01-01T00:00:01.000Z" (VData "b")) leased_a)
    as [Hon _].
  - reflexivity.
  - vm_compute. reflexivity.
  - vm_compute. reflexivity.
  - vm_compute. split; reflexivity.
  - vm_compute. reflexivity.
  - vm_compute. reflexivity.
  - intros [Hv _]. vm_compute in Hv. discriminate Hv.
  - destruct Hon as [Hget _]; [vm_compute; reflexivity|exact Hget].
Defined.

Lemma lease_without_duration_cannot_be_acknowledged_witness :
  exists (m : message) (w1 : World),
    get 1 jobs backdated two_jobs = (Ok (Some m), w1)
    /\ Msg.visible m = "1970-01-01T00:00:02.000Z"
    /\ fst (ack jobs (Msg.ack m) w1)
       = Err (Error ("Queue.ack(): Unidentified ack : " +:+ first_token))
    /\ fst (ping jobs (Msg.ack m) patient w1)
       = Err (Error ("Queue.ping(): Unidentified ack  : " +:+ first_token)).
Proof.
  destruct (lease_without_duration_cannot_be_acknowledged
              0 jobs backdated patient two_jobs 0
              (fresh_doc 1 "1970-01-01T00:00:00.000Z" (VData "a")))
    as (m & w1 & Hget & _ & Hvis & _ & Hack & Hping).
  - reflexivity.
  - by_evaluation.
  - vm_compute. reflexivity.
  - vm_compute. split; reflexivity.
  - intros [|[|j]] x Hj Hne Hel;
      [exfalso; apply Hne; reflexivity| |vm_compute in Hj; discriminate Hj].
    vm_compute in Hj. injection Hj as <-. vm_compute. reflexivity.
  - vm_compute. reflexivity.
  - vm_compute. discriminate.
  - vm_compute. discriminate.
  - split; vm_compute; [discriminate|reflexivity].
  - split; vm_compute; [discriminate|reflexivity].
  - exists m, w1. split; [exact Hget|]. split.
    { rewrite Hvis. vm_compute. reflexivity. }
    split; [exact Hack|]. apply Hping.
    assert (Hfst : snd (get 1 jobs backdated two_jobs) = w1) by (by rewrite Hget).
    rewrite <- Hfst. vm_compute. reflexivity.
Defined.

Lemma constructor_replaces_zero_by_the_default_witness :
  exists q : Queue.t,
    Queue true "strict" (Some strict_opts) = Ok q
    /\ Queue.visibility q = 30
    /\ Queue.maxRetries q = Some 5.
Proof.
  destruct (constructor_replaces_zero_by_the_default true "strict" (Some strict_opts))
    as (_ & _ & Hok).
  destruct (Hok eq_refl) as (q & Hq & _ & _ & _ & _ & Ho & _); [discriminate|].
  destruct (Ho strict_opts eq_refl) as (_ & Hvis & Hmax).
  exists q. split; [exact Hq|]. split; [apply Hvis; by right|].
  apply (Hmax morgue); [reflexivity|by left].
Defined.

Lemma maxRetries_zero_allows_five_claims_witness :
  Queue true "strict" (Some strict_opts) = Ok strict
  /\ exists (m : message) (w1 : World),
       get 1 strict patient one_strict_job = (Ok (Some m), w1)
       /\ Msg.tries m = Some 1.
Proof.
  split; [reflexivity|].
  destruct (maxRetries_zero_allows_five_claims
              0 "strict" strict_opts strict morgue patient one_strict_job
              (snd (claim strict patient one_strict_job))
              (claimed (fresh_doc 1 "1970-01-01T00:00:00.000Z" (VData "job"))
                 first_token "1970-01-01T00:01:02.000Z"
                 "1970-01-01T00:00:03.000Z"))
    as [Hfew _].
  - reflexivity.
  - reflexivity.
  - by left.
  - vm_compute. reflexivity.
  - eexists _, _. split; [apply Hfew; vm_compute; discriminate|reflexivity].
Defined.

Lemma hand_off_forgets_the_callers_options_witness :
  Opts.visibility patient = Some 60
  /\ Queue.visibility fragile = 5
  /\ exists w4 : World,
       get 2 fragile patient two_fragile_jobs
       = (Ok (Some (message_of next_claimed)), w4)
       /\ Msg.visible (message_of next_claimed) = iso (16000 + 5 * 1000).
Proof.
  split; [reflexivity|]. split; [reflexivity|].
  pose (w1 := snd (claim fragile patient two_fragile_jobs)).
  pose (w2 := snd (add morgue (VMsg (message_of handed_off)) noOpts w1)).
  pose (w3 := snd (ack fragile (Doc.ack handed_off) w2)).
  pose (w4 := snd (claim fragile noOpts w3)).
  destruct (hand_off_forgets_the_callers_options
              0 fragile morgue patient two_fragile_jobs w1 w2 w3 w4
              handed_off next_claimed
              "000000000000000000000003" "000000000000000000000001")
    as (Hget & _ & _).
  - reflexivity.
  - reflexivity.
  - vm_compute. reflexivity.
  - vm_compute. reflexivity.
  - vm_compute. reflexivity.
  - vm_compute. reflexivity.
  - reflexivity.
  - exists w4. split; [exact Hget|vm_compute; reflexivity].
Defined.

Lemma hand_off_after_the_lease_ran_out_leaves_a_copy_witness :
  exists w3 : World,
    get 2 brittle noOpts one_brittle_job
    = (Err (Error ("Queue.ack(): Unidentified ack : " +:+ second_token)), w3)
    /\ length (docs (collection "morgue" w3)) = 1%nat
    /\ docs (collection "brittle" w3) !! 0%nat
       = Some (claimed quick_doc second_token "1970-01-01T00:00:06.000Z"
                 "1970-01-01T00:00:06.000Z").
Proof.
  destruct (hand_off_after_the_lease_ran_out_leaves_a_copy
              1 brittle morgue noOpts one_brittle_job 0 quick_doc)
    as (w3 & Hget & Hcopy & Hstay & _).
  - reflexivity.
  - discriminate.
  - reflexivity.
  - vm_compute. reflexivity.
  - by_evaluation.
  - vm_compute. reflexivity.
  - vm_compute. split; reflexivity.
  - intros [|j] x Hj Hne; [exfalso; apply Hne; reflexivity|].
    vm_compute in Hj. discriminate Hj.
  - vm_compute. reflexivity.
  - by left.
  - vm_compute. reflexivity.
  - exists w3. split; [exact Hget|].
    split; [exact (f_equal length Hcopy)|].
    refine (eq_trans Hstay _). vm_compute. reflexivity.
Defined.

Lemma timestamps_order_as_time_within_four_digit_years_witness :
  iso 1000 = "1970-01-01T00:00:01.000Z"
  /\ iso 2000 = "1970-01-01T00:00:02.000Z"
  /\ iso 300000000002000 = "+011476-08-15T05:20:02.000Z"
  /\ str_ltb (iso 1000) (iso 2000) = true
  /\ str_ltb (iso 300000000002000) (iso 2000) = true.
Proof.
  destruct timestamps_order_as_time_within_four_digit_years
    as (_ & _ & _ & _ & _ & _ & Horder & _ & Hlate & _).
  split; [vm_compute; reflexivity|]. split; [vm_compute; reflexivity|].
  split; [vm_compute; reflexivity|]. split.
  - apply (Horder 1000 2000); [| |lia]; split; lia.
  - destruct (Hlate 300000000002000 2000) as [H _]; [lia|split; lia|].
    exact H.
Defined.

Lemma durations_out_of_range_throw_witness :
  get 1 jobs (lease_of 10000000000000) two_jobs
  = (Err (RangeError "Invalid time value"), tick (draw (tick two_jobs)))
  /\ ping jobs (Some first_token) (lease_of 10000000000000) two_jobs_one_leased
     = (Err (RangeError "Invalid time value"), tick (tick two_jobs_one_leased)).
Proof.
  destruct durations_out_of_range_throw as (_ & _ & _ & _ & Hget & Hping).
  split.
  - apply (Hget 0%nat jobs (lease_of 10000000000000) two_jobs).
    vm_compute. reflexivity.
  - apply (Hping jobs (Some first_token) (lease_of 10000000000000)
             two_jobs_one_leased).
    vm_compute. reflexivity.
Defined.
